(** * Telegram expense bot: a model of [index.ts] and its properties

    The bot keeps three relations in a remote store ([users], [expense],
    [pending_expenses]) and reacts to chat updates.  This development
    embeds the handlers of [index.ts] as programs over the store
    operations they issue, gives those programs a sequential and an
    interleaved semantics, and proves the properties the specification
    states about them.

    Conventions.
    - A JavaScript string is the list of its UTF-16 code units, each a
      number in [N]; string equality ([===], [includes]) is equality of
      these lists.
    - A JavaScript number is an IEEE 754 binary64 value, in the
      representation of the Standard Library's [SpecFloat]; a number
      that went through JSON is that number or [null].
    - Timestamps are milliseconds in [Z]. *)

From Stdlib Require Import ZArith NArith Lia Bool List Ascii String.
From Stdlib Require Import Floats.SpecFloat.
From stdpp Require Import gmap strings list fin_maps sorting pretty.
Import ListNotations.

Local Open Scope N_scope.

(** ** JavaScript strings *)

Abbreviation jsstring := (list N).

(** Code units of an ASCII literal. *)
Definition str (s : string) : jsstring :=
  map N_of_ascii (list_ascii_of_string s).

Definition in_range (lo hi c : N) : bool := (lo <=? c) && (c <=? hi).

(** [\d] *)
Definition is_digit (c : N) : bool := in_range 48 57 c.

(** LineTerminator: LF, CR, LS, PS. *)
Definition is_line_terminator (c : N) : bool :=
  (c =? 10) || (c =? 13) || (c =? 0x2028) || (c =? 0x2029).

(** [\s], also what [trim] strips and what [parseInt] skips: WhiteSpace
    (TAB, VT, FF, SP, NBSP, ZWNBSP and the space separators) together with
    LineTerminator. *)
Definition is_white_space (c : N) : bool :=
  (c =? 9) || (c =? 11) || (c =? 12) || (c =? 32) || (c =? 160)
  || (c =? 0x1680) || in_range 0x2000 0x200A c || (c =? 0x202F)
  || (c =? 0x205F) || (c =? 0x3000) || (c =? 0xFEFF)
  || is_line_terminator c.

(** [.] without the [s] flag: any code unit but a line terminator. *)
Definition is_dot (c : N) : bool := negb (is_line_terminator c).

Fixpoint trimStart (s : jsstring) : jsstring :=
  match s with
  | c :: s' => if is_white_space c then trimStart s' else s
  | [] => []
  end.

Definition trimEnd (s : jsstring) : jsstring := rev (trimStart (rev s)).

(** [String.prototype.trim] *)
Definition trim (s : jsstring) : jsstring := trimEnd (trimStart s).

(** ** A backtracking matcher for the regular expression of the parser

    Each combinator takes the continuation [k] that matches the rest of
    the pattern; [k] receives the text the combinator consumed and the
    remaining input.  A greedy quantifier first tries to consume one more
    unit and falls back to the continuation when the longer attempt
    fails, which is the order in which the JavaScript matcher explores
    alternatives. *)

Section Matcher.
Context {A : Type}.

(** [p*], with [acc] the text consumed so far. *)
Fixpoint greedy_star (p : N → bool) (k : jsstring → jsstring → option A)
    (acc s : jsstring) : option A :=
  match s with
  | c :: s' =>
      if p c then
        match greedy_star p k (acc ++ [c]) s' with
        | Some r => Some r
        | None => k acc s
        end
      else k acc s
  | [] => k acc s
  end.

(** [p+] *)
Definition greedy_plus (p : N → bool) (k : jsstring → jsstring → option A)
    (s : jsstring) : option A :=
  match s with
  | c :: s' => if p c then greedy_star p k [c] s' else None
  | [] => None
  end.

(** [p{0,n}], with [acc] the text consumed so far. *)
Fixpoint greedy_upto (p : N → bool) (n : nat)
    (k : jsstring → jsstring → option A) (acc s : jsstring) : option A :=
  match n with
  | O => k acc s
  | S n' =>
      match s with
      | c :: s' =>
          if p c then
            match greedy_upto p n' k (acc ++ [c]) s' with
            | Some r => Some r
            | None => k acc s
            end
          else k acc s
      | [] => k acc s
      end
  end.

(** A literal code unit. *)
Definition lit (c : N) (k : jsstring → jsstring → option A)
    (s : jsstring) : option A :=
  match s with
  | c' :: s' => if c' =? c then k [c] s' else None
  | [] => None
  end.

(** [(?: m )?]: the group first, the empty match second. *)
Definition optional
    (m : (jsstring → jsstring → option A) → jsstring → option A)
    (k : jsstring → jsstring → option A) (s : jsstring) : option A :=
  match m k s with
  | Some r => Some r
  | None => k [] s
  end.

(** [$] without the [m] flag. *)
Definition at_end (r : A) (s : jsstring) : option A :=
  match s with
  | [] => Some r
  | _ :: _ => None
  end.
End Matcher.

(** [\.\d{1,2}] *)
Definition re_fraction {A} (k : jsstring → jsstring → option A)
    (s : jsstring) : option A :=
  lit 46 (λ dot s1,
    match s1 with
    | d :: s2 =>
        if is_digit d then greedy_upto is_digit 1 k (dot ++ [d]) s2 else None
    | [] => None
    end) s.

(** [text.match(/^(\d+(?:\.\d{1,2})?)\s+(.+)$/)]: the two captures. *)
Definition regex_match (text : jsstring) : option (jsstring * jsstring) :=
  greedy_plus is_digit (λ ds s1,
    optional re_fraction (λ fr s2,
      greedy_plus is_white_space (λ _ s3,
        greedy_plus is_dot (λ g2 s4, at_end (ds ++ fr, g2) s4) s3) s2) s1) text.

(** ** Amounts *)

Definition digit_val (c : N) : N := c - 48.

Definition digits_val (ds : jsstring) : N :=
  fold_left (λ acc c, 10 * acc + digit_val c) ds 0.

Fixpoint span_digits (s : jsstring) : jsstring * jsstring :=
  match s with
  | c :: s' =>
      if is_digit c then let '(ds, r) := span_digits s' in (c :: ds, r)
      else ([], s)
  | [] => ([], [])
  end.

(** A JavaScript number. *)
Abbreviation number := spec_float.

(** The Number value of [h / 100]: the binary64 value nearest to it, ties
    to the even mantissa, [Infinity] beyond the range.  The correctly
    rounded quotient of the two integers [h] and [100] is that value, and
    [SFdiv] is the Standard Library's specification of the correctly
    rounded quotient (it takes mantissas of any size). *)
Definition number_of_hundredths (h : N) : number :=
  match h with
  | N0 => S754_zero false
  | Npos p => SFdiv 53 1024 (S754_finite false p 0) (S754_finite false 100 0)
  end.

(** [parseFloat] on the numerals the first capture can hold: a run of
    digits, then nothing or a point and one or two digits.  The
    mathematical value of the numeral is a whole number of hundredths;
    the result is its Number value. *)
Definition parseFloat (s : jsstring) : number :=
  match span_digits s with
  | ([], _) => S754_nan
  | (ip, []) => number_of_hundredths (100 * digits_val ip)
  | (ip, [p; d1]) =>
      if (p =? 46) && is_digit d1
      then number_of_hundredths (100 * digits_val ip + 10 * digit_val d1)
      else S754_nan
  | (ip, [p; d1; d2]) =>
      if (p =? 46) && is_digit d1 && is_digit d2
      then number_of_hundredths
             (100 * digits_val ip + 10 * digit_val d1 + digit_val d2)
      else S754_nan
  | _ => S754_nan
  end.

Definition isNaN (x : number) : bool :=
  match x with
  | S754_nan => true
  | _ => false
  end.

(** [x <= 0] *)
Definition le_zero (x : number) : bool := SFleb x (S754_zero false).

(** A number as it arrives at the other end of a JSON message:
    [JSON.stringify] writes [null] (here [None]) for [NaN] and the
    infinities, [0] for either zero, and for any other number digits
    that read back as the same number. *)
Definition json_number (x : number) : option number :=
  match x with
  | S754_finite _ _ _ => Some x
  | S754_zero _ => Some (S754_zero false)
  | S754_infinity _ | S754_nan => None
  end.

(** ** The input parser *)

Definition parseExpenseInput (text : jsstring) : option (number * jsstring) :=
  match regex_match text with
  | None => None
  | Some (g1, g2) =>
      let amount := parseFloat g1 in
      let description := trim g2 in
      if isNaN amount || le_zero amount then None
      else Some (amount, description)
  end.

(** ** Other string helpers of the handlers *)

Fixpoint startsWith (prefix s : jsstring) : bool :=
  match prefix, s with
  | [], _ => true
  | a :: prefix', b :: s' => (a =? b) && startsWith prefix' s'
  | _ :: _, [] => false
  end.

Definition cons_head (c : N) (parts : list jsstring) : list jsstring :=
  match parts with
  | h :: t => (c :: h) :: t
  | [] => [[c]]
  end.

(** [s.split(sep)] for a separator of one code unit. *)
Fixpoint split (sep : N) (s : jsstring) : list jsstring :=
  match s with
  | [] => [[]]
  | c :: s' => if c =? sep then [] :: split sep s' else cons_head c (split sep s')
  end.

(** [s.split(/\s+/)]: [in_sep] tells that the previous unit was white space
    of the separator being consumed. *)
Fixpoint split_ws_from (in_sep : bool) (s : jsstring) : list jsstring :=
  match s with
  | [] => [[]]
  | c :: s' =>
      if is_white_space c
      then (if in_sep then split_ws_from true s' else [] :: split_ws_from true s')
      else cons_head c (split_ws_from false s')
  end.

Definition split_ws (s : jsstring) : list jsstring := split_ws_from false s.

(** [parts.join(" ")] *)
Fixpoint join_space (parts : list jsstring) : jsstring :=
  match parts with
  | [] => []
  | [p] => p
  | p :: rest => p ++ 32 :: join_space rest
  end.

(** Value of a digit in the given radix (10 or 16), if it is one. *)
Definition radix_digit (radix c : N) : option N :=
  if is_digit c then Some (c - 48)
  else if (radix =? 16) && in_range 97 102 c then Some (c - 87)
  else if (radix =? 16) && in_range 65 70 c then Some (c - 55)
  else None.

(** The longest prefix of digits, folded into its value; [None] when the
    prefix is empty. *)
Fixpoint radix_prefix (radix : N) (acc : option N) (s : jsstring) : option N :=
  match s with
  | c :: s' =>
      match radix_digit radix c with
      | Some d => radix_prefix radix (Some (radix * default 0 acc + d)) s'
      | None => acc
      end
  | [] => acc
  end.

(** [parseInt(s)] with no radix argument: leading white space, a sign, the
    prefix [0x] or [0X], then the longest run of digits; [None] stands for
    [NaN]. *)
Definition parseInt (s : jsstring) : option Z :=
  let s1 := trimStart s in
  let '(negative, s2) :=
    match s1 with
    | c :: r => if c =? 45 then (true, r)
                else if c =? 43 then (false, r) else (false, s1)
    | [] => (false, s1)
    end in
  let '(radix, s3) :=
    match s2 with
    | c :: x :: r =>
        if (c =? 48) && ((x =? 120) || (x =? 88)) then (16, r) else (10, s2)
    | _ => (10, s2)
    end in
  match radix_prefix radix None s3 with
  | None => None
  | Some v => Some (if negative then (- Z.of_N v)%Z else Z.of_N v)
  end.

(** [parseInt(data.split("_")[1])] *)
Definition payload_index (data : jsstring) : option Z :=
  parseInt (nth 1 (split 95 data) []).

(** [list[index]] for an index that [parseInt] produced: [None] is
    [undefined]. *)
Definition js_index {A} (l : list A) (index : option Z) : option A :=
  match index with
  | Some z => if (z <? 0)%Z then None else l !! Z.to_nat z
  | None => None
  end.

(** [index >= length], false on [NaN]. *)
Definition index_ge_length (index : option Z) (len : nat) : bool :=
  match index with
  | Some z => (Z.of_nat len <=? z)%Z
  | None => false
  end.

(** [l.filter((_, i) => i !== index)], with [i] the position of the head. *)
Fixpoint filter_not_index {A} (index : option Z) (i : nat) (l : list A) : list A :=
  match l with
  | [] => []
  | x :: l' =>
      if bool_decide (index = Some (Z.of_nat i))
      then filter_not_index index (S i) l'
      else x :: filter_not_index index (S i) l'
  end.

(** ** Categories *)

Definition DEFAULT_CATEGORIES : list jsstring :=
  [ [0xD83C; 0xDF54] ++ str " Food";
    [0xD83D; 0xDE97] ++ str " Transport";
    [0xD83C; 0xDFE0] ++ str " Housing";
    [0xD83C; 0xDFAC] ++ str " Entertainment";
    [0xD83D; 0xDED2] ++ str " Shopping";
    [0xD83D; 0xDC8A] ++ str " Healthcare";
    [0xD83D; 0xDCDA] ++ str " Education";
    [0xD83D; 0xDCBC] ++ str " Work";
    [0x2708; 0xFE0F] ++ str " Travel";
    [0xD83D; 0xDCF1] ++ str " Bills";
    [0xD83C; 0xDF81] ++ str " Gifts";
    [0xD83D; 0xDCB0] ++ str " Other" ].

(** ** The store *)

(** Modelled from the spec: the schema of the three relations is not part
    of [index.ts].  [users] is keyed by the transport's user identity and
    carries a generated [id] and the custom category list (absent until
    first set); [pending_expenses] holds at most one row per user
    identity; [expense] is append-only; both stamp [created_at] on
    insertion.  An [amount] column holds what the request carried, a
    number or [null], and hands the same back. *)
Record UserRow := {
  u_id : N;
  u_custom_categories : option (list jsstring)
}.

Record PendingRow := {
  p_amount : option number;
  p_description : jsstring;
  p_created_at : Z
}.

Record ExpenseRow := {
  e_user_id : N;
  e_amount : option number;
  e_description : jsstring;
  e_category : option jsstring;
  e_created_at : Z
}.

Record Store := {
  users : gmap string UserRow;
  users_seq : N;
  expense : list ExpenseRow;
  pending_expenses : gmap string PendingRow
}.

(** The three shapes of [select] on [expense]: rows of one user, optionally
    from a time on, optionally the [limit] most recent ones. *)
Record ExpenseQuery := {
  q_user_id : N;
  q_gte_created_at : option Z;
  q_recent_limit : option nat
}.

(** [user?.custom_categories || []] *)
Definition custom_of_user (user : option UserRow) : list jsstring :=
  match user with
  | Some row => default [] (u_custom_categories row)
  | None => []
  end.

(** The custom categories the store holds for a user identity. *)
Definition custom_categories (st : Store) (u : string) : list jsstring :=
  custom_of_user (users st !! u).

Definition getPending (st : Store) (u : string) : option PendingRow :=
  pending_expenses st !! u.

(** [upsert({telegram_user_id}, {onConflict, ignoreDuplicates: false})
    .select().single()]: the row of the user, created when absent. *)
Definition db_upsert_user (u : string) (st : Store) : Store * UserRow :=
  match users st !! u with
  | Some row => (st, row)
  | None =>
      let row := {| u_id := users_seq st; u_custom_categories := None |} in
      ({| users := <[u := row]> (users st);
          users_seq := users_seq st + 1;
          expense := expense st;
          pending_expenses := pending_expenses st |}, row)
  end.

(** [update({custom_categories}).eq("telegram_user_id", u)] *)
Definition db_update_custom (u : string) (cats : list jsstring) (st : Store) : Store :=
  {| users := alter (λ row, {| u_id := u_id row;
                               u_custom_categories := Some cats |}) u (users st);
     users_seq := users_seq st;
     expense := expense st;
     pending_expenses := pending_expenses st |}.

(** [upsert({telegram_user_id, amount, description})]: columns outside the
    payload keep their value when the row exists. *)
Definition db_upsert_pending (clock : Z) (u : string) (amount : option number)
    (description : jsstring) (st : Store) : Store :=
  let stamp := match pending_expenses st !! u with
               | Some old => p_created_at old
               | None => clock
               end in
  {| users := users st;
     users_seq := users_seq st;
     expense := expense st;
     pending_expenses :=
       <[u := {| p_amount := amount; p_description := description;
                 p_created_at := stamp |}]> (pending_expenses st) |}.

(** [delete().eq("telegram_user_id", u)] *)
Definition db_delete_pending (u : string) (st : Store) : Store :=
  {| users := users st;
     users_seq := users_seq st;
     expense := expense st;
     pending_expenses := delete u (pending_expenses st) |}.

(** [delete().lt("created_at", threshold)] *)
Definition db_delete_pending_before (threshold : Z) (st : Store) : Store :=
  {| users := users st;
     users_seq := users_seq st;
     expense := expense st;
     pending_expenses :=
       filter (λ kv, ¬ (p_created_at kv.2 < threshold)%Z) (pending_expenses st) |}.

(** The payload of [insert] into [expense]. *)
Record NewExpense := {
  n_user_id : N;
  n_amount : option number;
  n_description : jsstring;
  n_category : option jsstring
}.

Definition db_insert_expense (clock : Z) (e : NewExpense) (st : Store) : Store :=
  {| users := users st;
     users_seq := users_seq st;
     expense := expense st ++
       [ {| e_user_id := n_user_id e; e_amount := n_amount e;
            e_description := n_description e; e_category := n_category e;
            e_created_at := clock |} ];
     pending_expenses := pending_expenses st |}.

Definition query_matches (q : ExpenseQuery) (e : ExpenseRow) : bool :=
  (e_user_id e =? q_user_id q)
  && match q_gte_created_at q with
     | Some t => (t <=? e_created_at e)%Z
     | None => true
     end.

Definition newer_first (a b : ExpenseRow) : Prop :=
  (e_created_at b ≤ e_created_at a)%Z.

#[global] Instance newer_first_dec a b : Decision (newer_first a b) :=
  decide (e_created_at b ≤ e_created_at a)%Z.

Definition db_select_expense (q : ExpenseQuery) (st : Store) : list ExpenseRow :=
  let rows := List.filter (query_matches q) (expense st) in
  match q_recent_limit q with
  | Some n => take n (merge_sort newer_first rows)
  | None => rows
  end.

(** ** Store operations as requests

    A handler talks to the store through requests that either succeed or
    fail as a whole.  A failed request leaves the store as it was and
    answers with [data: null] (here [None]) or with an [error] (here
    [true]). *)

Inductive Op : Type → Type :=
| UpsertUser (u : string) : Op (option UserRow)
| UpdateCustom (u : string) (cats : list jsstring) : Op bool
| SelectPending (u : string) : Op (option PendingRow)
| UpsertPending (u : string) (amount : option number) (description : jsstring) : Op unit
| DeletePending (u : string) : Op unit
| DeletePendingBefore (threshold : Z) : Op unit
| InsertExpense (e : NewExpense) : Op bool
| SelectExpense (q : ExpenseQuery) : Op (option (list ExpenseRow)).

Definition exec (clock : Z) (ok : bool) {R} (op : Op R) (st : Store) : Store * R :=
  match op in Op R return Store * R with
  | UpsertUser u =>
      if ok then let '(st', row) := db_upsert_user u st in (st', Some row)
      else (st, None)
  | UpdateCustom u cats =>
      if ok then (db_update_custom u cats st, false) else (st, true)
  | SelectPending u =>
      if ok then (st, pending_expenses st !! u) else (st, None)
  | UpsertPending u amount description =>
      if ok then (db_upsert_pending clock u amount description st, tt)
      else (st, tt)
  | DeletePending u =>
      if ok then (db_delete_pending u st, tt) else (st, tt)
  | DeletePendingBefore threshold =>
      if ok then (db_delete_pending_before threshold st, tt) else (st, tt)
  | InsertExpense e =>
      if ok then (db_insert_expense clock e st, false) else (st, true)
  | SelectExpense q =>
      if ok then (st, Some (db_select_expense q st)) else (st, None)
  end.

(** Requests on [pending_expenses]. *)
Definition on_pending {R} (op : Op R) : bool :=
  match op with
  | SelectPending _ | UpsertPending _ _ _ | DeletePending _
  | DeletePendingBefore _ => true
  | _ => false
  end.

(** ** What the bot sends

    A message is named by the literal or template of the source that
    produces it and carries the values interpolated into it:
    - [Welcome], the text of [/start]; [NotUnderstood], the format hint;
    - [NoExpensesYet], [NoExpensesToday], [NoExpensesThisMonth],
      [NoExpensesRecorded], the empty reports, and [RecentExpenses],
      [TodaysExpenses], [MonthlySummary], [ExpensesByCategory], the
      reports over the selected rows (their layout is not modelled);
    - [AddUsage], [CategoryAlreadyExists], [AddFailed], [CategoryAdded];
    - [NoCustomCategories], [SelectToRemove], [InvalidCategory],
      [RemoveFailed], [CategoryRemoved], [Cancelled];
    - [SelectCategory], the prompt above the category keyboard;
    - [SessionExpired], [SaveFailed], [ExpenseSaved], the three outcomes
      of a selection. *)

Inductive Message :=
| Welcome
| NoExpensesYet
| RecentExpenses (rows : list ExpenseRow)
| NoExpensesToday
| TodaysExpenses (rows : list ExpenseRow)
| NoExpensesThisMonth
| MonthlySummary (rows : list ExpenseRow)
| NoExpensesRecorded
| ExpensesByCategory (rows : list ExpenseRow)
| AddUsage
| CategoryAlreadyExists
| AddFailed
| CategoryAdded (label : jsstring)
| NoCustomCategories
| SelectToRemove
| NotUnderstood
| SelectCategory (amount : number) (description : jsstring)
| SessionExpired
| SaveFailed
| ExpenseSaved (amount : option number) (description : jsstring)
    (category : option jsstring)
| InvalidCategory
| RemoveFailed
| CategoryRemoved (label : option jsstring)
| Cancelled.

(** A button: its text and its callback data. *)
Definition Button : Type := jsstring * jsstring.

Inductive Action :=
| Reply (m : Message)
| ReplyWithKeyboard (m : Message) (rows : list (list Button))
| EditMessageText (m : Message)
| AnswerCallbackQuery (m : option Message).

(** ** Handlers as programs *)

Inductive Prog :=
| Return
| Throw
| Send (a : Action) (k : Prog)
| Call {R} (op : Op R) (k : R → Prog).

(** Decimal digits of an index, as template literals print it. *)
Definition show (i : nat) : jsstring := str (pretty i).

Definition getOrCreateUser (telegramUserId : string)
    (k : option UserRow → Prog) : Prog :=
  Call (UpsertUser telegramUserId) k.

Definition getUserCategories (telegramUserId : string)
    (k : list jsstring → Prog) : Prog :=
  getOrCreateUser telegramUserId (λ user,
    let customCategories := custom_of_user user in
    k (DEFAULT_CATEGORIES ++ customCategories)).

(** The rows of the keyboard that the loop of [createCategoryKeyboard]
    builds, [i] the index of the head of [categories].  An
    [InlineKeyboard] starts with one open row; [text] adds a button to the
    open row and [row] closes it and opens the next.  The loop calls [row]
    after a pair of buttons and not after a single last one, so when the
    categories run out after a pair (or there is none) the open row stays
    in the keyboard, empty. *)
Fixpoint category_rows (i : nat) (categories : list jsstring) : list (list Button) :=
  match categories with
  | a :: b :: rest =>
      [ (a, str "cat_" ++ show i); (b, str "cat_" ++ show (i + 1)) ]
        :: category_rows (i + 2) rest
  | [a] => [ [ (a, str "cat_" ++ show i) ] ]
  | [] => [ [] ]
  end.

Definition createCategoryKeyboard (telegramUserId : string)
    (k : list (list Button) → Prog) : Prog :=
  getUserCategories telegramUserId (λ categories, k (category_rows 0 categories)).

(** What a handler reads from [Date]. *)
Record Dates := {
  date_now : Z;
  date_start_of_day : Z;
  date_start_of_month : Z
}.

Definition reply_rows (none : Message) (some : list ExpenseRow → Message)
    (data : option (list ExpenseRow)) : Prog :=
  match data with
  | None | Some [] => Send (Reply none) Return
  | Some rows => Send (Reply (some rows)) Return
  end.

(** [user.id] on the row a handler did not get is a [TypeError]. *)
Definition select_for (user : option UserRow) (since : option Z)
    (limit : option nat) (k : option (list ExpenseRow) → Prog) : Prog :=
  match user with
  | None => Throw
  | Some row =>
      Call (SelectExpense {| q_user_id := u_id row; q_gte_created_at := since;
                             q_recent_limit := limit |}) k
  end.

Definition cmd_start : Prog := Send (Reply Welcome) Return.

Definition cmd_expenses (from : option string) : Prog :=
  match from with
  | None => Return
  | Some telegramUserId =>
      getOrCreateUser telegramUserId (λ user,
        select_for user None (Some 20%nat)
          (reply_rows NoExpensesYet RecentExpenses))
  end.

Definition cmd_day (d : Dates) (from : option string) : Prog :=
  match from with
  | None => Return
  | Some telegramUserId =>
      getOrCreateUser telegramUserId (λ user,
        select_for user (Some (date_start_of_day d)) None
          (reply_rows NoExpensesToday TodaysExpenses))
  end.

Definition cmd_month (d : Dates) (from : option string) : Prog :=
  match from with
  | None => Return
  | Some telegramUserId =>
      getOrCreateUser telegramUserId (λ user,
        select_for user (Some (date_start_of_month d)) None
          (reply_rows NoExpensesThisMonth MonthlySummary))
  end.

Definition cmd_categories (from : option string) : Prog :=
  match from with
  | None => Return
  | Some telegramUserId =>
      getOrCreateUser telegramUserId (λ user,
        select_for user None None
          (reply_rows NoExpensesRecorded ExpensesByCategory))
  end.

(** [text.split(/\s+/).slice(1).join(" ").trim()] *)
Definition add_args (text : jsstring) : jsstring :=
  trim (join_space (drop 1 (split_ws text))).

Definition cmd_add (from : option string) (text : jsstring) : Prog :=
  match from with
  | None => Return
  | Some telegramUserId =>
      let args := add_args text in
      match args with
      | [] => Send (Reply AddUsage) Return
      | _ :: _ =>
          let categoryText := args in
          getOrCreateUser telegramUserId (λ user,
            let currentCustom := custom_of_user user in
            getUserCategories telegramUserId (λ allCategories,
              if bool_decide (categoryText ∈ allCategories)
              then Send (Reply CategoryAlreadyExists) Return
              else
                let updatedCustom := currentCustom ++ [categoryText] in
                Call (UpdateCustom telegramUserId updatedCustom) (λ error,
                  if error then Send (Reply AddFailed) Return
                  else Send (Reply (CategoryAdded categoryText)) Return)))
      end
  end.

(** The rows of the removal keyboard, [index] the position of the head. *)
Fixpoint remove_rows (index : nat) (customCategories : list jsstring)
    : list (list Button) :=
  match customCategories with
  | cat :: rest => [ (cat, str "remove_" ++ show index) ] :: remove_rows (S index) rest
  | [] => [ [ (0x274C :: str " Cancel", str "cancel_remove") ] ]
  end.

Definition cmd_remove (from : option string) : Prog :=
  match from with
  | None => Return
  | Some telegramUserId =>
      getOrCreateUser telegramUserId (λ user,
        let customCategories := custom_of_user user in
        match customCategories with
        | [] => Send (Reply NoCustomCategories) Return
        | _ :: _ =>
            Send (ReplyWithKeyboard SelectToRemove (remove_rows 0 customCategories))
              Return
        end)
  end.

(** [bot.on("message:text")] *)
Definition on_text (from : option string) (text : jsstring) : Prog :=
  if startsWith (str "/") text then Return
  else
    match parseExpenseInput text with
    | None => Send (Reply NotUnderstood) Return
    | Some (amount, description) =>
        let telegramUserId := default ""%string from in
        Call (UpsertPending telegramUserId (json_number amount) description) (λ _,
          createCategoryKeyboard telegramUserId (λ keyboard,
            Send (ReplyWithKeyboard (SelectCategory amount description) keyboard)
              Return))
    end.

Definition HOUR : Z := 60 * 60 * 1000.

(** The [cat_] branch of the callback handler.  The requests gathered by
    one [Promise.all] are issued in the order of its array. *)
Definition on_category (d : Dates) (from : option string) (data : jsstring) : Prog :=
  let categoryIndex := payload_index data in
  let telegramUserId := default ""%string from in
  getOrCreateUser telegramUserId (λ user,
    Call (SelectPending telegramUserId) (λ pending,
      match pending with
      | None => Send (AnswerCallbackQuery (Some SessionExpired)) Return
      | Some pending =>
          getUserCategories telegramUserId (λ categories,
            let category := js_index categories categoryIndex in
            match user with
            | None => Throw
            | Some user =>
                Call (InsertExpense {| n_user_id := u_id user;
                                       n_amount := p_amount pending;
                                       n_description := p_description pending;
                                       n_category := category |}) (λ error,
                  Call (DeletePending telegramUserId) (λ _,
                    Call (DeletePendingBefore (date_now d - HOUR)) (λ _,
                      Send (EditMessageText
                              (if error then SaveFailed
                               else ExpenseSaved (p_amount pending)
                                      (p_description pending) category))
                        (Send (AnswerCallbackQuery None) Return))))
            end)
      end)).

(** The [remove_] branch. *)
Definition on_remove (from : option string) (data : jsstring) : Prog :=
  let categoryIndex := payload_index data in
  let telegramUserId := default ""%string from in
  getOrCreateUser telegramUserId (λ user,
    let customCategories := custom_of_user user in
    if index_ge_length categoryIndex (length customCategories)
    then Send (AnswerCallbackQuery (Some InvalidCategory)) Return
    else
      let categoryToRemove := js_index customCategories categoryIndex in
      let updatedCustom := filter_not_index categoryIndex 0 customCategories in
      Call (UpdateCustom telegramUserId updatedCustom) (λ error,
        Send (EditMessageText
                (if error then RemoveFailed else CategoryRemoved categoryToRemove))
          (Send (AnswerCallbackQuery None) Return))).

(** [bot.on("callback_query:data")] *)
Definition on_callback (d : Dates) (from : option string) (data : jsstring) : Prog :=
  if startsWith (str "cat_") data then on_category d from data
  else if startsWith (str "remove_") data then on_remove from data
  else if bool_decide (data = str "cancel_remove")
  then Send (EditMessageText Cancelled) (Send (AnswerCallbackQuery None) Return)
  else Return.

(** ** Updates and their dispatch *)

Inductive Command :=
| CmdStart | CmdExpenses | CmdDay | CmdMonth | CmdCategories | CmdAdd | CmdRemove.

Inductive Update :=
| CommandMessage (c : Command) (from : option string) (text : jsstring)
| TextMessage (from : option string) (text : jsstring)
| CallbackQuery (from : option string) (data : jsstring).

Definition handle (d : Dates) (upd : Update) : Prog :=
  match upd with
  | CommandMessage CmdStart _ _ => cmd_start
  | CommandMessage CmdExpenses from _ => cmd_expenses from
  | CommandMessage CmdDay from _ => cmd_day d from
  | CommandMessage CmdMonth from _ => cmd_month d from
  | CommandMessage CmdCategories from _ => cmd_categories from
  | CommandMessage CmdAdd from text => cmd_add from text
  | CommandMessage CmdRemove from _ => cmd_remove from
  | TextMessage from text => on_text from text
  | CallbackQuery from data => on_callback d from data
  end.

(** ** Running one handler to its end

    [faults] tells, request by request in the order they are issued,
    whether the request succeeds; requests beyond the list succeed.
    [clock] is the store's time. *)

Record Result := {
  final : Store;
  sent : list Action;
  threw : bool
}.

Fixpoint run (clock : Z) (p : Prog) (faults : list bool) (st : Store) : Result :=
  match p with
  | Return => {| final := st; sent := []; threw := false |}
  | Throw => {| final := st; sent := []; threw := true |}
  | Send a k =>
      let r := run clock k faults st in
      {| final := final r; sent := a :: sent r; threw := threw r |}
  | Call op k =>
      let '(st', x) := exec clock (hd true faults) op st in
      run clock (k x) (tl faults) st'
  end.

(** ** Interleaved handlers

    A handler is suspended at each request and at each send; between two
    suspensions of one handler the others may advance.  Requests succeed
    here. *)

Definition step (clock : Z) (p : Prog) (st : Store) : option (Prog * Store * list Action) :=
  match p with
  | Return | Throw => None
  | Send a k => Some (k, st, [a])
  | Call op k => let '(st', x) := exec clock true op st in Some (k x, st', [])
  end.

Record Config := {
  threads : list Prog;
  store : Store;
  log : list (nat * Action)
}.

(** Handler [i] advances by one step, if it has one left. *)
Definition advance (clock : Z) (c : Config) (i : nat) : Config :=
  match threads c !! i with
  | None => c
  | Some p =>
      match step clock p (store c) with
      | None => c
      | Some (p', st', out) =>
          {| threads := <[i := p']> (threads c);
             store := st';
             log := log c ++ map (pair i) out |}
      end
  end.

Definition schedule (clock : Z) (order : list nat) (c : Config) : Config :=
  fold_left (advance clock) order c.

Definition finished (p : Prog) : bool :=
  match p with
  | Return | Throw => true
  | _ => false
  end.

Definition all_finished (c : Config) : bool := forallb finished (threads c).

(** What handler [i] sent, in order. *)
Definition sent_by (i : nat) (c : Config) : list Action :=
  map snd (List.filter (λ ia, Nat.eqb ia.1 i) (log c)).

(** ** The grammar of the parser, stated on texts *)

Definition all_of (p : N → bool) (s : jsstring) : Prop :=
  Forall (λ c, p c = true) s.

(** The head of [s], if any, is outside the class [p]. *)
Definition stops (p : N → bool) (s : jsstring) : Prop :=
  match s with
  | [] => True
  | c :: _ => p c = false
  end.

(** The text of an optional fraction with digits [fd]. *)
Definition fraction (fd : jsstring) : jsstring :=
  match fd with
  | [] => []
  | _ :: _ => 46 :: fd
  end.

(** Hundredths denoted by the integer digits [ip] and fraction digits [fd]. *)
Definition numeral_value (ip fd : jsstring) : N :=
  100 * digits_val ip +
  match fd with
  | [d1] => 10 * digit_val d1
  | [d1; d2] => 10 * digit_val d1 + digit_val d2
  | _ => 0
  end.

(** [text] is a numeral, white space and a remainder. *)
Definition decomposes (text ip fd ws rest : jsstring) : Prop :=
  text = ip ++ fraction fd ++ ws ++ rest
  ∧ ip ≠ [] ∧ all_of is_digit ip
  ∧ (length fd ≤ 2)%nat ∧ all_of is_digit fd
  ∧ ws ≠ [] ∧ all_of is_white_space ws.

(** The number [x] is exactly [h] hundredths. *)
Definition is_hundredths (x : number) (h : N) : Prop :=
  match x with
  | S754_zero _ => h = 0
  | S754_finite false m e =>
      if (0 <=? e)%Z then (100 * Z.pos m * 2 ^ e = Z.of_N h)%Z
      else (100 * Z.pos m = Z.of_N h * 2 ^ (- e))%Z
  | _ => False
  end.

(** The grammar in the words of the specification: a positive decimal
    number with at most two fraction digits, white space, and a remainder
    whose trimmed form is not empty; the amount is exactly that number. *)
Definition spec_grammar (text : jsstring) (amount : number)
    (description : jsstring) : Prop :=
  ∃ ip fd ws rest,
    decomposes text ip fd ws rest
    ∧ trim rest ≠ []
    ∧ 0 < numeral_value ip fd
    ∧ is_hundredths amount (numeral_value ip fd)
    ∧ description = trim rest.

(** The grammar of the source: the remainder holds no line terminator,
    and the amount is the Number value of the numeral. *)
Definition line_grammar (text : jsstring) (amount : number)
    (description : jsstring) : Prop :=
  ∃ ip fd ws rest,
    decomposes text ip fd ws rest
    ∧ all_of is_dot rest
    ∧ trim rest ≠ []
    ∧ 0 < numeral_value ip fd
    ∧ amount = number_of_hundredths (numeral_value ip fd)
    ∧ description = trim rest.


(** One step of reading a decimal numeral from the left. *)
Definition decimal_step (acc c : N) : N := 10 * acc + digit_val c.


(** ** Programs that stay away from a relation *)

(** [p] issues no request on [pending_expenses]. *)
Inductive avoids_pending : Prog → Prop :=
| avoids_pending_return : avoids_pending Return
| avoids_pending_throw : avoids_pending Throw
| avoids_pending_send a k : avoids_pending k → avoids_pending (Send a k)
| avoids_pending_call {R} (op : Op R) k :
    on_pending op = false → (∀ x, avoids_pending (k x)) →
    avoids_pending (Call op k).

Definition on_custom {R} (op : Op R) : bool :=
  match op with
  | UpdateCustom _ _ => true
  | _ => false
  end.

(** [p] issues no update of [custom_categories]. *)
Inductive avoids_custom : Prog → Prop :=
| avoids_custom_return : avoids_custom Return
| avoids_custom_throw : avoids_custom Throw
| avoids_custom_send a k : avoids_custom k → avoids_custom (Send a k)
| avoids_custom_call {R} (op : Op R) k :
    on_custom op = false → (∀ x, avoids_custom (k x)) →
    avoids_custom (Call op k).

(** The updates of the category add and remove flows that can write
    [custom_categories]: the [/add] command and a [remove_] button. *)
Definition changes_categories (upd : Update) : bool :=
  match upd with
  | CommandMessage CmdAdd _ _ => true
  | CallbackQuery _ data =>
      negb (startsWith (str "cat_") data) && startsWith (str "remove_") data
  | _ => false
  end.

(** Two stores that differ at most in [pending_expenses]. *)
Definition same_but_pending (st st' : Store) : Prop :=
  users st = users st' ∧ users_seq st = users_seq st' ∧ expense st = expense st'.

(** The effective category list the store holds for a user. *)
Definition effective_categories (st : Store) (u : string) : list jsstring :=
  DEFAULT_CATEGORIES ++ custom_categories st u.

(** The store after the three requests of the commit step, each applied
    when it succeeds. *)
Definition commit_requests (clock : Z) (d : Dates) (u : string)
    (e : NewExpense) (ok4 ok5 ok6 : bool) (st : Store) : Store :=
  let st4 := if ok4 then db_insert_expense clock e st else st in
  let st5 := if ok5 then db_delete_pending u st4 else st4 in
  if ok6 then db_delete_pending_before (date_now d - HOUR) st5 else st5.

(** Two selections of one user, waiting to be handled. *)
Definition two_selections (d : Dates) (u : string) (data1 data2 : jsstring)
    (st : Store) : Config :=
  {| threads := [ handle d (CallbackQuery (Some u) data1);
                  handle d (CallbackQuery (Some u) data2) ];
     store := st;
     log := [] |}.

(** At most one commit, in the words of the specification: however the
    two handlers interleave, once both are done exactly one expense has
    been appended. *)
Definition at_most_one_commit (clock : Z) (d : Dates) (u : string)
    (data1 data2 : jsstring) (st : Store) : Prop :=
  ∀ order,
    let c := schedule clock order (two_selections d u data1 data2 st) in
    all_finished c = true →
    length (expense (store c)) = S (length (expense st)).

(** The text after the command word. *)
Fixpoint after_command (text : jsstring) : jsstring :=
  match text with
  | c :: rest => if is_white_space c then text else after_command rest
  | [] => []
  end.

(** The contract of [addCategory] in the words of the specification, the
    label being the trimmed text after the command: a label found in the
    effective list is refused and the custom list is left as it is; any
    other label is appended. *)
Definition add_category_contract (d : Dates) (clock : Z) (u : string)
    (text : jsstring) (st : Store) : Prop :=
  let label := trim (after_command text) in
  let r := run clock (handle d (CommandMessage CmdAdd (Some u) text)) [] st in
  (label ∈ effective_categories st u →
     sent r = [Reply CategoryAlreadyExists]
     ∧ custom_categories (final r) u = custom_categories st u)
  ∧ (label ∉ effective_categories st u →
     custom_categories (final r) u = custom_categories st u ++ [label]).

(** ** A sample store

    User 42 has three custom categories and a pending expense entered at
    time 1000; user 7 has a pending expense entered at time 5. *)

Definition sample_pending : PendingRow :=
  {| p_amount := Some (number_of_hundredths 5000);
     p_description := str "lunch"; p_created_at := 1000 |}.

Definition sample_store : Store :=
  {| users := {[ "42"%string :=
                   {| u_id := 1;
                      u_custom_categories := Some [str "A"; str "B"; str "C"] |} ]};
     users_seq := 2;
     expense := [];
     pending_expenses :=
       {[ "42"%string := sample_pending;
          "7"%string := {| p_amount := Some (number_of_hundredths 100);
                           p_description := str "tea";
                           p_created_at := 5 |} ]} |}.

Definition sample_dates : Dates :=
  {| date_now := 3600500; date_start_of_day := 0; date_start_of_month := 0 |}.

(** ** Further notions used to state what the handlers keep *)

Definition on_expense {R} (op : Op R) : bool :=
  match op with
  | InsertExpense _ => true
  | _ => false
  end.

(** [p] issues at most [n] inserts into [expense], whatever the store
    answers. *)
Inductive inserts_at_most : nat → Prog → Prop :=
| inserts_return n : inserts_at_most n Return
| inserts_throw n : inserts_at_most n Throw
| inserts_send n a k : inserts_at_most n k → inserts_at_most n (Send a k)
| inserts_other n {R} (op : Op R) k :
    on_expense op = false → (∀ x, inserts_at_most n (k x)) →
    inserts_at_most n (Call op k)
| inserts_one n e k :
    (∀ x, inserts_at_most n (k x)) →
    inserts_at_most (S n) (Call (InsertExpense e) k).

(** A selection of a category. *)
Definition is_selection (upd : Update) : bool :=
  match upd with
  | CallbackQuery _ data => startsWith (str "cat_") data
  | _ => false
  end.

(** Generated ids are below the sequence and no two users share one. *)
Definition user_ids_ok (st : Store) : Prop :=
  (∀ u row, users st !! u = Some row → u_id row < users_seq st)
  ∧ (∀ u v ru rv, users st !! u = Some ru → users st !! v = Some rv →
                  u_id ru = u_id rv → u = v).

(** The generated id of a user the store knows. *)
Definition user_id (st : Store) (u : string) : option N :=
  u_id <$> users st !! u.

(** The ledger rows of the user with the given id, from a time on. *)
Definition ledger_of (st : Store) (uid : N) (since : option Z) : list ExpenseRow :=
  List.filter (query_matches {| q_user_id := uid; q_gte_created_at := since;
                               q_recent_limit := None |}) (expense st).

(** The sender of an update, as the handlers key the store. *)
Definition sender (upd : Update) : string :=
  match upd with
  | CommandMessage _ from _ | TextMessage from _ | CallbackQuery from _ =>
      default ""%string from
  end.

(** The ledger rows a message shows. *)
Definition report_rows (a : Action) : list ExpenseRow :=
  match a with
  | Reply (RecentExpenses rows) | Reply (TodaysExpenses rows)
  | Reply (MonthlySummary rows) | Reply (ExpensesByCategory rows) => rows
  | _ => []
  end.

(** The body shared by the four reporting commands. *)
Definition report (u : string) (since : option Z) (limit : option nat)
    (none : Message) (some : list ExpenseRow → Message) : Prog :=
  getOrCreateUser u (λ user, select_for user since limit (reply_rows none some)).

(** Every request [p] can issue passes [ops], every message it can send
    passes [acts], and it can throw only if [may_throw]. *)
Inductive respects (ops : ∀ R, Op R → bool) (acts : Action → bool)
    (may_throw : bool) : Prog → Prop :=
| respects_return : respects ops acts may_throw Return
| respects_throw : may_throw = true → respects ops acts may_throw Throw
| respects_send a k :
    acts a = true → respects ops acts may_throw k →
    respects ops acts may_throw (Send a k)
| respects_call {R} (op : Op R) k :
    ops R op = true → (∀ x, respects ops acts may_throw (k x)) →
    respects ops acts may_throw (Call op k).

Definition any_op (R : Type) (op : Op R) : bool := true.

Definition any_action (a : Action) : bool := true.

Definition shows_no_rows (a : Action) : bool :=
  match report_rows a with
  | [] => true
  | _ :: _ => false
  end.

(** A reporting command of a known sender. *)
Definition is_report (upd : Update) : bool :=
  match upd with
  | CommandMessage (CmdExpenses | CmdDay | CmdMonth | CmdCategories) (Some _) _ => true
  | _ => false
  end.

(** Requests that leave alone the pending rows of users other than [u]
    that were created at or after [threshold]. *)
Definition spares (u : string) (threshold : Z) (R : Type) (op : Op R) : bool :=
  match op with
  | UpsertPending u' _ _ | DeletePending u' => bool_decide (u' = u)
  | DeletePendingBefore t => bool_decide (t ≤ threshold)%Z
  | _ => true
  end.

(** The words after the command: the parts of the text between runs of
    white space, the first part left out. *)
Definition words_after_command (text : jsstring) : list jsstring :=
  filter (λ part, part ≠ []) (drop 1 (split_ws text)).

Definition is_word_unit (c : N) : bool := negb (is_white_space c).

(** A word: not empty and free of white space. *)
Definition is_word (w : jsstring) : Prop := w ≠ [] ∧ all_of is_word_unit w.

(** ** A sample ledger

    The sample store after user 7 got a row, with id 2, and a lunch of
    user 42 and a tea of user 7 were written. *)
Definition sample_ledger : Store :=
  db_insert_expense 6
    {| n_user_id := 2; n_amount := Some (number_of_hundredths 300);
       n_description := str "tea"; n_category := None |}
    (db_insert_expense 5
       {| n_user_id := 1; n_amount := Some (number_of_hundredths 5000);
          n_description := str "lunch"; n_category := None |}
       (db_upsert_user "7" sample_store).1).


(** ** A selection, step by step *)

(** Answers of the store to the requests of a handler: the user row and
    the pending row are the given ones, every write succeeds. *)
Definition selection_answers (user : UserRow) (pending : option PendingRow)
    {R} (op : Op R) : R :=
  match op in Op R return R with
  | UpsertUser _ => Some user
  | UpdateCustom _ _ => false
  | SelectPending _ => pending
  | UpsertPending _ _ _ => tt
  | DeletePending _ => tt
  | DeletePendingBefore _ => tt
  | InsertExpense _ => false
  | SelectExpense _ => None
  end.

(** What is left of a program after its first step, the request, if it
    is one, answered by [answer]. *)
Definition follow (answer : ∀ R, Op R → R) (p : Prog) : Prog :=
  match p with
  | Send _ k => k
  | Call op k => k (answer _ op)
  | Return | Throw => p
  end.

(** What is left of the handler of a selection after [k] of its steps.
    In the [cat_] branch the steps are, in order: the fetch of the user
    row, the read of the pending row, and when a row was read the second
    fetch of the user row, the append to the ledger, the delete of the
    pending row, the sweep and the two sends. *)
Definition selection_stage (d : Dates) (u : string) (data : jsstring)
    (user : UserRow) (pending : option PendingRow) (k : nat) : Prog :=
  Nat.iter k (follow (@selection_answers user pending))
    (on_category d (Some u) data).

(** The read of the pending row is the second step of the handler and
    the delete of the row its fifth. *)
Definition READ : nat := 2.
Definition DELETE : nat := 5.

(** The steps handler [i] is given by a schedule. *)
Definition steps_of (i : nat) (order : list nat) : nat :=
  length (List.filter (Nat.eqb i) order).

(** At some moment of the schedule both handlers have read the pending
    row and neither has deleted it. *)
Definition both_read_before_delete (order : list nat) : Prop :=
  ∃ before after,
    order = before ++ after
    ∧ (READ ≤ steps_of 0 before < DELETE)%nat
    ∧ (READ ≤ steps_of 1 before < DELETE)%nat.

(** At some moment of the schedule handler [i] has deleted the pending
    row and handler [j] has not read it yet. *)
Definition deleted_before_read (i j : nat) (order : list nat) : Prop :=
  ∃ before after,
    order = before ++ after
    ∧ (DELETE ≤ steps_of i before)%nat
    ∧ (steps_of j before < READ)%nat.

(** The store after [k] steps of a selection that found the pending row
    and is handled alone; [e] is the expense it appends. *)
Definition selection_store (clock : Z) (d : Dates) (u : string) (e : NewExpense)
    (st : Store) (k : nat) : Store :=
  let st1 := (db_upsert_user u st).1 in
  match k with
  | 0%nat => st
  | 1%nat | 2%nat | 3%nat => st1
  | 4%nat => db_insert_expense clock e st1
  | 5%nat => db_delete_pending u (db_insert_expense clock e st1)
  | _ => commit_requests clock d u e true true true st1
  end.

(** One selection, waiting to be handled. *)
Definition one_selection (d : Dates) (u : string) (data : jsstring)
    (st : Store) : Config :=
  {| threads := [ handle d (CallbackQuery (Some u) data) ];
     store := st;
     log := [] |}.

(** The sweep as a background task, in the words of the specification:
    once the expense is in the ledger and the pending row of the user is
    deleted, the user has the confirmation, whether or not the sweep has
    been answered. *)
Definition sweep_in_background (clock : Z) (d : Dates) (u : string)
    (data : jsstring) (st : Store) : Prop :=
  ∀ n,
    let c := schedule clock (replicate n 0%nat) (one_selection d u data st) in
    length (expense (store c)) = S (length (expense st)) →
    getPending (store c) u = None →
    sent_by 0 c ≠ [].

(** How far one of two selections has come: the steps it has taken and
    whether its read found the pending row. *)
Record Progress := {
  taken : nat;
  found : bool
}.

(** The pending row is deleted once a handler that found it has taken
    its fifth step. *)
Definition has_deleted (x : Progress) : bool := found x && (DELETE <=? taken x)%nat.

Definition deleted (a : nat → Progress) : bool :=
  has_deleted (a 0%nat) || has_deleted (a 1%nat).

(** Handler [i] of two takes a step. *)
Definition progress (a : nat → Progress) (i : nat) : nat → Progress :=
  λ j,
    if (j =? i)%nat && (i <? 2)%nat then
      {| taken := S (taken (a i));
         found := if (taken (a i) =? 1)%nat then negb (deleted a)
                  else found (a i) |}
    else a j.

Definition not_started : nat → Progress := λ _, {| taken := 0; found := true |}.

(** What a handler has appended and sent by the time it has come so
    far. *)
Definition appended (x : Progress) : nat :=
  if found x && (4 <=? taken x)%nat then 1%nat else 0%nat.

Definition saved (row : PendingRow) (categories : list jsstring)
    (data : jsstring) : Message :=
  ExpenseSaved (p_amount row) (p_description row)
    (js_index categories (payload_index data)).

Definition sent_so_far (row : PendingRow) (categories : list jsstring)
    (data : jsstring) (x : Progress) : list Action :=
  if found x then
    (if (7 <=? taken x)%nat
     then [EditMessageText (saved row categories data)] else [])
    ++ (if (8 <=? taken x)%nat then [AnswerCallbackQuery None] else [])
  else
    if (3 <=? taken x)%nat then [AnswerCallbackQuery (Some SessionExpired)]
    else [].

(** What holds of two selections of one user at any moment of any
    schedule, [a] telling how far each has come: each handler is at the
    stage its progress tells, the user row is the one the first fetch
    produced, the pending row is there until a handler deletes it, and
    the ledger and the messages are what the handlers have appended and
    sent so far. *)
Definition selections_invariant (d : Dates) (u : string) (data1 data2 : jsstring)
    (st : Store) (row : PendingRow) (a : nat → Progress) (c : Config) : Prop :=
  let urow := (db_upsert_user u st).2 in
  let stage := λ data x,
    selection_stage d u data urow (if found x then Some row else None) (taken x) in
  let categories := DEFAULT_CATEGORIES ++ custom_of_user (Some urow) in
  threads c = [ stage data1 (a 0%nat); stage data2 (a 1%nat) ]
  ∧ (db_upsert_user u (store c)).2 = urow
  ∧ pending_expenses (store c) !! u = (if deleted a then None else Some row)
  ∧ length (expense (store c))
    = (length (expense st) + appended (a 0%nat) + appended (a 1%nat))%nat
  ∧ sent_by 0 c = sent_so_far row categories data1 (a 0%nat)
  ∧ sent_by 1 c = sent_so_far row categories data2 (a 1%nat).

(** A handler that did not find the row has read it after the other one
    deleted it. *)
Definition found_or_late (a : nat → Progress) : Prop :=
  ∀ i j, (i + j = 1)%nat → found (a j) = false →
         (2 ≤ taken (a j))%nat ∧ has_deleted (a i) = true.
(** * Properties *)

(** ** Numbers *)

Lemma digits2_pos_log2 p : Zpos (digits2_pos p) = Z.succ (Z.log2 (Zpos p)).
Proof.
  assert (digits2_pos p = Pos.size p) as ->.
  { induction p as [p IH|p IH|]; simpl; by rewrite ?IH. }
  destruct p as [p|p|]; [| |done]; cbn [Pos.size Z.log2];
    rewrite Pos2Z.inj_succ; lia.
Qed.

Lemma digits2_pos_le p : (2 ^ (Zpos (digits2_pos p) - 1) ≤ Zpos p)%Z.
Proof.
  rewrite digits2_pos_log2.
  replace (Z.succ (Z.log2 (Z.pos p)) - 1)%Z with (Z.log2 (Z.pos p)) by lia.
  apply Z.log2_spec. lia.
Qed.

Lemma shr_1_m mrs : (0 ≤ shr_m mrs)%Z → shr_m (shr_1 mrs) = (shr_m mrs / 2)%Z.
Proof.
  destruct mrs as [[|[p|p|]|p] r s]; cbn [shr_1 shr_m]; try done; intros _.
  - rewrite Pos2Z.inj_xI. apply (Z.div_unique _ _ _ 1); lia.
  - rewrite Pos2Z.inj_xO. apply (Z.div_unique _ _ _ 0); lia.
Qed.

Lemma iter_shr_1 p : ∀ mrs,
  (0 ≤ shr_m mrs)%Z →
  shr_m (SpecFloat.iter_pos shr_1 p mrs) = (shr_m mrs / 2 ^ Zpos p)%Z.
Proof.
  induction p as [p IH|p IH|]; intros mrs Hm; cbn [SpecFloat.iter_pos].
  - assert (0 ≤ shr_m (shr_1 mrs))%Z as H1.
    { rewrite shr_1_m by done. by apply Z.div_pos. }
    assert (0 ≤ shr_m (SpecFloat.iter_pos shr_1 p (shr_1 mrs)))%Z as H2.
    { rewrite IH by done. apply Z.div_pos; [done|]. by apply Z.pow_pos_nonneg. }
    rewrite !IH, shr_1_m by done.
    assert (0 < 2 ^ Z.pos p)%Z by (by apply Z.pow_pos_nonneg).
    rewrite !Z.div_div by lia.
    f_equal. rewrite (Pos2Z.inj_xI p).
    replace (2 * Z.pos p + 1)%Z with (Z.succ (2 * Z.pos p)) by lia.
    rewrite Z.pow_succ_r, Z.pow_twice_r by lia. lia.
  - assert (0 ≤ shr_m (SpecFloat.iter_pos shr_1 p mrs))%Z as H2.
    { rewrite IH by done. apply Z.div_pos; [done|]. by apply Z.pow_pos_nonneg. }
    rewrite !IH by done.
    assert (0 < 2 ^ Z.pos p)%Z by (by apply Z.pow_pos_nonneg).
    rewrite Z.div_div by lia.
    f_equal. rewrite (Pos2Z.inj_xO p). symmetry. apply Z.pow_twice_r.
  - by apply shr_1_m.
Qed.

Lemma shr_fexp_positive m e l :
  (0 < m)%Z → (emin 53 1024 ≤ e)%Z →
  (0 < shr_m (shr_fexp 53 1024 m e l).1)%Z
  ∧ (emin 53 1024 ≤ (shr_fexp 53 1024 m e l).2)%Z.
Proof.
  intros Hm He. unfold shr_fexp, shr.
  assert (shr_m (shr_record_of_loc m l) = m) as Hrec by (by destruct l as [|[]]).
  destruct m as [|p|p]; [lia| |lia]. cbn [Zdigits2].
  pose proof (digits2_pos_le p) as Hd.
  set (d := Z.pos (digits2_pos p)) in *.
  destruct (fexp 53 1024 (d + e) - e)%Z as [|n|n] eqn:En; cbn [fst snd];
    rewrite ?Hrec; try done.
  assert (Z.pos n ≤ d - 1)%Z as Hn.
  { unfold fexp in En. unfold emin in *. lia. }
  rewrite iter_shr_1, Hrec by (rewrite Hrec; lia). split; [|lia].
  apply Z.div_str_pos. split; [by apply Z.pow_pos_nonneg|].
  etrans; [|exact Hd]. apply Z.pow_le_mono_r; lia.
Qed.

Lemma round_nearest_even_le m l : (m ≤ round_nearest_even m l)%Z.
Proof. destruct l as [|[]]; cbn; try destruct (Z.even m); lia. Qed.

Lemma binary_round_aux_positive m e l :
  (0 < m)%Z → (emin 53 1024 ≤ e)%Z →
  let x := binary_round_aux 53 1024 false m e l in
  isNaN x = false ∧ le_zero x = false.
Proof.
  intros Hm He. cbv zeta. unfold binary_round_aux.
  destruct (shr_fexp_positive m e l Hm He) as [H1 H2].
  destruct (shr_fexp 53 1024 m e l) as [mrs1 e1]. cbn [fst snd] in H1, H2.
  pose proof (round_nearest_even_le (shr_m mrs1) (loc_of_shr_record mrs1)) as Hr.
  set (m2 := round_nearest_even _ _) in *.
  destruct (shr_fexp_positive m2 e1 loc_Exact) as [H3 _]; [lia|done|].
  destruct (shr_fexp 53 1024 m2 e1 loc_Exact) as [mrs2 e2]. cbn [fst] in H3.
  destruct (shr_m mrs2) as [|q|q]; [lia| |lia].
  by destruct (e2 <=? 1024 - 53)%Z.
Qed.

(** A positive count of hundredths has a positive Number value, possibly
    [Infinity]; zero has the value zero. *)
Lemma number_of_hundredths_sign h :
  isNaN (number_of_hundredths h) = false
  ∧ le_zero (number_of_hundredths h) = (h =? 0).
Proof.
  destruct h as [|p]; [done|]. cbn [number_of_hundredths N.eqb].
  unfold SFdiv, SFdiv_core_binary. cbn [xorb Zdigits2].
  pose proof (digits2_pos_le p) as Hd.
  set (d := Z.pos (digits2_pos p)) in *.
  assert (1 ≤ d)%Z as Hd1 by (unfold d; lia).
  change (Z.pos (digits2_pos 100)) with 7%Z.
  set (e' := Z.min _ _).
  assert (emin 53 1024 ≤ e' ≤ 0 ∧ e' ≤ d - 60)%Z as (He & He0).
  { unfold e', fexp, emin. lia. }
  set (m' := match (0 - 0 - e')%Z with
             | 0%Z => Z.pos p | Z.pos _ => Z.shiftl (Z.pos p) (0 - 0 - e')
             | Z.neg _ => 0%Z end).
  assert (100 ≤ m')%Z as Hm'.
  { unfold m'. destruct (0 - 0 - e')%Z as [|s|s] eqn:Es; [| |lia].
    - assert (2 ^ 59 ≤ 2 ^ (d - 1))%Z by (apply Z.pow_le_mono_r; lia). lia.
    - rewrite Z.shiftl_mul_pow2 by lia.
      destruct (Z.le_gt_cases 60 d) as [Hbig|Hsmall].
      + assert (2 ^ 59 ≤ 2 ^ (d - 1))%Z by (apply Z.pow_le_mono_r; lia).
        assert (1 ≤ 2 ^ Z.pos s)%Z by (apply Z.lt_pred_le, Z.pow_pos_nonneg; lia).
        nia.
      + assert (2 ^ (60 - d) ≤ 2 ^ Z.pos s)%Z by (apply Z.pow_le_mono_r; lia).
        assert (2 ^ (d - 1) * 2 ^ (60 - d) = 2 ^ 59)%Z as Hp.
        { rewrite <- Z.pow_add_r by lia. f_equal. lia. }
        assert (0 < 2 ^ (60 - d))%Z by (apply Z.pow_pos_nonneg; lia).
        nia. }
  pose proof (Z.div_eucl_eq m' 100 ltac:(lia)) as Heq.
  pose proof (Z.mod_pos_bound m' 100 ltac:(lia)) as Hmod.
  unfold Z.modulo in Hmod.
  destruct (Z.div_eucl m' 100) as [q r].
  apply binary_round_aux_positive; lia.
Qed.
(** ** The input parser *)

Arguments is_digit : simpl never.
Arguments is_white_space : simpl never.
Arguments is_dot : simpl never.

Ltac close_split :=
  split_and?; first [done | by constructor | simpl; lia].

Section MatcherFacts.
Context {A : Type}.
Implicit Types (p : N → bool) (k : jsstring → jsstring → option A).

Lemma greedy_star_sound p k s : ∀ acc r,
  greedy_star p k acc s = Some r →
  ∃ xs rest, s = xs ++ rest ∧ all_of p xs ∧ k (acc ++ xs) rest = Some r.
Proof.
  induction s as [|c s IH]; intros acc r H; simpl in H.
  - exists [], []. rewrite !app_nil_r. close_split.
  - destruct (p c) eqn:Hp;
      [destruct (greedy_star p k (acc ++ [c]) s) eqn:E|].
    + injection H as ->.
      apply IH in E as (xs & rest & -> & Hxs & Hk).
      exists (c :: xs), rest. rewrite <- app_assoc in Hk.
      close_split.
    + exists [], (c :: s). rewrite !app_nil_r. close_split.
    + exists [], (c :: s). rewrite !app_nil_r. close_split.
Qed.

Lemma greedy_star_complete p k xs : ∀ acc rest r,
  all_of p xs → k (acc ++ xs) rest = Some r →
  is_Some (greedy_star p k acc (xs ++ rest)).
Proof.
  induction xs as [|x xs IH]; intros acc rest r Hxs Hk.
  - rewrite app_nil_r in Hk. simpl.
    destruct rest as [|c rest]; simpl; [by eexists|].
    destruct (p c); [|by eexists].
    destruct (greedy_star p k (acc ++ [c]) rest); by eexists.
  - inversion Hxs as [|? ? Hx Hxs']; subst. simpl. rewrite Hx.
    destruct (IH (acc ++ [x]) rest r Hxs') as [r' ->]; [|by eexists].
    by rewrite <- app_assoc.
Qed.

Lemma greedy_plus_sound p k s r :
  greedy_plus p k s = Some r →
  ∃ xs rest, s = xs ++ rest ∧ xs ≠ [] ∧ all_of p xs ∧ k xs rest = Some r.
Proof.
  destruct s as [|c s]; simpl; [done|].
  destruct (p c) eqn:Hp; [|done]. intros H.
  apply greedy_star_sound in H as (xs & rest & -> & Hxs & Hk).
  exists (c :: xs), rest. close_split.
Qed.

Lemma greedy_plus_complete p k xs rest r :
  xs ≠ [] → all_of p xs → k xs rest = Some r →
  is_Some (greedy_plus p k (xs ++ rest)).
Proof.
  destruct xs as [|x xs]; [done|]. intros _ Hxs Hk.
  inversion Hxs as [|? ? Hx Hxs']; subst. simpl. rewrite Hx.
  by apply (greedy_star_complete p k xs [x] rest r).
Qed.

Lemma greedy_upto_sound p k n : ∀ s acc r,
  greedy_upto p n k acc s = Some r →
  ∃ xs rest, s = xs ++ rest ∧ (length xs ≤ n)%nat ∧ all_of p xs
             ∧ k (acc ++ xs) rest = Some r.
Proof.
  induction n as [|n IH]; intros s acc r H; simpl in H.
  - exists [], s. rewrite !app_nil_r. close_split.
  - destruct s as [|c s].
    { exists [], []. rewrite !app_nil_r. close_split. }
    destruct (p c) eqn:Hp;
      [destruct (greedy_upto p n k (acc ++ [c]) s) eqn:E|].
    + injection H as ->.
      apply IH in E as (xs & rest & -> & Hn & Hxs & Hk).
      exists (c :: xs), rest. rewrite <- app_assoc in Hk.
      close_split.
    + exists [], (c :: s). rewrite !app_nil_r.
      close_split.
    + exists [], (c :: s). rewrite !app_nil_r.
      close_split.
Qed.

Lemma greedy_upto_complete p k n : ∀ xs acc rest r,
  (length xs ≤ n)%nat → all_of p xs → k (acc ++ xs) rest = Some r →
  is_Some (greedy_upto p n k acc (xs ++ rest)).
Proof.
  induction n as [|n IH]; intros xs acc rest r Hn Hxs Hk.
  - destruct xs; [|simpl in Hn; lia]. rewrite app_nil_r in Hk. by eexists.
  - destruct xs as [|x xs].
    + rewrite app_nil_r in Hk. simpl.
      destruct rest as [|c rest]; [by eexists|].
      destruct (p c); [|by eexists].
      destruct (greedy_upto p n k (acc ++ [c]) rest); by eexists.
    + inversion Hxs as [|? ? Hx Hxs']; subst. simpl. rewrite Hx.
      destruct (IH xs (acc ++ [x]) rest r) as [r' ->];
        [simpl in Hn; lia|done|by rewrite <- app_assoc|by eexists].
Qed.

Lemma re_fraction_sound k s r :
  re_fraction k s = Some r →
  ∃ fd rest, s = 46 :: fd ++ rest ∧ fd ≠ [] ∧ (length fd ≤ 2)%nat
             ∧ all_of is_digit fd ∧ k (46 :: fd) rest = Some r.
Proof.
  unfold re_fraction, lit. destruct s as [|c s]; [done|].
  destruct (N.eqb_spec c 46) as [->|]; [|done].
  destruct s as [|d s]; [done|]. destruct (is_digit d) eqn:Hd; [|done].
  intros H. apply greedy_upto_sound in H as (xs & rest & -> & Hn & Hxs & Hk).
  exists (d :: xs), rest.
  close_split.
Qed.

Lemma re_fraction_complete k fd rest r :
  fd ≠ [] → (length fd ≤ 2)%nat → all_of is_digit fd →
  k (46 :: fd) rest = Some r →
  is_Some (re_fraction k (46 :: fd ++ rest)).
Proof.
  destruct fd as [|d fd]; [done|]. intros _ Hn Hfd Hk.
  inversion Hfd as [|? ? Hd Hfd']; subst.
  unfold re_fraction, lit. simpl. rewrite Hd.
  apply (greedy_upto_complete is_digit k 1 fd [46; d] rest r);
    [simpl in Hn; lia|done|done].
Qed.
End MatcherFacts.

Lemma digit_not_white_space c : is_digit c = true → is_white_space c = false.
Proof.
  unfold is_digit, in_range. intros [H1 H2]%andb_true_iff.
  apply N.leb_le in H1, H2.
  unfold is_white_space, is_line_terminator, in_range.
  repeat (rewrite (proj2 (N.eqb_neq c _)) by lia).
  rewrite (proj2 (N.leb_gt 0x2000 c)) by lia. reflexivity.
Qed.

Lemma white_space_not_digit c : is_white_space c = true → is_digit c = false.
Proof.
  intros H. destruct (is_digit c) eqn:E; [|done].
  apply digit_not_white_space in E. congruence.
Qed.

(** A maximal run of a class is determined by the text. *)
Lemma run_unique p (xs : jsstring) : ∀ xs' r r',
  xs ++ r = xs' ++ r' → all_of p xs → all_of p xs' →
  stops p r → stops p r' → xs = xs' ∧ r = r'.
Proof.
  induction xs as [|x xs IH]; intros xs' r r' E Hxs Hxs' Hr Hr'.
  - destruct xs' as [|x' xs']; [done|]. simpl in E. subst r.
    inversion Hxs'; subst. simpl in Hr. congruence.
  - destruct xs' as [|x' xs'].
    + simpl in E. subst r'. inversion Hxs; subst. simpl in Hr'. congruence.
    + injection E as -> E. inversion Hxs; inversion Hxs'; subst.
      destruct (IH xs' r r' E) as [-> ->]; done.
Qed.

Lemma stops_digit_fraction fd ws rest :
  ws ≠ [] → all_of is_white_space ws → stops is_digit (fraction fd ++ ws ++ rest).
Proof.
  intros Hne Hws. destruct fd; simpl; [|done].
  destruct ws as [|w ws]; [done|]. inversion Hws; subst.
  simpl. by apply white_space_not_digit.
Qed.

Lemma stops_digit_white_space ws rest :
  ws ≠ [] → all_of is_white_space ws → stops is_digit (ws ++ rest).
Proof. apply (stops_digit_fraction []). Qed.

Lemma trimStart_app ws rest :
  all_of is_white_space ws → trimStart (ws ++ rest) = trimStart rest.
Proof. induction 1 as [|w ws Hw _ IH]; simpl; [done|]. by rewrite Hw. Qed.

(** Two decompositions of one text agree on the numeral and on the
    trimmed remainder. *)
Lemma decomposes_unique text ip fd ws rest ip' fd' ws' rest' :
  decomposes text ip fd ws rest → decomposes text ip' fd' ws' rest' →
  ip = ip' ∧ fd = fd' ∧ trim rest = trim rest'.
Proof.
  intros (-> & _ & Hip & _ & Hfd & Hws0 & Hws) (E & _ & Hip' & _ & Hfd' & Hws0' & Hws').
  destruct (run_unique is_digit ip ip' _ _ E Hip Hip') as [-> E1];
    [by apply stops_digit_fraction..|].
  assert (fd = fd' ∧ ws ++ rest = ws' ++ rest') as [-> E2].
  { destruct fd as [|d fd], fd' as [|d' fd']; simpl in E1.
    - done.
    - destruct ws as [|w ws]; [done|]. inversion Hws; subst.
      injection E1 as -> _. done.
    - destruct ws' as [|w ws']; [done|]. inversion Hws'; subst.
      injection E1 as <- _. done.
    - injection E1 as -> E1. inversion Hfd; inversion Hfd'; subst.
      destruct (run_unique is_digit fd fd' _ _ E1) as [-> ->];
        [done|done|by apply stops_digit_white_space..|done]. }
  split; [done|]. split; [done|]. unfold trim.
  by rewrite <- (trimStart_app ws rest), E2, trimStart_app.
Qed.

Lemma span_digits_app ip r :
  all_of is_digit ip → stops is_digit r → span_digits (ip ++ r) = (ip, r).
Proof.
  induction 1 as [|c ip Hc _ IH]; intros Hr; simpl.
  - destruct r as [|c r]; [done|]. simpl in *. by rewrite Hr.
  - by rewrite Hc, IH.
Qed.

Lemma parseFloat_numeral ip fd :
  ip ≠ [] → all_of is_digit ip → (length fd ≤ 2)%nat → all_of is_digit fd →
  parseFloat (ip ++ fraction fd) = number_of_hundredths (numeral_value ip fd).
Proof.
  intros Hne Hip Hn Hfd. unfold parseFloat, numeral_value.
  rewrite span_digits_app; [|done|by destruct fd].
  destruct ip as [|c ip]; [done|].
  destruct fd as [|d1 [|d2 [|? ?]]]; cbn [fraction length] in *; [|..|lia].
  - by rewrite N.add_0_r.
  - inversion Hfd as [|? ? H1 _]; subst. by rewrite H1.
  - inversion Hfd as [|? ? H1 Hfd']; inversion Hfd' as [|? ? H2 _]; subst.
    rewrite H1, H2. cbn [andb N.eqb Pos.eqb]. f_equal. lia.
Qed.

Lemma parseExpenseInput_amount text g1 g2 ip fd :
  regex_match text = Some (g1, g2) →
  ip ≠ [] → all_of is_digit ip → (length fd ≤ 2)%nat → all_of is_digit fd →
  g1 = ip ++ fraction fd →
  parseExpenseInput text
  = if numeral_value ip fd =? 0 then None
    else Some (number_of_hundredths (numeral_value ip fd), trim g2).
Proof.
  intros E Hip0 Hip Hn Hfd ->. unfold parseExpenseInput. rewrite E. cbv zeta.
  rewrite parseFloat_numeral by done.
  by destruct (number_of_hundredths_sign (numeral_value ip fd)) as [-> ->].
Qed.

Lemma regex_match_sound text g1 g2 :
  regex_match text = Some (g1, g2) →
  ∃ ip fd ws, decomposes text ip fd ws g2 ∧ g1 = ip ++ fraction fd
              ∧ g2 ≠ [] ∧ all_of is_dot g2.
Proof.
  unfold regex_match. intros H.
  apply greedy_plus_sound in H as (ip & s1 & -> & Hip0 & Hip & H).
  assert (∃ fd s2, s1 = fraction fd ++ s2 ∧ (length fd ≤ 2)%nat
            ∧ all_of is_digit fd
            ∧ greedy_plus is_white_space (λ _ s3,
                greedy_plus is_dot (λ g2 s4, at_end (ip ++ fraction fd, g2) s4) s3)
                s2 = Some (g1, g2)) as (fd & s2 & -> & Hn & Hfd & H').
  { unfold optional in H.
    match type of H with match ?m with _ => _ end = _ => destruct m eqn:E end.
    - injection H as ->.
      apply re_fraction_sound in E as (fd & s2 & -> & Hfd0 & Hn & Hfd & E).
      exists fd, s2. by destruct fd.
    - exists [], s1. close_split. }
  apply greedy_plus_sound in H' as (ws & s3 & -> & Hws0 & Hws & H').
  apply greedy_plus_sound in H' as (rest & s4 & -> & Hr0 & Hr & H').
  destruct s4; [|done]. injection H' as <- <-. rewrite !app_nil_r.
  exists ip, fd, ws. by repeat split.
Qed.

Lemma regex_match_complete text ip fd ws rest :
  decomposes text ip fd ws rest → rest ≠ [] → all_of is_dot rest →
  is_Some (regex_match text).
Proof.
  intros (-> & Hip0 & Hip & Hn & Hfd & Hws0 & Hws) Hr0 Hr. unfold regex_match.
  set (tail := λ fr s2,
    greedy_plus is_white_space (λ _ s3,
      greedy_plus is_dot (λ g2 s4, at_end (ip ++ fr, g2) s4) s3) s2).
  assert (∀ fr, is_Some (tail fr (ws ++ rest))) as Htail.
  { intros fr. unfold tail.
    destruct (greedy_plus_complete is_dot
                (λ g2 s4, at_end (ip ++ fr, g2) s4) rest [] (ip ++ fr, rest))
      as [r Hr']; [done..|].
    rewrite app_nil_r in Hr'.
    by eapply greedy_plus_complete. }
  assert (is_Some (optional re_fraction tail (fraction fd ++ ws ++ rest))) as [r Hopt].
  { unfold optional. destruct fd as [|d fd].
    - simpl. destruct (re_fraction tail (ws ++ rest)); [by eexists|apply Htail].
    - destruct (Htail (46 :: d :: fd)) as [r Hr'].
      destruct (re_fraction_complete tail (d :: fd) (ws ++ rest) r) as [r' Hr''];
        [done..|].
      simpl in *. rewrite Hr''. by eexists. }
  by eapply greedy_plus_complete.
Qed.

(** What a successful parse tells about the text; the description may be
    empty here. *)
Lemma parseExpenseInput_sound text amount description :
  parseExpenseInput text = Some (amount, description) →
  ∃ ip fd ws rest,
    decomposes text ip fd ws rest ∧ rest ≠ [] ∧ all_of is_dot rest
    ∧ 0 < numeral_value ip fd
    ∧ amount = number_of_hundredths (numeral_value ip fd)
    ∧ description = trim rest.
Proof.
  destruct (regex_match text) as [[g1 g2]|] eqn:E;
    [|by unfold parseExpenseInput; rewrite E].
  pose proof E as E'.
  apply regex_match_sound in E' as (ip & fd & ws & Hdec & Hg1 & Hr0 & Hr).
  pose proof Hdec as (_ & Hip0 & Hip & Hn & Hfd & _).
  rewrite (parseExpenseInput_amount text g1 g2 ip fd) by done.
  destruct (N.eqb_spec (numeral_value ip fd) 0) as [|Hpos]; [done|].
  intros [= <- <-]. exists ip, fd, ws, g2. split_and!; try done. lia.
Qed.

Lemma parseExpenseInput_complete text ip fd ws rest :
  decomposes text ip fd ws rest → rest ≠ [] → all_of is_dot rest →
  0 < numeral_value ip fd →
  parseExpenseInput text
  = Some (number_of_hundredths (numeral_value ip fd), trim rest).
Proof.
  intros Hdec Hr0 Hr Hpos.
  destruct (regex_match_complete text ip fd ws rest) as [[g1 g2] E]; [done..|].
  pose proof E as E'.
  apply regex_match_sound in E' as (ip' & fd' & ws' & Hdec' & Hg1 & _ & _).
  destruct (decomposes_unique _ _ _ _ _ _ _ _ _ Hdec Hdec') as (<- & <- & ->).
  destruct Hdec as (_ & Hip0 & Hip & Hn & Hfd & _).
  rewrite (parseExpenseInput_amount _ g1 g2 ip fd) by done.
  destruct (N.eqb_spec (numeral_value ip fd) 0) as [E0|]; [lia|done].
Qed.

(** C3, as amended: the parser returns an amount and a description that
    is not empty exactly for the texts made of a positive decimal numeral
    with at most two fraction digits, white space, and a remainder that
    holds no line terminator and whose trimmed form is not empty; the
    amount is the Number value of the numeral (the nearest binary64
    value, [Infinity] beyond the range) and the description the trimmed
    remainder.  A text with no such numeral, white space and remainder at
    all yields no result. *)
Theorem parseExpenseInput_line_grammar text :
  (∀ amount description,
     parseExpenseInput text = Some (amount, description) ∧ description ≠ []
     ↔ line_grammar text amount description)
  ∧ ((¬ ∃ ip fd ws rest,
         decomposes text ip fd ws rest ∧ rest ≠ [] ∧ all_of is_dot rest
         ∧ 0 < numeral_value ip fd) →
     parseExpenseInput text = None).
Proof.
  split.
  - intros amount description. split.
    + intros [H Hd].
      apply parseExpenseInput_sound in H
        as (ip & fd & ws & rest & Hdec & Hr0 & Hr & Hpos & -> & ->).
      exists ip, fd, ws, rest. by split_and!.
    + intros (ip & fd & ws & rest & Hdec & Hr & Ht & Hpos & -> & ->).
      split; [|done]. apply (parseExpenseInput_complete _ _ _ ws); try done.
      intros ->. by apply Ht.
  - intros Hno. destruct (parseExpenseInput text) as [[a d]|] eqn:E; [|done].
    apply parseExpenseInput_sound in E
      as (ip & fd & ws & rest & Hdec & Hr0 & Hr & Hpos & _ & _).
    exfalso. apply Hno. by exists ip, fd, ws, rest.
Qed.

(** C3, as stated, fails, in two ways.  "5 a", a line feed and "b" is a
    positive number, white space and a remainder with a trimmed form that
    is not empty, and the parser rejects it.  And the amount the parser
    returns for [9007199254740993] is not that number: it is
    [9007199254740992], the nearest Number. *)
Lemma parseExpenseInput_not_spec_grammar :
  ¬ (∀ text amount description,
       parseExpenseInput text = Some (amount, description)
       ↔ spec_grammar text amount description)
  ∧ ∃ amount,
      parseExpenseInput (str "9007199254740993 x") = Some (amount, str "x")
      ∧ is_hundredths amount 900719925474099200
      ∧ ¬ spec_grammar (str "9007199254740993 x") amount (str "x").
Proof.
  split.
  - intros H.
    assert (spec_grammar (str "5 a" ++ [10] ++ str "b") (number_of_hundredths 500)
              (str "a" ++ [10] ++ str "b")) as Hs.
    { exists (str "5"), [], (str " "), (str "a" ++ [10] ++ str "b").
      split_and!; try done; try (by repeat constructor). }
    apply H in Hs. vm_compute in Hs. discriminate Hs.
  - exists (S754_finite false 4503599627370496 1).
    split; [reflexivity|]. split; [reflexivity|].
    intros (ip & fd & ws & rest & Hdec & _ & _ & Hval & _).
    assert (decomposes (str "9007199254740993 x") (str "9007199254740993") []
              (str " ") (str "x")) as Hdec'
      by (split_and!; try done; by repeat constructor).
    destruct (decomposes_unique _ _ _ _ _ _ _ _ _ Hdec Hdec') as (-> & -> & _).
    vm_compute in Hval. discriminate Hval.
Qed.

(** A remainder of white space alone is accepted with an empty
    description. *)
Example parse_blank_remainder :
  parseExpenseInput (str "5  ") = Some (number_of_hundredths 500, []).
Proof. reflexivity. Qed.

Example parse_lunch :
  parseExpenseInput (str "50 lunch") = Some (number_of_hundredths 5000, str "lunch").
Proof. reflexivity. Qed.

Example parse_coffee :
  parseExpenseInput (str "12.50 coffee  ")
  = Some (S754_finite false 7036874417766400 (-49), str "coffee").
Proof. reflexivity. Qed.

(** One tenth is not a binary fraction: the amount is the nearest one. *)
Example parse_tenth :
  parseExpenseInput (str "0.1 x")
  = Some (S754_finite false 7205759403792794 (-56), str "x").
Proof. reflexivity. Qed.

(** Past [2 ^ 53] not every whole number is a Number: the amount of
    [9007199254740993] is [9007199254740992]. *)
Example parse_rounded :
  parseExpenseInput (str "9007199254740993 x")
  = Some (S754_finite false 4503599627370496 1, str "x")
  ∧ parseExpenseInput (str "9007199254740992 x")
    = Some (S754_finite false 4503599627370496 1, str "x").
Proof. split; reflexivity. Qed.

(** A numeral of 401 digits is beyond the range: the amount is
    [Infinity], which a JSON message carries as [null]. *)
Example parse_infinity :
  parseExpenseInput (str "1" ++ replicate 400 48 ++ str " x")
  = Some (S754_infinity false, str "x")
  ∧ json_number (S754_infinity false) = None.
Proof. split; vm_compute; reflexivity. Qed.

Example parse_zero : parseExpenseInput (str "0.00 tea") = None.
Proof. reflexivity. Qed.

Example parse_three_fraction_digits : parseExpenseInput (str "1.234 tea") = None.
Proof. reflexivity. Qed.

Example parse_no_description : parseExpenseInput (str "50") = None.
Proof. reflexivity. Qed.

(** ** Trimming *)

Lemma trimStart_stops s : stops is_white_space (trimStart s).
Proof.
  induction s as [|c s IH]; simpl; [done|].
  destruct (is_white_space c) eqn:E; [done|]. simpl. done.
Qed.

Lemma trimStart_id s : stops is_white_space s → trimStart s = s.
Proof. destruct s as [|c s]; simpl; [done|]. by intros ->. Qed.

Lemma trimStart_split s :
  ∃ w, all_of is_white_space w ∧ s = w ++ trimStart s.
Proof.
  induction s as [|c s (w & Hw & IH)]; simpl.
  - exists []. by split; [constructor|].
  - destruct (is_white_space c) eqn:E.
    + exists (c :: w). split; [by constructor|]. simpl. by rewrite <- IH.
    + exists []. by split; [constructor|].
Qed.

(** A trimmed text is its own trimmed form. *)
Lemma trim_idemp s : trim (trim s) = trim s.
Proof.
  unfold trim, trimEnd.
  set (t := trimStart s). set (u := trimStart (rev t)).
  assert (stops is_white_space (rev u)) as Hstop.
  { destruct (trimStart_split (rev t)) as (w & Hw & Hrev). fold u in Hrev.
    assert (t = rev u ++ rev w) as Ht
      by (rewrite <- rev_app_distr, <- Hrev; symmetry; apply rev_involutive).
    pose proof (trimStart_stops s) as Hs. fold t in Hs. rewrite Ht in Hs.
    by destruct (rev u). }
  rewrite (trimStart_id (rev u)) by done. rewrite rev_involutive.
  unfold u. by rewrite (trimStart_id (trimStart (rev t))) by apply trimStart_stops.
Qed.

Lemma add_args_trimmed text : trim (add_args text) = add_args text.
Proof. apply trim_idemp. Qed.

(** ** Requests and the store *)

Lemma run_call clock {R} (op : Op R) k faults st :
  run clock (Call op k) faults st
  = run clock (k (exec clock (hd true faults) op st).2) (tl faults)
      (exec clock (hd true faults) op st).1.
Proof. simpl. by destruct (exec clock (hd true faults) op st). Qed.

Lemma exec_upsert_user clock u st :
  exec clock true (UpsertUser u) st
  = ((db_upsert_user u st).1, Some (db_upsert_user u st).2).
Proof. simpl. by destruct (db_upsert_user u st). Qed.

Lemma upsert_user_pending u st :
  pending_expenses (db_upsert_user u st).1 = pending_expenses st.
Proof. unfold db_upsert_user. by destruct (users st !! u). Qed.

Lemma upsert_user_expense u st :
  expense (db_upsert_user u st).1 = expense st.
Proof. unfold db_upsert_user. by destruct (users st !! u). Qed.

Lemma upsert_user_lookup u st :
  users (db_upsert_user u st).1 !! u = Some (db_upsert_user u st).2.
Proof.
  unfold db_upsert_user. destruct (users st !! u) eqn:E; simpl; [done|].
  apply lookup_insert_eq.
Qed.

Lemma upsert_user_custom u st v :
  custom_categories (db_upsert_user u st).1 v = custom_categories st v.
Proof.
  unfold custom_categories, db_upsert_user.
  destruct (users st !! u) eqn:E; simpl; [done|].
  destruct (decide (u = v)) as [->|Hne].
  - by rewrite lookup_insert_eq, E.
  - by rewrite lookup_insert_ne.
Qed.

Lemma upsert_user_row_custom u st :
  custom_of_user (Some (db_upsert_user u st).2) = custom_categories st u.
Proof.
  unfold custom_categories, db_upsert_user.
  by destruct (users st !! u) eqn:E.
Qed.

Lemma upsert_user_again u st :
  db_upsert_user u (db_upsert_user u st).1 = db_upsert_user u st.
Proof.
  unfold db_upsert_user at 1. rewrite upsert_user_lookup.
  unfold db_upsert_user. destruct (users st !! u) eqn:E; simpl; [|done].
  by destruct st.
Qed.

(** A request that is not on [pending_expenses] leaves the relation as it
    is. *)
Lemma exec_keeps_pending clock ok {R} (op : Op R) st :
  on_pending op = false →
  pending_expenses (exec clock ok op st).1 = pending_expenses st.
Proof.
  destruct op, ok; simpl; try done.
  intros _. rewrite <- (upsert_user_pending u st). by destruct (db_upsert_user u st).
Qed.

(** A request other than the update of [custom_categories] leaves every
    user's custom categories as they are. *)
Lemma exec_keeps_custom clock ok {R} (op : Op R) st v :
  on_custom op = false →
  custom_categories (exec clock ok op st).1 v = custom_categories st v.
Proof.
  destruct op, ok; simpl; try done.
  intros _. rewrite <- (upsert_user_custom u st v). by destruct (db_upsert_user u st).
Qed.

Lemma run_avoids_pending clock p :
  avoids_pending p →
  ∀ faults st, pending_expenses (final (run clock p faults st)) = pending_expenses st.
Proof.
  induction 1 as [| |a k _ IH|R op k Hop _ IH]; intros faults st; try done.
  - simpl. apply IH.
  - rewrite run_call, IH. by apply exec_keeps_pending.
Qed.

Lemma run_avoids_custom clock p :
  avoids_custom p →
  ∀ faults st v,
    custom_categories (final (run clock p faults st)) v = custom_categories st v.
Proof.
  induction 1 as [| |a k _ IH|R op k Hop _ IH]; intros faults st v; try done.
  - simpl. apply IH.
  - rewrite run_call, IH. by apply exec_keeps_custom.
Qed.

(** A request that is not on [pending_expenses] answers the same on two
    stores that differ only there, and keeps them so. *)
Lemma exec_same_but_pending clock ok {R} (op : Op R) st st' :
  on_pending op = false → same_but_pending st st' →
  (exec clock ok op st).2 = (exec clock ok op st').2
  ∧ same_but_pending (exec clock ok op st).1 (exec clock ok op st').1.
Proof.
  intros Hop (Hu & Hs & He). unfold same_but_pending.
  destruct op, ok; simpl in *; try done.
  - unfold db_upsert_user. rewrite <- Hu, <- Hs.
    destruct (users st !! u); simpl; by rewrite ?Hu, ?Hs, ?He.
  - by rewrite Hu, Hs, He.
  - by rewrite Hu, Hs, He.
  - unfold db_select_expense. by rewrite He.
Qed.

Lemma run_same_but_pending clock p :
  avoids_pending p →
  ∀ faults st st', same_but_pending st st' →
    sent (run clock p faults st) = sent (run clock p faults st')
    ∧ threw (run clock p faults st) = threw (run clock p faults st')
    ∧ same_but_pending (final (run clock p faults st)) (final (run clock p faults st')).
Proof.
  induction 1 as [| |a k _ IH|R op k Hop _ IH]; intros faults st st' Hst; try done.
  - simpl. destruct (IH faults st st' Hst) as (-> & -> & ?). done.
  - rewrite !run_call.
    destruct (exec_same_but_pending clock (hd true faults) op st st' Hop Hst)
      as [-> Hst'].
    by apply IH.
Qed.

(** ** Tokens: printing an index and reading it back *)

Lemma str_String c s : str (String c s) = N_of_ascii c :: str s.
Proof. reflexivity. Qed.

Lemma pretty_N_char_digit x :
  x < 10 →
  is_digit (N_of_ascii (pretty_N_char x)) = true
  ∧ digit_val (N_of_ascii (pretty_N_char x)) = x.
Proof.
  intros Hx.
  assert (x = 0 ∨ x = 1 ∨ x = 2 ∨ x = 3 ∨ x = 4 ∨ x = 5 ∨ x = 6 ∨ x = 7
          ∨ x = 8 ∨ x = 9) as Hcases by lia.
  repeat (destruct Hcases as [->|Hcases]; [by vm_compute|]). subst. by vm_compute.
Qed.

(** The digits stdpp prints for a positive number, read from the left,
    give the number back. *)
Lemma pretty_N_go_digits x :
  0 < x →
  ∃ ds, ds ≠ [] ∧ all_of is_digit ds
        ∧ (∀ a, fold_left decimal_step ds a = 10 ^ N.of_nat (length ds) * a + x)
        ∧ ∀ s, str (pretty_N_go x s) = ds ++ str s.
Proof.
  induction (N.lt_wf_0 x) as [x _ IH]. intros Hx.
  destruct (pretty_N_char_digit (x `mod` 10)) as [Hd Hv];
    [by apply N.mod_lt|].
  destruct (decide (x < 10)) as [Hsmall|Hbig].
  - exists [N_of_ascii (pretty_N_char (x `mod` 10))]. split_and!; [done|by repeat constructor|..].
    + intros a. cbn. unfold decimal_step. rewrite Hv, N.mod_small by done. lia.
    + intros s. rewrite pretty_N_go_step by done.
      rewrite N.div_small by done. by rewrite pretty_N_go_0.
  - destruct (IH (x `div` 10)) as (ds & Hne & Hds & Hfold & Hstr).
    { apply N.div_lt; lia. }
    { apply N.div_str_pos. lia. }
    exists (ds ++ [N_of_ascii (pretty_N_char (x `mod` 10))]). split_and!.
    + by destruct ds.
    + apply Forall_app. split; [done|by repeat constructor].
    + intros a. rewrite fold_left_app, Hfold. cbn. unfold decimal_step.
      rewrite Hv, length_app, Nat2N.inj_add, N.pow_add_r. cbn.
      pose proof (N.div_mod x 10). lia.
    + intros s. rewrite pretty_N_go_step by done.
      by rewrite Hstr, str_String, <- app_assoc.
Qed.

(** What [show] prints: digits that read back as the index. *)
Lemma show_digits i :
  ∃ ds, show i = ds ∧ ds ≠ [] ∧ all_of is_digit ds
        ∧ fold_left decimal_step ds 0 = N.of_nat i.
Proof.
  unfold show, pretty, pretty_nat, pretty, pretty_N.
  destruct (decide (N.of_nat i = 0)) as [E|E].
  - exists [48]. rewrite E. by split_and!; [|done|repeat constructor|].
  - destruct (pretty_N_go_digits (N.of_nat i)) as (ds & Hne & Hds & Hfold & Hstr);
      [lia|].
    exists ds. rewrite Hstr, app_nil_r, Hfold. split_and!; try done. lia.
Qed.

Lemma radix_digit_decimal c :
  is_digit c = true → radix_digit 10 c = Some (digit_val c).
Proof. unfold radix_digit. by intros ->. Qed.

Lemma radix_prefix_digits ds : ∀ acc,
  ds ≠ [] → all_of is_digit ds →
  radix_prefix 10 acc ds = Some (fold_left decimal_step ds (default 0 acc)).
Proof.
  induction ds as [|c ds IH]; intros acc Hne Hds; [done|].
  inversion Hds as [|? ? Hc Hds']; subst. cbn [radix_prefix].
  rewrite radix_digit_decimal by done.
  destruct ds as [|c' ds]; [done|]. by rewrite IH.
Qed.

Lemma parseInt_digits ds :
  ds ≠ [] → all_of is_digit ds →
  parseInt ds = Some (Z.of_N (fold_left decimal_step ds 0)).
Proof.
  intros Hne Hds. destruct ds as [|c ds]; [done|].
  inversion Hds as [|? ? Hc Hds']; subst.
  pose proof (digit_not_white_space c Hc) as Hws.
  unfold is_digit, in_range in Hc. apply andb_true_iff in Hc as [H1 H2].
  apply N.leb_le in H1, H2.
  unfold parseInt. cbn [trimStart]. rewrite Hws.
  rewrite (proj2 (N.eqb_neq c 45)), (proj2 (N.eqb_neq c 43)) by lia.
  assert (match ds with
          | x :: r => if (c =? 48) && ((x =? 120) || (x =? 88))
                      then (16, r) else (10, c :: ds)
          | [] => (10, c :: ds)
          end = (10, c :: ds)) as ->.
  { destruct ds as [|x r]; [done|].
    inversion Hds' as [|? ? Hx _]; subst.
    unfold is_digit, in_range in Hx. apply andb_true_iff in Hx as [H3 H4].
    apply N.leb_le in H3, H4.
    rewrite (proj2 (N.eqb_neq x 120)), (proj2 (N.eqb_neq x 88)) by lia.
    by rewrite andb_false_r. }
  by rewrite radix_prefix_digits.
Qed.

Lemma split_digits sep ds :
  is_digit sep = false → all_of is_digit ds → split sep ds = [ds].
Proof.
  intros Hsep. induction 1 as [|c ds Hc _ IH]; [done|]. cbn [split].
  destruct (N.eqb_spec c sep) as [->|_]; [congruence|]. by rewrite IH.
Qed.

(** The payload of a category button reads back as its index. *)
Lemma payload_index_cat i :
  startsWith (str "cat_") (str "cat_" ++ show i) = true
  ∧ payload_index (str "cat_" ++ show i) = Some (Z.of_nat i).
Proof.
  split; [reflexivity|].
  destruct (show_digits i) as (ds & -> & Hne & Hds & Hval).
  unfold payload_index.
  assert (split 95 (str "cat_" ++ ds) = [str "cat"; ds]) as ->.
  { change (str "cat_" ++ ds) with (99 :: 97 :: 116 :: 95 :: ds).
    cbn [split N.eqb Pos.eqb]. by rewrite split_digits. }
  cbn [nth]. rewrite parseInt_digits, Hval by done. f_equal. lia.
Qed.

(** The payload of a removal button reads back as its index. *)
Lemma payload_index_remove i :
  startsWith (str "cat_") (str "remove_" ++ show i) = false
  ∧ startsWith (str "remove_") (str "remove_" ++ show i) = true
  ∧ payload_index (str "remove_" ++ show i) = Some (Z.of_nat i).
Proof.
  split; [reflexivity|]. split; [reflexivity|].
  destruct (show_digits i) as (ds & -> & Hne & Hds & Hval).
  unfold payload_index.
  assert (split 95 (str "remove_" ++ ds) = [str "remove"; ds]) as ->.
  { change (str "remove_" ++ ds)
      with (114 :: 101 :: 109 :: 111 :: 118 :: 101 :: 95 :: ds).
    cbn [split N.eqb Pos.eqb]. by rewrite split_digits. }
  cbn [nth]. rewrite parseInt_digits, Hval by done. f_equal. lia.
Qed.

(** ** The category keyboard *)

(** A button of the keyboard carries the index of its label, counted from
    the index [i] of the first category. *)
Lemma category_rows_buttons n : ∀ i categories row label data,
  (length categories ≤ n)%nat →
  row ∈ category_rows i categories → (label, data) ∈ row →
  (length row ≤ 2)%nat
  ∧ ∃ j, data = str "cat_" ++ show (i + j) ∧ categories !! j = Some label.
Proof.
  induction n as [|n IH]; intros i categories row label data Hn Hrow Hb.
  { destruct categories; [|simpl in Hn; lia].
    apply list_elem_of_singleton in Hrow as ->. by apply elem_of_nil in Hb. }
  destruct categories as [|a [|b rest]]; cbn [category_rows] in Hrow.
  - apply list_elem_of_singleton in Hrow as ->. by apply elem_of_nil in Hb.
  - apply list_elem_of_singleton in Hrow as ->.
    apply list_elem_of_singleton in Hb as [= -> ->].
    split; [simpl; lia|]. exists 0%nat. by rewrite Nat.add_0_r.
  - apply elem_of_cons in Hrow as [->|Hrow].
    + split; [simpl; lia|].
      apply elem_of_cons in Hb as [[= -> ->]|Hb].
      { exists 0%nat. by rewrite Nat.add_0_r. }
      apply list_elem_of_singleton in Hb as [= -> ->]. by exists 1%nat.
    + destruct (IH (i + 2)%nat rest row label data) as (Hlen & j & -> & Hj);
        [simpl in Hn; lia|done|done|].
      split; [done|]. exists (S (S j)).
      split; [|done]. by replace (i + S (S j))%nat with (i + 2 + j)%nat by lia.
Qed.

(** X3: every button of the keyboard resolves, against the list it was
    rendered from, to its own label; rows hold at most two buttons. *)
Lemma category_keyboard_resolves categories row label data :
  row ∈ category_rows 0 categories → (label, data) ∈ row →
  (length row ≤ 2)%nat
  ∧ startsWith (str "cat_") data = true
  ∧ js_index categories (payload_index data) = Some label.
Proof.
  intros Hrow Hb.
  destruct (category_rows_buttons (length categories) 0 categories row label data)
    as (Hlen & j & -> & Hj); [done..|].
  destruct (payload_index_cat (0 + j)) as [Hcat ->].
  split_and!; try done. unfold js_index.
  rewrite (proj2 (Z.ltb_ge (Z.of_nat (0 + j)) 0)) by lia. by rewrite Nat2Z.id.
Qed.

(** The second button of the first row of the default keyboard. *)
Lemma category_keyboard_resolves_witness :
  let label := [0xD83D; 0xDE97] ++ str " Transport" in
  category_rows 0 DEFAULT_CATEGORIES !! 0%nat
    = Some [ ([0xD83C; 0xDF54] ++ str " Food", str "cat_0"); (label, str "cat_1") ]
  ∧ js_index DEFAULT_CATEGORIES (payload_index (str "cat_1")) = Some label.
Proof.
  split; [reflexivity|].
  apply (category_keyboard_resolves DEFAULT_CATEGORIES
           [ ([0xD83C; 0xDF54] ++ str " Food", str "cat_0");
             ([0xD83D; 0xDE97] ++ str " Transport", str "cat_1") ]
           ([0xD83D; 0xDE97] ++ str " Transport") (str "cat_1")).
  - apply (bool_decide_unpack _). vm_compute. exact I.
  - apply (bool_decide_unpack _). vm_compute. exact I.
Defined.

(** ** Selecting a category *)

Lemma on_callback_category d from data :
  startsWith (str "cat_") data = true →
  on_callback d from data = on_category d from data.
Proof. unfold on_callback. by intros ->. Qed.

(** Without a pending row the handler only reports that the session
    expired, whatever the requests answer. *)
Lemma on_category_expired d clock from data faults st :
  getPending st (default ""%string from) = None →
  sent (run clock (on_category d from data) faults st)
    = [AnswerCallbackQuery (Some SessionExpired)]
  ∧ threw (run clock (on_category d from data) faults st) = false
  ∧ expense (final (run clock (on_category d from data) faults st)) = expense st
  ∧ pending_expenses (final (run clock (on_category d from data) faults st))
    = pending_expenses st
  ∧ ∀ v, custom_categories (final (run clock (on_category d from data) faults st)) v
         = custom_categories st v.
Proof.
  unfold getPending. intros Hnone.
  unfold on_category, getOrCreateUser. rewrite !run_call.
  set (u := default ""%string from) in *.
  set (e1 := exec clock (hd true faults) (UpsertUser u) st).
  assert (pending_expenses e1.1 = pending_expenses st) as Hp
    by by apply exec_keeps_pending.
  assert (expense e1.1 = expense st) as He.
  { unfold e1. destruct (hd true faults); simpl; [|done].
    rewrite <- (upsert_user_expense u st). by destruct (db_upsert_user u st). }
  assert (∀ v, custom_categories e1.1 v = custom_categories st v) as Hc
    by (intros v; by apply exec_keeps_custom).
  assert (exec clock (hd true (tl faults)) (SelectPending u) e1.1 = (e1.1, @None PendingRow))
    as ->.
  { simpl. destruct (hd true (tl faults)); [|done]. by rewrite Hp, Hnone. }
  done.
Qed.

(** With the user row fetched and a pending row present, the handler
    reaches the commit step. *)
Lemma on_category_commit d clock u data (ok3 ok4 ok5 ok6 : bool) rest st row :
  getPending st u = Some row →
  let urow := (db_upsert_user u st).2 in
  let categories :=
    DEFAULT_CATEGORIES ++ (if ok3 then custom_categories st u else []) in
  let category := js_index categories (payload_index data) in
  let e := {| n_user_id := u_id urow; n_amount := p_amount row;
              n_description := p_description row; n_category := category |} in
  run clock (on_category d (Some u) data)
    (true :: true :: ok3 :: ok4 :: ok5 :: ok6 :: rest) st
  = {| final := commit_requests clock d u e ok4 ok5 ok6 (db_upsert_user u st).1;
       sent := [ EditMessageText
                   (if ok4 then ExpenseSaved (p_amount row) (p_description row) category
                    else SaveFailed);
                 AnswerCallbackQuery None ];
       threw := false |}.
Proof.
  unfold getPending. intros Hrow. cbv zeta.
  unfold on_category, getUserCategories, getOrCreateUser.
  change (default ""%string (Some u)) with u. cbv zeta.
  rewrite run_call. cbn [hd tl]. rewrite exec_upsert_user. cbn [fst snd].
  rewrite run_call. cbn [hd tl exec fst snd].
  rewrite upsert_user_pending, Hrow.
  rewrite run_call. cbn [hd tl].
  assert (exec clock ok3 (UpsertUser u) (db_upsert_user u st).1
          = ((db_upsert_user u st).1,
             if ok3 then Some (db_upsert_user u st).2 else None)) as ->.
  { destruct ok3; [|done]. by rewrite exec_upsert_user, upsert_user_again. }
  cbn [fst snd].
  assert (custom_of_user (if ok3 then Some (db_upsert_user u st).2 else None)
          = if ok3 then custom_categories st u else []) as ->.
  { destruct ok3; [|done]. apply upsert_user_row_custom. }
  rewrite !run_call. cbn [hd tl]. unfold commit_requests.
  destruct ok4, ok5, ok6; reflexivity.
Qed.

(** C6: when the selection finds no pending row for the user, the handler
    answers that the session expired and does nothing more: it sends no
    other message, appends no expense, and leaves the pending rows and
    every user's category list as they were. *)
Theorem selection_without_pending_row d clock from data faults st :
  startsWith (str "cat_") data = true →
  getPending st (default ""%string from) = None →
  let r := run clock (handle d (CallbackQuery from data)) faults st in
  sent r = [AnswerCallbackQuery (Some SessionExpired)]
  ∧ threw r = false
  ∧ expense (final r) = expense st
  ∧ pending_expenses (final r) = pending_expenses st
  ∧ ∀ v, effective_categories (final r) v = effective_categories st v.
Proof.
  intros Hcat Hnone. cbv zeta. cbn [handle]. rewrite on_callback_category by done.
  destruct (on_category_expired d clock from data faults st Hnone)
    as (? & ? & ? & ? & Hc).
  split_and!; try done. intros v. unfold effective_categories. by rewrite Hc.
Qed.

(** User 9 has no pending row on the sample store. *)
Lemma selection_without_pending_row_witness :
  let r := run 0 (handle sample_dates (CallbackQuery (Some "9"%string) (str "cat_3")))
             [] sample_store in
  getPending sample_store "9" = None
  ∧ sent r = [AnswerCallbackQuery (Some SessionExpired)]
  ∧ expense (final r) = expense sample_store.
Proof.
  split; [reflexivity|].
  destruct (selection_without_pending_row sample_dates 0 (Some "9"%string)
              (str "cat_3") [] sample_store) as (Hs & _ & He & _);
    [reflexivity|reflexivity|].
  split; [exact Hs|exact He].
Defined.

(** C1, as amended: when the append of the expense fails in the commit
    step, nothing is written to the ledger and the user is shown the
    failure message; the delete of the pending row is issued together with
    the append and does not depend on its answer, so the pending row is
    deleted whenever that delete succeeds. *)
Theorem failed_append_still_clears_pending d clock u data (ok3 ok5 ok6 : bool) rest st row :
  startsWith (str "cat_") data = true →
  getPending st u = Some row →
  let r := run clock (handle d (CallbackQuery (Some u) data))
             (true :: true :: ok3 :: false :: ok5 :: ok6 :: rest) st in
  expense (final r) = expense st
  ∧ sent r = [EditMessageText SaveFailed; AnswerCallbackQuery None]
  ∧ threw r = false
  ∧ (ok5 = true → getPending (final r) u = None).
Proof.
  intros Hcat Hrow. cbv zeta. cbn [handle]. rewrite on_callback_category by done.
  rewrite (on_category_commit d clock u data ok3 false ok5 ok6 rest st row Hrow).
  cbn [final sent threw]. split_and!; try done.
  - unfold commit_requests. destruct ok5, ok6; simpl; apply upsert_user_expense.
  - intros ->. unfold commit_requests, getPending.
    destruct ok6; simpl.
    + apply map_lookup_filter_None. left. apply lookup_delete_eq.
    + apply lookup_delete_eq.
Qed.

(** The append for user 42 fails on the sample store. *)
Lemma failed_append_still_clears_pending_witness :
  let r := run 0 (handle sample_dates (CallbackQuery (Some "42"%string) (str "cat_0")))
             [true; true; true; false; true; true] sample_store in
  getPending sample_store "42" = Some sample_pending
  ∧ expense (final r) = expense sample_store
  ∧ sent r = [EditMessageText SaveFailed; AnswerCallbackQuery None]
  ∧ getPending (final r) "42" = None.
Proof.
  split; [reflexivity|].
  destruct (failed_append_still_clears_pending sample_dates 0 "42" (str "cat_0")
              true true true [] sample_store sample_pending)
    as (He & Hs & _ & Hp); [reflexivity|reflexivity|].
  split; [exact He|]. split; [exact Hs|]. apply Hp. reflexivity.
Defined.

(** C1, as stated, fails: on the sample store the append for user 42
    fails, the failure message is shown and nothing is written, and yet
    the pending row that was there is gone. *)
Lemma failed_append_loses_pending :
  let r := run 0 (handle sample_dates (CallbackQuery (Some "42"%string) (str "cat_0")))
             [true; true; true; false] sample_store in
  getPending sample_store "42" = Some sample_pending
  ∧ sent r = [EditMessageText SaveFailed; AnswerCallbackQuery None]
  ∧ expense (final r) = expense sample_store
  ∧ getPending (final r) "42" = None.
Proof. vm_compute. done. Qed.

Lemma js_index_beyond {A} (l : list A) i :
  (Z.of_nat (length l) ≤ i)%Z → js_index l (Some i) = None.
Proof.
  intros Hi. unfold js_index. destruct (Z.ltb_spec i 0); [done|].
  apply lookup_ge_None_2. lia.
Qed.

Lemma commit_requests_expense clock d u e (ok4 ok5 ok6 : bool) st :
  expense (commit_requests clock d u e ok4 ok5 ok6 st)
  = expense (if ok4 then db_insert_expense clock e st else st).
Proof. unfold commit_requests. by destruct ok5, ok6. Qed.

Lemma commit_requests_pending clock d u e (ok4 ok5 ok6 : bool) st :
  pending_expenses (commit_requests clock d u e ok4 ok5 ok6 st)
  = let m := if ok5 then delete u (pending_expenses st) else pending_expenses st in
    if ok6 then filter (λ kv, ¬ (p_created_at kv.2 < date_now d - HOUR)%Z) m else m.
Proof. unfold commit_requests. by destruct ok4, ok5, ok6. Qed.

(** The three requests of the commit step go to the store together; the
    order in which it serves them does not matter. *)
Lemma commit_requests_commute clock t u e st :
  db_delete_pending u (db_insert_expense clock e st)
    = db_insert_expense clock e (db_delete_pending u st)
  ∧ db_delete_pending_before t (db_insert_expense clock e st)
    = db_insert_expense clock e (db_delete_pending_before t st)
  ∧ db_delete_pending_before t (db_delete_pending u st)
    = db_delete_pending u (db_delete_pending_before t st).
Proof.
  split_and!; try reflexivity.
  unfold db_delete_pending_before, db_delete_pending. cbn. f_equal.
  apply map_filter_delete.
Qed.

(** An index at or beyond the effective list commits all the same, with
    no category. *)
Lemma on_category_out_of_range d clock u data z (ok3 ok6 : bool) rest st row :
  payload_index data = Some z →
  (Z.of_nat (length (effective_categories st u)) ≤ z)%Z →
  getPending st u = Some row →
  run clock (on_category d (Some u) data)
    (true :: true :: ok3 :: true :: true :: ok6 :: rest) st
  = {| final := commit_requests clock d u
                  {| n_user_id := u_id (db_upsert_user u st).2;
                     n_amount := p_amount row;
                     n_description := p_description row;
                     n_category := None |} true true ok6 (db_upsert_user u st).1;
       sent := [ EditMessageText
                   (ExpenseSaved (p_amount row) (p_description row) None);
                 AnswerCallbackQuery None ];
       threw := false |}.
Proof.
  intros Hidx Hlen Hrow.
  rewrite (on_category_commit d clock u data ok3 true true ok6 rest st row Hrow).
  rewrite Hidx, js_index_beyond; [done|].
  unfold effective_categories in Hlen. rewrite length_app in *.
  destruct ok3; simpl length in *; lia.
Qed.

(** C4: the selection payload [cat_<i>] with [i] at or beyond the length
    of the user's effective category list is not rejected: with a pending
    row present the handler appends an expense whose category is the
    undefined result of the lookup, deletes the pending row and confirms. *)
Theorem stale_token_commits_without_category
    d clock u (i : nat) (ok3 ok6 : bool) rest st row :
  (length (effective_categories st u) ≤ i)%nat →
  getPending st u = Some row →
  let data := str "cat_" ++ show i in
  let r := run clock (handle d (CallbackQuery (Some u) data))
             (true :: true :: ok3 :: true :: true :: ok6 :: rest) st in
  js_index (effective_categories st u) (payload_index data) = None
  ∧ expense (final r)
    = expense st ++ [ {| e_user_id := u_id (db_upsert_user u st).2;
                         e_amount := p_amount row;
                         e_description := p_description row;
                         e_category := None;
                         e_created_at := clock |} ]
  ∧ getPending (final r) u = None
  ∧ sent r = [ EditMessageText
                 (ExpenseSaved (p_amount row) (p_description row) None);
               AnswerCallbackQuery None ].
Proof.
  intros Hlen Hrow. cbv zeta. cbn [handle].
  destruct (payload_index_cat i) as [Hcat Hidx].
  rewrite on_callback_category by done.
  rewrite (on_category_out_of_range d clock u _ (Z.of_nat i) ok3 ok6 rest st row)
    by (done || lia).
  cbn [final sent threw]. rewrite Hidx. unfold getPending.
  rewrite commit_requests_expense, commit_requests_pending.
  cbn [db_insert_expense expense]. rewrite upsert_user_expense, upsert_user_pending.
  split_and!; try done.
  - apply js_index_beyond. lia.
  - destruct ok6; simpl.
    + apply map_lookup_filter_None. left. apply lookup_delete_eq.
    + apply lookup_delete_eq.
Qed.

(** Index 15 on the fifteen categories of user 42. *)
Lemma stale_token_commits_without_category_witness :
  let r := run 77 (handle sample_dates (CallbackQuery (Some "42"%string) (str "cat_15")))
             [true; true; true; true; true; true] sample_store in
  length (effective_categories sample_store "42") = 15%nat
  ∧ expense (final r)
    = [ {| e_user_id := 1; e_amount := Some (number_of_hundredths 5000);
           e_description := str "lunch";
           e_category := None; e_created_at := 77 |} ]
  ∧ getPending (final r) "42" = None.
Proof.
  split; [reflexivity|].
  destruct (stale_token_commits_without_category sample_dates 77 "42"
              15 true true [] sample_store sample_pending)
    as (_ & He & Hp & _); [vm_compute; lia|reflexivity|].
  split; [exact He|exact Hp].
Defined.

(** ** Two selections at once *)

Lemma run_no_faults clock p : ∀ faults st,
  Forall (eq true) faults → run clock p faults st = run clock p [] st.
Proof.
  induction p as [| |a k IH|R op k IH]; intros faults st Hf; try done.
  - simpl. by rewrite IH.
  - rewrite !run_call. destruct Hf as [|? fs <- Hfs]; [done|].
    cbn [hd tl]. by apply IH.
Qed.

(** One step of a handler is the first step of its run. *)
Lemma step_run clock p st p1 st1 out :
  step clock p st = Some (p1, st1, out) →
  final (run clock p [] st) = final (run clock p1 [] st1)
  ∧ sent (run clock p [] st) = out ++ sent (run clock p1 [] st1).
Proof.
  destruct p as [| |a k|R op k]; simpl; try done.
  - by intros [= <- <- <-].
  - destruct (exec clock true op st) as [st' x]. by intros [= <- <- <-].
Qed.

Lemma finished_run clock p st :
  finished p = true → final (run clock p [] st) = st ∧ sent (run clock p [] st) = [].
Proof. by destruct p. Qed.

Lemma schedule_cons clock i order c :
  schedule clock (i :: order) c = schedule clock order (advance clock c i).
Proof. reflexivity. Qed.

Lemma schedule_app clock order1 order2 c :
  schedule clock (order1 ++ order2) c
  = schedule clock order2 (schedule clock order1 c).
Proof. apply fold_left_app. Qed.

(** A handler that advances alone does what [run] says. *)
Lemma schedule_alone clock i : ∀ n c p,
  threads c !! i = Some p →
  ∃ p', threads (schedule clock (replicate n i) c) = <[i := p']> (threads c)
        ∧ (finished p' = true →
           store (schedule clock (replicate n i) c)
             = final (run clock p [] (store c))
           ∧ log (schedule clock (replicate n i) c)
             = log c ++ map (pair i) (sent (run clock p [] (store c)))).
Proof.
  induction n as [|n IH]; intros c p Hp.
  - exists p. split; [by rewrite list_insert_id|].
    intros Hfin. destruct (finished_run clock p (store c) Hfin) as [-> ->].
    by rewrite app_nil_r.
  - cbn [replicate]. rewrite schedule_cons. unfold advance. rewrite Hp.
    destruct (step clock p (store c)) as [[[p1 st1] out]|] eqn:Es; [|by apply IH].
    destruct (step_run clock p (store c) p1 st1 out Es) as [-> ->].
    destruct (IH {| threads := <[i := p1]> (threads c); store := st1;
                    log := log c ++ map (pair i) out |} p1) as (p' & Ht & Hfin).
    { cbn [threads]. apply list_lookup_insert_eq. by eapply lookup_lt_Some. }
    exists p'. cbn [threads store log] in *.
    rewrite list_insert_insert_eq in Ht. split; [done|].
    intros Hp'. destruct (Hfin Hp') as [-> ->].
    by rewrite map_app, app_assoc.
Qed.

Lemma sent_by_pair i j (out : list Action) :
  map snd (List.filter (λ ia : nat * Action, Nat.eqb ia.1 i) (map (pair j) out))
  = if Nat.eqb j i then out else [].
Proof.
  destruct (Nat.eqb j i) eqn:E; induction out as [|a out IH]; simpl;
    rewrite ?E; simpl; congruence.
Qed.

(** The first of two selections handled in turn commits, the second finds
    no pending row. *)
Lemma selections_in_turn d1 d2 clock1 clock2 u data1 data2 st row :
  getPending st u = Some row →
  let r1 := run clock1 (on_category d1 (Some u) data1) [] st in
  let r2 := run clock2 (on_category d2 (Some u) data2) [] (final r1) in
  length (expense (final r1)) = S (length (expense st))
  ∧ expense (final r2) = expense (final r1)
  ∧ sent r2 = [AnswerCallbackQuery (Some SessionExpired)].
Proof.
  intros Hrow. cbv zeta.
  rewrite <- (run_no_faults clock1 _ [true; true; true; true; true; true])
    by repeat constructor.
  rewrite (on_category_commit d1 clock1 u data1 true true true true [] st row Hrow).
  cbn [final].
  match goal with |- context [run clock2 _ [] ?s] => set (st1 := s) end.
  assert (getPending st1 u = None) as Hgone.
  { unfold getPending, st1. rewrite commit_requests_pending. cbv zeta.
    apply map_lookup_filter_None. left. apply lookup_delete_eq. }
  destruct (on_category_expired d2 clock2 (Some u) data2 [] st1 Hgone)
    as (Hs & _ & He & _).
  split_and!; try done.
  unfold st1. rewrite commit_requests_expense. cbn [db_insert_expense expense].
  rewrite upsert_user_expense, length_app. simpl. lia.
Qed.

(** ** A selection, step by step *)

Lemma iter_follow_return answer n : Nat.iter n (follow answer) Return = Return.
Proof.
  induction n as [|n IH]; [done|].
  change (Nat.iter (S n) (follow answer) Return)
    with (follow answer (Nat.iter n (follow answer) Return)).
  by rewrite IH.
Qed.

Section Stages.
Variables (clock : Z) (d : Dates) (u : string) (data : jsstring).
Variables (urow : UserRow) (row : PendingRow).

Ltac unfold_stage :=
  unfold selection_stage, on_category, getUserCategories, getOrCreateUser;
  change (default ""%string (Some u)) with u;
  cbn [Nat.iter nat_rect follow selection_answers step].

Lemma stage_fetch pending st :
  (db_upsert_user u st).2 = urow →
  step clock (selection_stage d u data urow pending 0) st
  = Some (selection_stage d u data urow pending 1, (db_upsert_user u st).1, []).
Proof. intros <-. unfold_stage. by rewrite exec_upsert_user. Qed.

(** The read decides how the handler goes on. *)
Lemma stage_read pending st :
  step clock (selection_stage d u data urow pending 1) st
  = Some (selection_stage d u data urow (pending_expenses st !! u) 2, st, []).
Proof. by unfold_stage. Qed.

Lemma stage_fetch_again st :
  (db_upsert_user u st).2 = urow →
  step clock (selection_stage d u data urow (Some row) 2) st
  = Some (selection_stage d u data urow (Some row) 3, (db_upsert_user u st).1, []).
Proof. intros <-. unfold_stage. by rewrite exec_upsert_user. Qed.

Lemma stage_insert st :
  step clock (selection_stage d u data urow (Some row) 3) st
  = Some (selection_stage d u data urow (Some row) 4,
          db_insert_expense clock
            {| n_user_id := u_id urow; n_amount := p_amount row;
               n_description := p_description row;
               n_category := js_index (DEFAULT_CATEGORIES ++ custom_of_user (Some urow))
                               (payload_index data) |} st, []).
Proof. by unfold_stage. Qed.

Lemma stage_delete st :
  step clock (selection_stage d u data urow (Some row) 4) st
  = Some (selection_stage d u data urow (Some row) 5, db_delete_pending u st, []).
Proof. by unfold_stage. Qed.

Lemma stage_sweep st :
  step clock (selection_stage d u data urow (Some row) 5) st
  = Some (selection_stage d u data urow (Some row) 6,
          db_delete_pending_before (date_now d - HOUR) st, []).
Proof. by unfold_stage. Qed.

Lemma stage_edit st :
  step clock (selection_stage d u data urow (Some row) 6) st
  = Some (selection_stage d u data urow (Some row) 7, st,
          [EditMessageText
             (saved row (DEFAULT_CATEGORIES ++ custom_of_user (Some urow)) data)]).
Proof. by unfold_stage. Qed.

Lemma stage_answer st :
  step clock (selection_stage d u data urow (Some row) 7) st
  = Some (selection_stage d u data urow (Some row) 8, st,
          [AnswerCallbackQuery None]).
Proof. by unfold_stage. Qed.

Lemma stage_done k :
  (8 ≤ k)%nat → selection_stage d u data urow (Some row) k = Return.
Proof.
  intros Hk. replace k with ((k - 8) + 8)%nat by lia.
  unfold selection_stage. rewrite Nat.iter_add.
  change (Nat.iter 8 _ _) with (selection_stage d u data urow (Some row) 8).
  assert (selection_stage d u data urow (Some row) 8 = Return) as ->
    by by unfold_stage.
  apply iter_follow_return.
Qed.

Lemma stage_expired st :
  step clock (selection_stage d u data urow None 2) st
  = Some (selection_stage d u data urow None 3, st,
          [AnswerCallbackQuery (Some SessionExpired)]).
Proof. by unfold_stage. Qed.

Lemma stage_expired_done k :
  (3 ≤ k)%nat → selection_stage d u data urow None k = Return.
Proof.
  intros Hk. replace k with ((k - 3) + 3)%nat by lia.
  unfold selection_stage. rewrite Nat.iter_add.
  change (Nat.iter 3 _ _) with (selection_stage d u data urow None 3).
  assert (selection_stage d u data urow None 3 = Return) as ->
    by by unfold_stage.
  apply iter_follow_return.
Qed.

(** A handler is done after eight steps when it found the row, after
    three when it did not, and not before. *)
Lemma stage_finished pending k :
  finished (selection_stage d u data urow pending k)
  = match pending with
    | Some _ => (8 <=? k)%nat
    | None => (3 <=? k)%nat
    end.
Proof.
  destruct pending as [row'|].
  - do 8 (destruct k as [|k]; [by unfold_stage|]).
    clear row. unfold selection_stage.
    replace (S (S (S (S (S (S (S (S k))))))))%nat with (k + 8)%nat by lia.
    rewrite Nat.iter_add.
    assert (Nat.iter 8 (follow (@selection_answers urow (Some row')))
              (on_category d (Some u) data) = Return) as -> by by unfold_stage.
    rewrite iter_follow_return. cbn [finished]. symmetry. apply Nat.leb_le. lia.
  - do 3 (destruct k as [|k]; [by unfold_stage|]).
    by rewrite stage_expired_done by lia.
Qed.
End Stages.
(** ** Two selections under any schedule *)

Lemma advance_step clock c i p p' st' out :
  threads c !! i = Some p →
  step clock p (store c) = Some (p', st', out) →
  advance clock c i
  = {| threads := <[i := p']> (threads c); store := st';
       log := log c ++ map (pair i) out |}.
Proof. intros Hp Hs. unfold advance. by rewrite Hp, Hs. Qed.

Lemma advance_finished clock c i p :
  threads c !! i = Some p → finished p = true → advance clock c i = c.
Proof. intros Hp Hf. unfold advance. rewrite Hp. by destruct p. Qed.

Lemma advance_absent clock c i :
  threads c !! i = None → advance clock c i = c.
Proof. intros Hp. unfold advance. by rewrite Hp. Qed.

Lemma sent_by_log j t s l i out :
  sent_by j {| threads := t; store := s; log := l ++ map (pair i) out |}
  = sent_by j {| threads := t; store := s; log := l |}
    ++ if Nat.eqb i j then out else [].
Proof.
  unfold sent_by. cbn [log]. by rewrite List.filter_app, map_app, sent_by_pair.
Qed.

Lemma sent_by_threads j t t' s s' l :
  sent_by j {| threads := t; store := s; log := l |}
  = sent_by j {| threads := t'; store := s'; log := l |}.
Proof. done. Qed.

Lemma upsert_user_row_users u st st' :
  users st' = users st → users_seq st' = users_seq st →
  (db_upsert_user u st').2 = (db_upsert_user u st).2.
Proof.
  intros Hu Hs. unfold db_upsert_user. rewrite Hu, Hs.
  by destruct (users st !! u).
Qed.

Lemma progress_beyond a i j : (2 ≤ i)%nat → progress a i j = a j.
Proof.
  intros Hi. unfold progress. rewrite (proj2 (Nat.ltb_ge i 2)) by done.
  by rewrite andb_false_r.
Qed.

Ltac stage_case lemma :=
  erewrite advance_step; [|reflexivity|apply lemma; try done];
  cbn [threads store log list_insert insert];
  rewrite ?List.filter_app, ?map_app, ?sent_by_pair; cbn [Nat.eqb];
  cbn [db_insert_expense db_delete_pending db_delete_pending_before
       expense pending_expenses users users_seq];
  rewrite ?upsert_user_again, ?upsert_user_pending, ?upsert_user_expense.

Ltac close_case :=
  unfold has_deleted, appended, sent_so_far, DELETE in * |-;
  unfold has_deleted, appended, sent_so_far, DELETE;
  cbn [taken found Nat.leb Nat.eqb andb orb negb] in *;
  rewrite ?andb_false_r, ?andb_true_r, ?orb_false_r, ?orb_true_r, ?app_nil_r in *;
  cbn [orb app] in *;
  split_and!; try done; try lia;
  try (match goal with f : bool |- _ => by destruct f end);
  try (match goal with H : map snd _ = _ |- _ => by rewrite H end);
  try (match goal with
       | H : (db_upsert_user _ ?s).2 = _ |- (db_upsert_user _ _).2 = _ =>
           by rewrite <- H; apply upsert_user_row_users
       end);
  try (by rewrite length_app; cbn [length]; lia);
  try (by apply lookup_delete_eq);
  try (by apply map_lookup_filter_None; left).

Ltac stage_over done_lemma :=
  rewrite (advance_finished _ _ _ Return);
    [|cbn [threads lookup list_lookup]; by rewrite done_lemma by lia|done];
  rewrite !(done_lemma _ _ _ _ _) by lia;
  rewrite ?(done_lemma _ _ _ _ _ _) by lia;
  close_case.

Section TwoSelections.
Variables (clock : Z) (d : Dates) (u : string) (data1 data2 : jsstring).
Variables (st : Store) (row : PendingRow).

(** The invariant is kept by every step of every handler. *)
Lemma selections_invariant_step a c i :
  selections_invariant d u data1 data2 st row a c →
  selections_invariant d u data1 data2 st row (progress a i) (advance clock c i).
Proof.
  unfold selections_invariant, sent_by. cbv zeta.
  set (urow := (db_upsert_user u st).2).
  set (categories := DEFAULT_CATEGORIES ++ custom_of_user (Some urow)).
  intros (Ht & Hu & Hp & He & Hs0 & Hs1).
  destruct i as [|[|i]].
  - unfold deleted in *. unfold progress. cbn [Nat.eqb Nat.ltb Nat.leb andb].
    unfold deleted.
    destruct (a 0%nat) as [k f] eqn:E0. cbn [taken found] in *.
    destruct c as [ts s l]. cbn [threads store log] in *. subst ts.
    set (other := has_deleted (a 1%nat)) in *.
    set (appended1 := appended (a 1%nat)) in *.
    set (sent1 := sent_so_far row categories data2 (a 1%nat)) in *.
    clearbody other appended1 sent1.
    destruct k as [|[|[|[|[|[|[|[|k]]]]]]]]; cbn [Nat.eqb] in *.
    + stage_case stage_fetch; close_case.
    + stage_case stage_read. rewrite Hp. destruct other; close_case.
    + destruct f; [stage_case stage_fetch_again|stage_case stage_expired];
        close_case.
    + destruct f; [stage_case stage_insert; close_case
                  |stage_over stage_expired_done].
    + destruct f; [stage_case stage_delete; close_case
                  |stage_over stage_expired_done].
    + destruct f; [stage_case stage_sweep; close_case
                  |stage_over stage_expired_done].
    + destruct f; [stage_case stage_edit; close_case
                  |stage_over stage_expired_done].
    + destruct f; [stage_case stage_answer; close_case
                  |stage_over stage_expired_done].
    + destruct f; [stage_over stage_done|stage_over stage_expired_done].
  - unfold deleted in *. unfold progress. cbn [Nat.eqb Nat.ltb Nat.leb andb].
    unfold deleted.
    destruct (a 1%nat) as [k f] eqn:E1. cbn [taken found] in *.
    destruct c as [ts s l]. cbn [threads store log] in *. subst ts.
    set (other := has_deleted (a 0%nat)) in *.
    set (appended0 := appended (a 0%nat)) in *.
    set (sent0 := sent_so_far row categories data1 (a 0%nat)) in *.
    clearbody other appended0 sent0.
    destruct k as [|[|[|[|[|[|[|[|k]]]]]]]]; cbn [Nat.eqb] in *.
    + stage_case stage_fetch; close_case.
    + stage_case stage_read. rewrite Hp. destruct other; close_case.
    + destruct f; [stage_case stage_fetch_again|stage_case stage_expired];
        close_case.
    + destruct f; [stage_case stage_insert; close_case
                  |stage_over stage_expired_done].
    + destruct f; [stage_case stage_delete; close_case
                  |stage_over stage_expired_done].
    + destruct f; [stage_case stage_sweep; close_case
                  |stage_over stage_expired_done].
    + destruct f; [stage_case stage_edit; close_case
                  |stage_over stage_expired_done].
    + destruct f; [stage_case stage_answer; close_case
                  |stage_over stage_expired_done].
    + destruct f; [stage_over stage_done|stage_over stage_expired_done].
  - rewrite advance_absent by (rewrite Ht; done).
    rewrite !progress_beyond by lia. unfold deleted.
    rewrite !progress_beyond by lia. done.
Qed.

Lemma selections_invariant_schedule order : ∀ a c,
  selections_invariant d u data1 data2 st row a c →
  selections_invariant d u data1 data2 st row
    (fold_left progress order a) (schedule clock order c).
Proof.
  induction order as [|i order IH]; intros a c Hinv; [done|].
  cbn [fold_left]. rewrite schedule_cons. by apply IH, selections_invariant_step.
Qed.

Lemma selections_invariant_start :
  startsWith (str "cat_") data1 = true →
  startsWith (str "cat_") data2 = true →
  getPending st u = Some row →
  selections_invariant d u data1 data2 st row not_started
    (two_selections d u data1 data2 st).
Proof.
  intros H1 H2 Hrow. unfold selections_invariant, two_selections. cbv zeta.
  cbn [threads store log handle]. rewrite !on_callback_category by done.
  split_and!; try done. cbn. lia.
Qed.
End TwoSelections.

(** *** How far the handlers come under a schedule *)

Lemma steps_of_cons i x order :
  steps_of i (x :: order) = ((if Nat.eqb i x then 1 else 0) + steps_of i order)%nat.
Proof. unfold steps_of. cbn [List.filter]. by destruct (Nat.eqb i x). Qed.

Lemma steps_of_app i order1 order2 :
  steps_of i (order1 ++ order2) = (steps_of i order1 + steps_of i order2)%nat.
Proof. unfold steps_of. by rewrite List.filter_app, length_app. Qed.

Lemma progress_self a i :
  (i < 2)%nat →
  progress a i i
  = {| taken := S (taken (a i));
       found := if (taken (a i) =? 1)%nat then negb (deleted a) else found (a i) |}.
Proof.
  intros Hi. unfold progress.
  by rewrite Nat.eqb_refl, (proj2 (Nat.ltb_lt i 2)) by done.
Qed.

Lemma progress_other a i j : j ≠ i → progress a i j = a j.
Proof. intros Hne. unfold progress. by rewrite (proj2 (Nat.eqb_neq j i)). Qed.

Lemma progress_taken a x i :
  (i < 2)%nat →
  taken (progress a x i) = ((if Nat.eqb i x then 1 else 0) + taken (a i))%nat.
Proof.
  intros Hi. destruct (Nat.eqb_spec i x) as [<-|Hne].
  - by rewrite progress_self.
  - by rewrite progress_other.
Qed.

Lemma progress_found a x i :
  (2 ≤ taken (a i))%nat → found (progress a x i) = found (a i).
Proof.
  intros Hi. unfold progress.
  destruct ((i =? x)%nat && (x <? 2)%nat) eqn:E; [|done].
  apply andb_true_iff in E as [<-%Nat.eqb_eq _]. cbn [found].
  by rewrite (proj2 (Nat.eqb_neq (taken (a i)) 1)) by lia.
Qed.

Lemma schedule_taken order : ∀ a i,
  (i < 2)%nat →
  taken (fold_left progress order a i) = (taken (a i) + steps_of i order)%nat.
Proof.
  induction order as [|x order IH]; intros a i Hi; cbn [fold_left].
  - unfold steps_of. simpl. lia.
  - rewrite IH, progress_taken, steps_of_cons by done. lia.
Qed.

(** Once a handler has read, what it found is settled. *)
Lemma schedule_found order : ∀ a i,
  (i < 2)%nat → (2 ≤ taken (a i))%nat →
  found (fold_left progress order a i) = found (a i).
Proof.
  induction order as [|x order IH]; intros a i Hi Ht; cbn [fold_left]; [done|].
  rewrite IH, progress_found; try done.
  rewrite progress_taken by done. lia.
Qed.

Lemma has_deleted_taken x : has_deleted x = true → (5 ≤ taken x)%nat ∧ found x = true.
Proof.
  unfold has_deleted, DELETE. intros [Hf Ht%Nat.leb_le]%andb_true_iff. done.
Qed.

Lemma deleted_of a i j :
  (i + j = 1)%nat → deleted a = has_deleted (a i) || has_deleted (a j).
Proof.
  intros Hij. unfold deleted.
  destruct i as [|[|i]], j as [|[|j]]; try lia; [done|apply orb_comm].
Qed.


Lemma found_or_late_start : found_or_late not_started.
Proof. by intros i j _. Qed.

Lemma found_or_late_step a x : found_or_late a → found_or_late (progress a x).
Proof.
  intros Hq i j Hij.
  destruct (le_lt_dec 2 x) as [Hx|Hx].
  { rewrite !progress_beyond by done. by apply Hq. }
  assert (i < 2 ∧ j < 2)%nat as [Hi Hj] by lia.
  destruct (Nat.eqb_spec j x) as [<-|Hjx].
  - rewrite progress_self by done. rewrite progress_other by lia. cbn [taken found].
    destruct (Nat.eqb_spec (taken (a j)) 1) as [E1|E1].
    + intros Hdel%negb_false_iff. split; [lia|].
      rewrite (deleted_of a i j Hij) in Hdel.
      apply orb_true_iff in Hdel as [Hdel|Hdel]; [done|].
      apply has_deleted_taken in Hdel. lia.
    + intros Hf. destruct (Hq i j Hij Hf) as [Ht Hd]. split; [lia|done].
  - assert (x = i) as -> by lia.
    rewrite progress_self by done. rewrite progress_other by lia.
    intros Hf. destruct (Hq i j Hij Hf) as [Ht Hd]. split; [done|].
    destruct (has_deleted_taken _ Hd) as [Hti Hfi].
    unfold has_deleted, DELETE. cbn [taken found].
    rewrite (proj2 (Nat.eqb_neq (taken (a i)) 1)) by lia. rewrite Hfi.
    apply Nat.leb_le. lia.
Qed.

Lemma found_or_late_schedule order : ∀ a,
  found_or_late a → found_or_late (fold_left progress order a).
Proof.
  induction order as [|x order IH]; intros a Hq; [done|].
  cbn [fold_left]. by apply IH, found_or_late_step.
Qed.

(** A handler that reads after the other one deleted does not find the
    row. *)
Lemma schedule_late order : ∀ a i j,
  (i + j = 1)%nat →
  has_deleted (a i) = true → (taken (a j) < 2)%nat →
  (2 ≤ taken (fold_left progress order a j))%nat →
  found (fold_left progress order a j) = false.
Proof.
  induction order as [|x order IH]; intros a i j Hij Hd Ht Hend; cbn [fold_left] in *.
  { lia. }
  assert (i < 2 ∧ j < 2)%nat as [Hi Hj] by lia.
  destruct (has_deleted_taken _ Hd) as [Hti Hfi].
  assert (has_deleted (progress a x i) = true) as Hd'.
  { destruct (Nat.eqb_spec i x) as [<-|Hne].
    - rewrite progress_self by done. unfold has_deleted, DELETE. cbn [taken found].
      rewrite (proj2 (Nat.eqb_neq (taken (a i)) 1)) by lia. rewrite Hfi.
      apply Nat.leb_le. lia.
    - by rewrite progress_other. }
  destruct (Nat.eqb_spec j x) as [<-|Hne].
  - destruct (Nat.eqb_spec (taken (a j)) 1) as [E1|E1].
    + rewrite schedule_found; [| done |rewrite progress_self by done; cbn; lia].
      rewrite progress_self by done. cbn [found].
      rewrite (proj2 (Nat.eqb_eq _ _) E1), (deleted_of a i j Hij), Hd. done.
    + apply (IH _ i j); try done.
      rewrite progress_self by done. cbn [taken]. lia.
  - apply (IH _ i j); try done. by rewrite progress_other.
Qed.

(** Every schedule that lets both handlers read is of one of three
    kinds. *)
Lemma schedule_kinds order :
  (2 ≤ steps_of 0 order)%nat → (2 ≤ steps_of 1 order)%nat →
  both_read_before_delete order
  ∨ deleted_before_read 0 1 order ∨ deleted_before_read 1 0 order.
Proof.
  induction order as [|x order IH] using rev_ind; [unfold steps_of; simpl; lia|].
  rewrite !steps_of_app, !steps_of_cons. unfold steps_of at 2 4. cbn [List.filter length].
  intros H0 H1.
  destruct (le_lt_dec 2 (steps_of 0 order)) as [H0'|H0'];
    [destruct (le_lt_dec 2 (steps_of 1 order)) as [H1'|H1']|].
  - destruct (IH H0' H1') as [(b & a & -> & Hb)|[(b & a & -> & Hb)|(b & a & -> & Hb)]].
    + left. exists b, (a ++ [x]). by rewrite app_assoc.
    + right. left. exists b, (a ++ [x]). by rewrite app_assoc.
    + right. right. exists b, (a ++ [x]). by rewrite app_assoc.
  - destruct (Nat.eqb_spec 1 x) as [<-|Hne]; [|lia]. cbn [Nat.eqb] in *.
    destruct (le_lt_dec DELETE (steps_of 0 order)) as [Hd|Hd].
    + right. left. exists order, [1%nat]. unfold READ. split_and!; try done.
    + left. exists (order ++ [1%nat]), []. rewrite app_nil_r.
      rewrite !steps_of_app. unfold steps_of at 2 4 6 8. cbn [List.filter Nat.eqb length].
      unfold READ, DELETE in *. split_and!; try done; lia.
  - destruct (Nat.eqb_spec 0 x) as [<-|Hne]; [|lia]. cbn [Nat.eqb] in *.
    destruct (le_lt_dec DELETE (steps_of 1 order)) as [Hd|Hd].
    + right. right. exists order, [0%nat]. unfold READ. split_and!; try done.
    + left. exists (order ++ [0%nat]), []. rewrite app_nil_r.
      rewrite !steps_of_app. unfold steps_of at 2 4 6 8. cbn [List.filter Nat.eqb length].
      unfold READ, DELETE in *. split_and!; try done; lia.
Qed.

(** Where two selections end under a schedule that lets both finish. *)
Lemma selections_end clock d u data1 data2 st row order :
  startsWith (str "cat_") data1 = true →
  startsWith (str "cat_") data2 = true →
  getPending st u = Some row →
  let c := schedule clock order (two_selections d u data1 data2 st) in
  let a := fold_left progress order not_started in
  all_finished c = true →
  selections_invariant d u data1 data2 st row a c
  ∧ found_or_late a
  ∧ ∀ i, (i < 2)%nat →
         taken (a i) = steps_of i order
         ∧ (3 ≤ taken (a i))%nat
         ∧ (found (a i) = true → 8 ≤ taken (a i))%nat.
Proof.
  intros H1 H2 Hrow. cbv zeta. intros Hfin.
  pose proof (selections_invariant_schedule clock d u data1 data2 st row order _ _
                (selections_invariant_start d u data1 data2 st row H1 H2 Hrow))
    as Hinv.
  split; [done|]. split; [apply found_or_late_schedule, found_or_late_start|].
  destruct Hinv as (Ht & _). unfold all_finished in Hfin. rewrite Ht in Hfin.
  cbn [forallb] in Hfin. rewrite !stage_finished in Hfin.
  apply andb_true_iff in Hfin as [Hf0 [Hf1 _]%andb_true_iff].
  intros i Hi. rewrite schedule_taken by done. cbn [not_started taken Nat.add].
  split; [done|].
  pose proof (schedule_taken order not_started i Hi) as Hti.
  cbn [not_started taken Nat.add] in Hti. rewrite <- Hti.
  destruct i as [|[|i]]; [| |lia].
  - revert Hf0. destruct (found (fold_left progress order not_started 0%nat));
      intros Hf0%Nat.leb_le; split; try done; lia.
  - revert Hf1. destruct (found (fold_left progress order not_started 1%nat));
      intros Hf1%Nat.leb_le; split; try done; lia.
Qed.

(** C2, as amended.  Two selections of one user with one pending row,
    under any schedule that lets both handlers finish.  The read of the
    pending row and its delete are separate requests of a handler, and
    what happens turns on their order alone:
    - when both handlers read the row before either deletes it, both
      append an expense and both confirm;
    - when one handler deletes the row before the other reads it, exactly
      that one appends an expense and confirms, and the other reports
      that the session expired;
    - and every schedule is of one of these kinds. *)
Theorem two_selections_outcome clock d u data1 data2 st row order :
  startsWith (str "cat_") data1 = true →
  startsWith (str "cat_") data2 = true →
  getPending st u = Some row →
  let c := schedule clock order (two_selections d u data1 data2 st) in
  let confirmed := λ i : nat,
    [ EditMessageText
        (saved row (effective_categories st u) (if Nat.eqb i 0 then data1 else data2));
      AnswerCallbackQuery None ] in
  all_finished c = true →
  (both_read_before_delete order →
     length (expense (store c)) = S (S (length (expense st)))
     ∧ sent_by 0 c = confirmed 0%nat ∧ sent_by 1 c = confirmed 1%nat)
  ∧ (∀ i j, (i + j = 1)%nat → deleted_before_read i j order →
       length (expense (store c)) = S (length (expense st))
       ∧ sent_by i c = confirmed i
       ∧ sent_by j c = [AnswerCallbackQuery (Some SessionExpired)])
  ∧ (both_read_before_delete order
     ∨ deleted_before_read 0 1 order ∨ deleted_before_read 1 0 order).
Proof.
  intros H1 H2 Hrow. cbv zeta. intros Hfin.
  destruct (selections_end clock d u data1 data2 st row order H1 H2 Hrow Hfin)
    as ((_ & _ & _ & He & Hs0 & Hs1) & Hlate & Hend).
  rewrite upsert_user_row_custom in Hs0, Hs1.
  fold (effective_categories st u) in Hs0, Hs1.
  set (a := fold_left progress order not_started) in *.
  destruct (Hend 0%nat ltac:(lia)) as (Ht0 & Hthree0 & Hfull0).
  destruct (Hend 1%nat ltac:(lia)) as (Ht1 & Hthree1 & Hfull1).
  assert (∀ i, (i < 2)%nat → found (a i) = true →
               appended (a i) = 1%nat
               ∧ sent_so_far row (effective_categories st u)
                   (if Nat.eqb i 0 then data1 else data2) (a i)
                 = [ EditMessageText
                       (saved row (effective_categories st u)
                          (if Nat.eqb i 0 then data1 else data2));
                     AnswerCallbackQuery None ]) as Hcommit.
  { intros i Hi Hf. destruct (Hend i Hi) as (_ & _ & Hfull).
    specialize (Hfull Hf). unfold appended, sent_so_far. rewrite Hf.
    rewrite !(proj2 (Nat.leb_le _ _)) by lia. done. }
  assert (∀ i, (i < 2)%nat → found (a i) = false →
               appended (a i) = 0%nat
               ∧ ∀ cats data, sent_so_far row cats data (a i)
                              = [AnswerCallbackQuery (Some SessionExpired)])
    as Hexpire.
  { intros i Hi Hf. destruct (Hend i Hi) as (_ & Hthree & _).
    unfold appended, sent_so_far. rewrite Hf. cbn [andb].
    rewrite (proj2 (Nat.leb_le 3 _)) by lia. done. }
  split_and!.
  - intros (before & after & -> & Hb0 & Hb1). unfold READ, DELETE in *.
    assert (∀ i, (i < 2)%nat → found (a i) = true) as Hfound.
    { intros i Hi. unfold a. rewrite fold_left_app.
      pose proof (schedule_taken before not_started) as Htb.
      cbn [not_started taken Nat.add] in Htb.
      rewrite schedule_found by (rewrite ?Htb; destruct i as [|[|i]]; lia).
      destruct (found (fold_left progress before not_started i)) eqn:Hf; [done|].
      exfalso.
      destruct (found_or_late_schedule before _ found_or_late_start (1 - i)%nat i)
        as [_ Hd]; [lia|done|].
      apply has_deleted_taken in Hd as [Hd _]. rewrite Htb in Hd by lia.
      destruct i as [|[|i]]; cbn in Hd; lia. }
    destruct (Hcommit 0%nat ltac:(lia) (Hfound 0%nat ltac:(lia))) as [Ha0 Hc0].
    destruct (Hcommit 1%nat ltac:(lia) (Hfound 1%nat ltac:(lia))) as [Ha1 Hc1].
    cbn [Nat.eqb] in Hc0, Hc1.
    rewrite He, Hs0, Hs1, Ha0, Ha1, Hc0, Hc1. split_and!; try done. lia.
  - intros i j Hij (before & after & -> & Hbi & Hbj). unfold READ, DELETE in *.
    assert (i < 2 ∧ j < 2)%nat as [Hi Hj] by lia.
    pose proof (schedule_taken before not_started) as Htb.
    cbn [not_started taken Nat.add] in Htb.
    assert (has_deleted (fold_left progress before not_started i) = true) as Hdel.
    { unfold has_deleted, DELETE. rewrite Htb by done.
      rewrite (proj2 (Nat.leb_le _ _)) by lia. rewrite andb_true_r.
      destruct (found (fold_left progress before not_started i)) eqn:Hf; [done|].
      exfalso.
      destruct (found_or_late_schedule before _ found_or_late_start j i)
        as [_ Hd]; [lia|done|].
      apply has_deleted_taken in Hd as [Hd _]. rewrite Htb in Hd by lia. lia. }
    assert (found (a i) = true) as Hfi.
    { unfold a. rewrite fold_left_app.
      rewrite schedule_found by (rewrite ?Htb; lia).
      by apply has_deleted_taken in Hdel as [_ ->]. }
    assert (found (a j) = false) as Hfj.
    { unfold a. rewrite fold_left_app.
      apply (schedule_late after _ i j Hij Hdel); [rewrite Htb by done; lia|].
      rewrite <- fold_left_app. fold a.
      destruct (Hend j Hj) as (_ & Hthree & _). lia. }
    destruct (Hcommit i Hi Hfi) as [Hai Hci].
    destruct (Hexpire j Hj Hfj) as [Haj Hcj].
    destruct i as [|[|i]], j as [|[|j]]; try lia; cbn [Nat.eqb] in *.
    + rewrite He, Hs0, Hs1, Hai, Haj, Hci, Hcj. split_and!; try done. lia.
    + rewrite He, Hs0, Hs1, Hai, Haj, Hci, Hcj. split_and!; try done. lia.
  - apply schedule_kinds; lia.
Qed.

(** The first handler deletes the row between the fetch and the read of
    the second: the requests of the two overlap, and still only the first
    commits. *)
Lemma two_selections_outcome_witness :
  let order := [0; 1; 0; 0; 0; 0; 1; 1; 0; 0; 0]%nat in
  let c := schedule 0 order
             (two_selections sample_dates "42" (str "cat_0") (str "cat_1")
                sample_store) in
  all_finished c = true
  ∧ deleted_before_read 0 1 order
  ∧ length (expense (store c)) = 1%nat
  ∧ sent_by 1 c = [AnswerCallbackQuery (Some SessionExpired)].
Proof.
  cbv zeta.
  assert (deleted_before_read 0 1 [0; 1; 0; 0; 0; 0; 1; 1; 0; 0; 0]%nat) as Hkind.
  { exists [0; 1; 0; 0; 0; 0]%nat, [1; 1; 0; 0; 0]%nat.
    split; [reflexivity|]. split; vm_compute; lia. }
  split; [reflexivity|]. split; [exact Hkind|].
  destruct (two_selections_outcome 0 sample_dates "42" (str "cat_0") (str "cat_1")
              sample_store sample_pending [0; 1; 0; 0; 0; 0; 1; 1; 0; 0; 0]%nat)
    as (_ & Hone & _); [reflexivity..|].
  destruct (Hone 0%nat 1%nat eq_refl Hkind) as (Hl & _ & Hs).
  split; [exact Hl|exact Hs].
Defined.

(** C2, as stated, fails: when both handlers read the pending row before
    either deletes it, both append an expense. *)
Lemma overlapping_selections_commit_twice :
  let order := [0; 0; 1; 1; 0; 0; 0; 0; 0; 0; 1; 1; 1; 1; 1; 1]%nat in
  let c := schedule 0 order
             (two_selections sample_dates "42" (str "cat_0") (str "cat_1")
                sample_store) in
  all_finished c = true
  ∧ length (expense (store c)) = 2%nat
  ∧ ¬ at_most_one_commit 0 sample_dates "42" (str "cat_0") (str "cat_1")
        sample_store.
Proof.
  cbv zeta. split; [reflexivity|]. split; [reflexivity|].
  intros H.
  specialize (H [0; 0; 1; 1; 0; 0; 0; 0; 0; 0; 1; 1; 1; 1; 1; 1]%nat).
  cbv zeta in H. vm_compute in H. specialize (H eq_refl). discriminate H.
Qed.
(** ** The sweep *)

Lemma replicate_snoc {A} n (x : A) : replicate (S n) x = replicate n x ++ [x].
Proof. induction n as [|n IH]; [done|]. cbn [replicate app] in *. by rewrite <- IH. Qed.

(** A selection that finds the pending row, handled alone, step by
    step. *)
Lemma one_selection_steps clock d u data st row n :
  startsWith (str "cat_") data = true →
  getPending st u = Some row →
  let urow := (db_upsert_user u st).2 in
  let categories := effective_categories st u in
  let e := {| n_user_id := u_id urow; n_amount := p_amount row;
              n_description := p_description row;
              n_category := js_index categories (payload_index data) |} in
  let c := schedule clock (replicate n 0%nat) (one_selection d u data st) in
  threads c = [selection_stage d u data urow (Some row) n]
  ∧ store c = selection_store clock d u e st n
  ∧ sent_by 0 c
    = sent_so_far row categories data {| taken := n; found := true |}.
Proof.
  intros Hcat Hrow. cbv zeta. unfold effective_categories.
  rewrite <- (upsert_user_row_custom u st).
  set (urow := (db_upsert_user u st).2).
  set (e := {| n_user_id := u_id urow |}).
  induction n as [|n (Ht & Hs & Hl)].
  { cbn [replicate schedule fold_left one_selection threads store handle].
    by rewrite on_callback_category. }
  rewrite replicate_snoc, schedule_app. cbn [schedule fold_left].
  set (c := schedule clock (replicate n 0%nat) (one_selection d u data st)) in *.
  unfold sent_by in *. destruct c as [ts s l]. cbn [threads store log] in *.
  subst ts s.
  assert ((db_upsert_user u (db_upsert_user u st).1).2 = urow) as Hagain
    by by rewrite upsert_user_again.
  assert (pending_expenses (db_upsert_user u st).1 !! u = Some row) as Hrow1
    by by rewrite upsert_user_pending.
  destruct n as [|[|[|[|[|[|[|[|n]]]]]]]];
    cbn [selection_store] in *; unfold commit_requests.
  - stage_case stage_fetch; close_case.
  - stage_case stage_read. unfold getPending in Hrow. rewrite Hrow. close_case.
  - stage_case stage_fetch_again; close_case.
  - stage_case stage_insert; close_case.
  - stage_case stage_delete; close_case.
  - stage_case stage_sweep; close_case.
  - stage_case stage_edit; close_case.
  - stage_case stage_answer; close_case.
  - stage_over stage_done.
Qed.

(** X25: when a selection reaches its sweep and the sweep request
    succeeds, every pending row older than one hour, of whichever user, is
    gone afterwards; and whether the sweep request succeeds or fails
    changes neither the expense written nor what the user is shown.  The
    handler waits for the answer of the sweep together with those of the
    append and the delete: after five steps of the handler the expense is
    in the ledger and the pending row is deleted, and nothing has been
    sent yet; and whenever the handler has sent anything, the sweep has
    been served. *)
Theorem sweep_clears_stale_rows d clock u data (ok3 ok4 ok5 : bool) rest st row :
  startsWith (str "cat_") data = true →
  getPending st u = Some row →
  let go := λ ok6, run clock (handle d (CallbackQuery (Some u) data))
                     (true :: true :: ok3 :: ok4 :: ok5 :: ok6 :: rest) st in
  let after := λ n, schedule clock (replicate n 0%nat) (one_selection d u data st) in
  (∀ v old, getPending st v = Some old →
            (p_created_at old < date_now d - HOUR)%Z →
            getPending (final (go true)) v = None)
  ∧ (∀ ok6, expense (final (go ok6)) = expense (final (go true))
            ∧ sent (go ok6) = sent (go true)
            ∧ threw (go ok6) = false)
  ∧ (length (expense (store (after 5%nat))) = S (length (expense st))
     ∧ getPending (store (after 5%nat)) u = None
     ∧ sent_by 0 (after 5%nat) = [])
  ∧ (∀ n, sent_by 0 (after n) ≠ [] →
          ∀ v old, getPending st v = Some old →
                   (p_created_at old < date_now d - HOUR)%Z →
                   getPending (store (after n)) v = None).
Proof.
  intros Hcat Hrow. cbv zeta.
  assert (∀ ok5' e v old,
            getPending st v = Some old →
            (p_created_at old < date_now d - HOUR)%Z →
            pending_expenses
              (commit_requests clock d u e true ok5' true (db_upsert_user u st).1)
              !! v = None) as Hswept.
  { intros ok5' e v old Hv Hold. unfold getPending in *.
    rewrite commit_requests_pending, upsert_user_pending. cbv zeta.
    apply map_lookup_filter_None. right. intros x Hx. simpl.
    assert (x = old) as ->; [|lia].
    destruct ok5'; [|congruence].
    apply lookup_delete_Some in Hx as [_ Hx]. congruence. }
  split; [|split; [|split]].
  - intros v old Hv Hold. cbn [handle]. rewrite on_callback_category by done.
    rewrite (on_category_commit d clock u data ok3 ok4 ok5 true rest st row Hrow).
    cbn [final]. unfold getPending in *.
    rewrite commit_requests_pending, upsert_user_pending. cbv zeta.
    apply map_lookup_filter_None. right. intros x Hx. simpl.
    assert (x = old) as ->; [|lia].
    destruct ok5; [|congruence].
    apply lookup_delete_Some in Hx as [_ Hx]. congruence.
  - intros ok6. cbn [handle]. rewrite on_callback_category by done.
    rewrite !(on_category_commit d clock u data ok3 ok4 ok5 _ rest st row Hrow).
    cbn [final sent threw]. by rewrite !commit_requests_expense.
  - destruct (one_selection_steps clock d u data st row 5 Hcat Hrow)
      as (_ & -> & ->).
    unfold getPending.
    cbn [selection_store db_delete_pending db_insert_expense expense
         pending_expenses].
    rewrite upsert_user_expense, length_app. cbn [length].
    split_and!; [lia|apply lookup_delete_eq|done].
  - intros n. destruct (one_selection_steps clock d u data st row n Hcat Hrow)
      as (_ & -> & ->).
    intros Hsent v old Hv Hold. unfold getPending.
    do 6 (destruct n as [|n]; [done|]). cbn [selection_store].
    by apply (Hswept true _ v old).
Qed.

(** The stale row of user 7 goes when user 42 selects. *)
Lemma sweep_clears_stale_rows_witness :
  let go := λ ok6, run 0 (handle sample_dates
                            (CallbackQuery (Some "42"%string) (str "cat_0")))
                     [true; true; true; true; true; ok6] sample_store in
  is_Some (getPending sample_store "7")
  ∧ getPending (final (go true)) "7" = None
  ∧ sent (go false) = sent (go true).
Proof.
  split; [by eexists|].
  destruct (sweep_clears_stale_rows sample_dates 0 "42" (str "cat_0")
              true true true [] sample_store sample_pending)
    as (Hgone & Hsame & _); [reflexivity|reflexivity|].
  split.
  - apply (Hgone "7"%string
             {| p_amount := Some (number_of_hundredths 100);
                p_description := str "tea"; p_created_at := 5 |});
      [reflexivity|vm_compute; reflexivity].
  - apply (Hsame false).
Defined.

(** C5: the sweep does not run in the background, against the comment
    that announces it ("in background (fire and forget)").  User 42
    selects a category.  After five steps of the handler the expense is in
    the ledger and the pending row of user 42 is deleted, the stale row of
    user 7 is still there and nothing has been sent; the sixth step is the
    sweep, and only the seventh sends the confirmation. *)
Lemma confirmation_waits_for_sweep :
  let after := λ n, schedule 0 (replicate n 0%nat)
                      (one_selection sample_dates "42" (str "cat_0") sample_store) in
  (length (expense (store (after 5%nat))) = 1%nat
   ∧ getPending (store (after 5%nat)) "42" = None
   ∧ is_Some (getPending (store (after 5%nat)) "7")
   ∧ sent_by 0 (after 5%nat) = [])
  ∧ (getPending (store (after 6%nat)) "7" = None
     ∧ sent_by 0 (after 6%nat) = [])
  ∧ sent_by 0 (after 7%nat)
    = [ EditMessageText
          (ExpenseSaved (Some (number_of_hundredths 5000)) (str "lunch")
             (Some ([0xD83C; 0xDF54] ++ str " Food"))) ]
  ∧ ¬ sweep_in_background 0 sample_dates "42" (str "cat_0") sample_store.
Proof.
  cbv zeta. split; [|split; [|split]].
  - split_and!; try reflexivity. by eexists.
  - split; reflexivity.
  - reflexivity.
  - intros H. specialize (H 5%nat). cbv zeta in H. by apply H.
Qed.

(** ** The category registry *)

Lemma update_custom_lookup u cats st :
  is_Some (users st !! u) →
  custom_categories (db_update_custom u cats st) u = cats.
Proof.
  intros [row Hrow]. unfold custom_categories, db_update_custom. cbn [users].
  by rewrite lookup_alter_eq, Hrow.
Qed.


Lemma upsert_user_is_Some u st : is_Some (users (db_upsert_user u st).1 !! u).
Proof. rewrite upsert_user_lookup. by eexists. Qed.

(** What [/add] does with a label that is not empty when its requests
    succeed. *)
Lemma cmd_add_run clock u text st :
  add_args text ≠ [] →
  run clock (cmd_add (Some u) text) [] st
  = if bool_decide (add_args text ∈ effective_categories st u)
    then {| final := (db_upsert_user u st).1;
            sent := [Reply CategoryAlreadyExists];
            threw := false |}
    else {| final := db_update_custom u (custom_categories st u ++ [add_args text])
                       (db_upsert_user u st).1;
            sent := [Reply (CategoryAdded (add_args text))];
            threw := false |}.
Proof.
  intros Hne. unfold cmd_add, getUserCategories, getOrCreateUser.
  destruct (add_args text) as [|c label] eqn:E; [done|]. cbv zeta.
  rewrite run_call. cbn [hd tl]. rewrite exec_upsert_user. cbn [fst snd].
  rewrite run_call. cbn [hd tl]. rewrite exec_upsert_user, upsert_user_again.
  cbn [fst snd]. rewrite upsert_user_row_custom.
  unfold effective_categories.
  destruct (bool_decide (c :: label ∈ DEFAULT_CATEGORIES ++ custom_categories st u));
    [done|].
  by rewrite run_call.
Qed.

Lemma cmd_add_refuses clock u text st :
  add_args text ≠ [] →
  add_args text ∈ effective_categories st u →
  sent (run clock (cmd_add (Some u) text) [] st) = [Reply CategoryAlreadyExists]
  ∧ custom_categories (final (run clock (cmd_add (Some u) text) [] st)) u
    = custom_categories st u.
Proof.
  intros Hne Hin. rewrite cmd_add_run by done.
  rewrite bool_decide_eq_true_2 by done. cbn [final sent].
  by rewrite upsert_user_custom.
Qed.

Lemma cmd_add_accepts clock u text st :
  add_args text ≠ [] →
  add_args text ∉ effective_categories st u →
  sent (run clock (cmd_add (Some u) text) [] st)
    = [Reply (CategoryAdded (add_args text))]
  ∧ custom_categories (final (run clock (cmd_add (Some u) text) [] st)) u
    = custom_categories st u ++ [add_args text].
Proof.
  intros Hne Hnotin. rewrite cmd_add_run by done.
  rewrite bool_decide_eq_false_2 by done. cbn [final sent].
  split; [done|]. apply update_custom_lookup, upsert_user_is_Some.
Qed.

(** [/add] without a label shows its usage and asks the store
    nothing. *)
Lemma cmd_add_usage clock u text faults st :
  add_args text = [] →
  run clock (cmd_add (Some u) text) faults st
  = {| final := st; sent := [Reply AddUsage]; threw := false |}.
Proof. intros E. unfold cmd_add. by rewrite E. Qed.

(** C7, as amended.  The label [/add] works with is the text after the
    command with its runs of white space turned into single spaces and
    trimmed (so it is its own trimmed form).  When the label is empty,
    [/add] shows its usage and leaves the store as it is, whatever the
    store would answer.  When it is not, [/add] refuses it and leaves the
    custom categories as they are if it equals an entry of the current
    effective list, and appends it to the custom categories otherwise, so
    that adding it a second time is refused. *)
Theorem add_category d clock u text st :
  let label := add_args text in
  let add := handle d (CommandMessage CmdAdd (Some u) text) in
  let r := run clock add [] st in
  let r2 := run clock add [] (final r) in
  trim label = label
  ∧ (label = [] →
     ∀ faults, run clock add faults st
               = {| final := st; sent := [Reply AddUsage]; threw := false |})
  ∧ (label ≠ [] → label ∈ effective_categories st u →
     sent r = [Reply CategoryAlreadyExists]
     ∧ custom_categories (final r) u = custom_categories st u)
  ∧ (label ≠ [] → label ∉ effective_categories st u →
     sent r = [Reply (CategoryAdded label)]
     ∧ custom_categories (final r) u = custom_categories st u ++ [label]
     ∧ sent r2 = [Reply CategoryAlreadyExists]
     ∧ custom_categories (final r2) u = custom_categories (final r) u).
Proof.
  cbv zeta. cbn [handle]. split; [apply add_args_trimmed|]. split_and!.
  - intros E faults. by apply cmd_add_usage.
  - by apply cmd_add_refuses.
  - intros Hne Hnotin.
    destruct (cmd_add_accepts clock u text st Hne Hnotin) as [Hs Hc].
    split_and!; try done; apply cmd_add_refuses; try done;
      unfold effective_categories; rewrite Hc; set_solver.
Qed.

(** A label with runs of white space, new to user 42. *)
Lemma add_category_witness :
  let text := str "/add  Pets   and  plants " in
  let r := run 0 (handle sample_dates (CommandMessage CmdAdd (Some "42"%string) text))
             [] sample_store in
  add_args text = str "Pets and plants"
  ∧ sent r = [Reply (CategoryAdded (str "Pets and plants"))]
  ∧ custom_categories (final r) "42"
    = [str "A"; str "B"; str "C"; str "Pets and plants"].
Proof.
  split; [reflexivity|].
  destruct (add_category sample_dates 0 "42" (str "/add  Pets   and  plants ")
              sample_store) as (_ & _ & _ & Hadd).
  destruct Hadd as (Hs & Hc & _); [vm_compute; discriminate| |split; [exact Hs|exact Hc]].
  apply (bool_decide_unpack _). vm_compute. exact I.
Defined.

(** C7, as stated, fails: the label is not the trimmed text after the
    command.  With two spaces between the emoji and the name, the trimmed
    text equals no entry of the effective list of user 42, and what
    [/add] appends is another label, with one space; and once that label
    is there, the same command is refused although its trimmed text
    still equals no entry.  And [/add] alone, whose empty label equals no
    entry either, shows the usage and appends nothing. *)
Lemma add_label_is_not_the_trimmed_text :
  let text := str "/add " ++ [0xD83C; 0xDFAE] ++ str "  Gaming" in
  let add := λ text, handle sample_dates
                       (CommandMessage CmdAdd (Some "42"%string) text) in
  let r := run 0 (add text) [] sample_store in
  let r2 := run 0 (add text) [] (final r) in
  let r0 := run 0 (add (str "/add")) [] sample_store in
  (trim (after_command text) = [0xD83C; 0xDFAE] ++ str "  Gaming"
   ∧ custom_categories (final r) "42"
     = [str "A"; str "B"; str "C"; [0xD83C; 0xDFAE] ++ str " Gaming"]
   ∧ (trim (after_command text) ∉ effective_categories (final r) "42")
   ∧ sent r2 = [Reply CategoryAlreadyExists]
   ∧ ¬ add_category_contract sample_dates 0 "42" text sample_store)
  ∧ (sent r0 = [Reply AddUsage]
     ∧ final r0 = sample_store
     ∧ ¬ add_category_contract sample_dates 0 "42" (str "/add") sample_store).
Proof.
  cbv zeta. split.
  - split_and!; try reflexivity.
    + apply (bool_decide_unpack _). vm_compute. exact I.
    + intros [_ H]. cbv zeta in H.
      assert (trim (after_command
                      (str "/add " ++ [0xD83C; 0xDFAE] ++ str "  Gaming"))
              ∉ effective_categories sample_store "42") as Hn.
      { apply (bool_decide_unpack _). vm_compute. exact I. }
      specialize (H Hn). vm_compute in H. discriminate H.
  - split_and!; try reflexivity.
    intros [_ H]. cbv zeta in H.
    assert (trim (after_command (str "/add"))
            ∉ effective_categories sample_store "42") as Hn.
    { apply (bool_decide_unpack _). vm_compute. exact I. }
    specialize (H Hn). vm_compute in H. discriminate H.
Qed.

(** C9: the effective category list is the twelve defaults, in their fixed
    order, followed by the user's custom categories; it is computed from
    the store at each use; and an accepted label is appended at its
    end. *)
Theorem effective_categories_defaults_then_custom :
  length DEFAULT_CATEGORIES = 12%nat
  ∧ (∀ clock u k faults st,
       run clock (getUserCategories u k) (true :: faults) st
       = run clock (k (DEFAULT_CATEGORIES ++ custom_categories st u)) faults
           (db_upsert_user u st).1)
  ∧ (∀ u st v,
       effective_categories (db_upsert_user u st).1 v
       = DEFAULT_CATEGORIES ++ custom_categories st v)
  ∧ (∀ d clock u text st,
       add_args text ≠ [] →
       add_args text ∉ effective_categories st u →
       effective_categories
         (final (run clock (handle d (CommandMessage CmdAdd (Some u) text)) [] st)) u
       = DEFAULT_CATEGORIES ++ custom_categories st u ++ [add_args text]).
Proof.
  split_and!.
  - reflexivity.
  - intros clock u k faults st. unfold getUserCategories, getOrCreateUser.
    rewrite run_call. cbn [hd tl]. rewrite exec_upsert_user. cbn [fst snd].
    by rewrite upsert_user_row_custom.
  - intros u st v. unfold effective_categories. by rewrite upsert_user_custom.
  - intros d clock u text st Hne Hnotin. unfold effective_categories.
    cbn [handle].
    by destruct (cmd_add_accepts clock u text st Hne Hnotin) as [_ ->].
Qed.

(** ** Removing a category *)

Lemma on_callback_remove d from data :
  startsWith (str "cat_") data = false →
  startsWith (str "remove_") data = true →
  on_callback d from data = on_remove from data.
Proof. unfold on_callback. by intros -> ->. Qed.

Lemma on_remove_run clock u data st :
  let customCategories := custom_categories st u in
  let index := payload_index data in
  run clock (on_remove (Some u) data) [] st
  = if index_ge_length index (length customCategories)
    then {| final := (db_upsert_user u st).1;
            sent := [AnswerCallbackQuery (Some InvalidCategory)];
            threw := false |}
    else {| final := db_update_custom u (filter_not_index index 0 customCategories)
                       (db_upsert_user u st).1;
            sent := [ EditMessageText (CategoryRemoved (js_index customCategories index));
                      AnswerCallbackQuery None ];
            threw := false |}.
Proof.
  cbv zeta. unfold on_remove, getOrCreateUser.
  change (default ""%string (Some u)) with u. cbv zeta.
  rewrite run_call. cbn [hd tl]. rewrite exec_upsert_user. cbn [fst snd].
  rewrite upsert_user_row_custom.
  destruct (index_ge_length _ _); [done|]. by rewrite run_call.
Qed.

(** Past the index, the filter keeps everything. *)
Lemma filter_not_index_past {A} (l : list A) : ∀ z j,
  (z < Z.of_nat j)%Z → filter_not_index (Some z) j l = l.
Proof.
  induction l as [|x l IH]; intros z j Hj; simpl; [done|].
  rewrite bool_decide_eq_false_2 by (intros [= ->]; lia).
  rewrite IH by lia. done.
Qed.

Lemma filter_not_index_delete {A} (l : list A) : ∀ i j,
  (j ≤ i)%nat → filter_not_index (Some (Z.of_nat i)) j l = delete (i - j)%nat l.
Proof.
  induction l as [|x l IH]; intros i j Hj; simpl; [done|].
  destruct (decide (i = j)) as [->|Hne].
  - rewrite bool_decide_eq_true_2 by done. rewrite Nat.sub_diag. simpl.
    apply filter_not_index_past. lia.
  - rewrite bool_decide_eq_false_2 by (intros [= E]; lia).
    rewrite IH by lia. replace (i - j)%nat with (S (i - S j)) by lia. done.
Qed.

(** X1: the button [remove_<i>] for a position [i] within the custom
    categories removes exactly that entry, moves the later ones down by
    one, and names the removed category. *)
Lemma remove_within_range d clock u (i : nat) st :
  (i < length (custom_categories st u))%nat →
  let r := run clock (handle d (CallbackQuery (Some u) (str "remove_" ++ show i)))
             [] st in
  sent r = [ EditMessageText (CategoryRemoved (custom_categories st u !! i));
             AnswerCallbackQuery None ]
  ∧ custom_categories (final r) u = delete i (custom_categories st u).
Proof.
  intros Hi. cbv zeta. cbn [handle].
  destruct (payload_index_remove i) as (Hcat & Hrem & Hidx).
  rewrite on_callback_remove, on_remove_run by done. cbv zeta. rewrite Hidx.
  unfold index_ge_length. rewrite (proj2 (Z.leb_gt _ _)) by lia.
  cbn [final sent]. split.
  - unfold js_index. rewrite (proj2 (Z.ltb_ge _ _)) by lia. by rewrite Nat2Z.id.
  - rewrite update_custom_lookup by apply upsert_user_is_Some.
    rewrite filter_not_index_delete by lia. by rewrite Nat.sub_0_r.
Qed.

(** X2: the button [remove_<i>] for [i] at or beyond the length of the custom
    categories is answered as invalid and leaves the custom categories as
    they are. *)
Lemma remove_beyond_range d clock u (i : nat) st :
  (length (custom_categories st u) ≤ i)%nat →
  let r := run clock (handle d (CallbackQuery (Some u) (str "remove_" ++ show i)))
             [] st in
  sent r = [AnswerCallbackQuery (Some InvalidCategory)]
  ∧ custom_categories (final r) u = custom_categories st u.
Proof.
  intros Hi. cbv zeta. cbn [handle].
  destruct (payload_index_remove i) as (Hcat & Hrem & Hidx).
  rewrite on_callback_remove, on_remove_run by done. cbv zeta. rewrite Hidx.
  unfold index_ge_length. rewrite (proj2 (Z.leb_le _ _)) by lia.
  cbn [final sent]. by rewrite upsert_user_custom.
Qed.

(** Removing index 0 of A, B, C leaves B, C. *)
Lemma remove_within_range_witness :
  let r := run 0 (handle sample_dates
                    (CallbackQuery (Some "42"%string) (str "remove_0")))
             [] sample_store in
  custom_categories sample_store "42" = [str "A"; str "B"; str "C"]
  ∧ sent r = [EditMessageText (CategoryRemoved (Some (str "A")));
              AnswerCallbackQuery None]
  ∧ custom_categories (final r) "42" = [str "B"; str "C"].
Proof.
  split; [reflexivity|].
  apply (remove_within_range sample_dates 0 "42" 0 sample_store).
  vm_compute. lia.
Defined.

(** Index 3 of A, B, C is refused. *)
Lemma remove_beyond_range_witness :
  let r := run 0 (handle sample_dates
                    (CallbackQuery (Some "42"%string) (str "remove_3")))
             [] sample_store in
  sent r = [AnswerCallbackQuery (Some InvalidCategory)]
  ∧ custom_categories (final r) "42" = [str "A"; str "B"; str "C"].
Proof.
  apply (remove_beyond_range sample_dates 0 "42" 3 sample_store).
  vm_compute. lia.
Defined.

(** C8 at an index below zero: the bound check compares only against the
    length, so the removal is not refused; the custom categories stay as
    they are and the user is told that a category was removed. *)
Lemma remove_negative_index_not_refused :
  let r := run 0 (handle sample_dates
                    (CallbackQuery (Some "42"%string) (str "remove_-1")))
             [] sample_store in
  payload_index (str "remove_-1") = Some (-1)%Z
  ∧ sent r = [EditMessageText (CategoryRemoved None); AnswerCallbackQuery None]
  ∧ custom_categories (final r) "42" = [str "A"; str "B"; str "C"].
Proof. vm_compute. done. Qed.

(** ** Commands that only report *)

Ltac avoid_step :=
  match goal with
  | |- ∀ _, _ => intro
  | |- avoids_pending (match ?x with _ => _ end) => destruct x
  | |- avoids_custom (match ?x with _ => _ end) => destruct x
  | |- avoids_pending _ => constructor
  | |- avoids_custom _ => constructor
  | |- _ = _ => reflexivity
  end.

Lemma reply_rows_avoids_pending none some data :
  avoids_pending (reply_rows none some data).
Proof. unfold reply_rows. repeat avoid_step. Qed.

Lemma select_for_avoids_pending user since limit none some :
  avoids_pending (select_for user since limit (reply_rows none some)).
Proof.
  unfold select_for. repeat avoid_step. apply reply_rows_avoids_pending.
Qed.

Lemma command_avoids_pending d c from text :
  avoids_pending (handle d (CommandMessage c from text)).
Proof.
  destruct c; cbn [handle];
    unfold cmd_start, cmd_expenses, cmd_day, cmd_month, cmd_categories,
      cmd_add, cmd_remove, getUserCategories, getOrCreateUser;
    destruct from; repeat avoid_step; apply select_for_avoids_pending.
Qed.

Lemma createCategoryKeyboard_avoids_custom u k :
  (∀ rows, avoids_custom (k rows)) → avoids_custom (createCategoryKeyboard u k).
Proof.
  intros Hk. unfold createCategoryKeyboard, getUserCategories, getOrCreateUser.
  repeat avoid_step. apply Hk.
Qed.

(** Every handler but [/add] and the [remove_] branch leaves the custom
    categories to themselves. *)
Lemma handle_avoids_custom d upd :
  changes_categories upd = false → avoids_custom (handle d upd).
Proof.
  destruct upd as [c from text|from text|from data]; cbn [handle changes_categories].
  - destruct c; try done; intros _;
      unfold cmd_start, cmd_expenses, cmd_day, cmd_month, cmd_categories,
        cmd_remove, getOrCreateUser, select_for, reply_rows;
      destruct from; repeat avoid_step.
  - intros _. unfold on_text.
    destruct (startsWith (str "/") text); [constructor|].
    destruct (parseExpenseInput text) as [[amount description]|];
      [|repeat avoid_step].
    constructor; [done|]. intros _. apply createCategoryKeyboard_avoids_custom.
    intros rows. repeat avoid_step.
  - unfold on_callback. destruct (startsWith (str "cat_") data).
    + intros _. unfold on_category, getUserCategories, getOrCreateUser.
      repeat avoid_step.
    + simpl. intros ->. destruct (bool_decide _); repeat avoid_step.
Qed.

(** C10: no command, the reporting ones ([/start], [/expenses], [/day],
    [/month], [/categories]) included, issues a request on the pending
    rows: handling it leaves every pending row as it is and what it sends
    does not depend on the pending rows; and no update other than [/add]
    and a [remove_] button changes the custom categories of any user. *)
Theorem commands_leave_pending d c from text clock faults st :
  let p := handle d (CommandMessage c from text) in
  let r := run clock p faults st in
  avoids_pending p
  ∧ pending_expenses (final r) = pending_expenses st
  ∧ (∀ st', same_but_pending st st' →
            sent (run clock p faults st') = sent r
            ∧ threw (run clock p faults st') = threw r)
  ∧ (∀ upd faults' st' v,
       changes_categories upd = false →
       custom_categories (final (run clock (handle d upd) faults' st')) v
       = custom_categories st' v).
Proof.
  cbv zeta.
  pose proof (command_avoids_pending d c from text) as Hp.
  split_and!.
  - done.
  - by apply run_avoids_pending.
  - intros st' Hst.
    destruct (run_same_but_pending clock _ Hp faults st st' Hst) as (-> & -> & _).
    done.
  - intros upd faults' st' v Hupd.
    by apply run_avoids_custom, handle_avoids_custom.
Qed.

Example expenses_keeps_pending :
  getPending
    (final (run 0 (handle sample_dates
                     (CommandMessage CmdExpenses (Some "42"%string) (str "/expenses")))
              [] sample_store)) "42"
  = Some sample_pending.
Proof. reflexivity. Qed.

(** ** The ledger only grows *)

Lemma exec_expense clock ok {R} (op : Op R) st :
  expense (exec clock ok op st).1
  = expense st ++
    match op with
    | InsertExpense e =>
        if ok then [ {| e_user_id := n_user_id e; e_amount := n_amount e;
                        e_description := n_description e;
                        e_category := n_category e; e_created_at := clock |} ]
        else []
    | _ => []
    end.
Proof.
  destruct op, ok; simpl; rewrite ?app_nil_r; try done.
  rewrite <- (upsert_user_expense u st). by destruct (db_upsert_user u st).
Qed.

Lemma exec_expense_prefix clock ok {R} (op : Op R) st :
  expense st `prefix_of` expense (exec clock ok op st).1.
Proof. rewrite exec_expense. by eexists. Qed.

Lemma run_expense_prefix clock p : ∀ faults st,
  expense st `prefix_of` expense (final (run clock p faults st)).
Proof.
  induction p as [| |a k IH|R op k IH]; intros faults st; try done.
  - simpl. apply IH.
  - rewrite run_call. etrans; [apply exec_expense_prefix|apply IH].
Qed.

Lemma run_inserts_at_most clock n p :
  inserts_at_most n p →
  ∀ faults st,
    (length (expense (final (run clock p faults st))) ≤ length (expense st) + n)%nat.
Proof.
  induction 1 as [| |n a k _ IH|n R op k Hop _ IH|n e k _ IH];
    intros faults st; simpl; try lia.
  - apply IH.
  - destruct (exec clock (hd true faults) op st) as [st' x] eqn:E.
    pose proof (exec_expense clock (hd true faults) op st) as He.
    rewrite E in He. cbn [fst] in He.
    etrans; [apply IH|]. rewrite He. destruct op; try done;
      rewrite length_app; simpl; lia.
  - destruct (hd true faults); simpl.
    + etrans; [apply IH|]. simpl. rewrite length_app. simpl. lia.
    + etrans; [apply IH|]. lia.
Qed.

Ltac inserts_step :=
  match goal with
  | |- ∀ _, _ => intro
  | |- inserts_at_most _ (match ?x with _ => _ end) => destruct x
  | |- inserts_at_most _ (Call (InsertExpense _) _) => apply inserts_one
  | |- inserts_at_most _ (Call _ _) => apply inserts_other
  | |- inserts_at_most _ _ => constructor
  | |- _ = _ => reflexivity
  end.

Lemma handle_inserts d upd :
  inserts_at_most (if is_selection upd then 1 else 0) (handle d upd).
Proof.
  destruct upd as [c from text|from text|from data]; cbn [handle is_selection].
  - destruct c;
      unfold cmd_start, cmd_expenses, cmd_day, cmd_month, cmd_categories,
        cmd_add, cmd_remove, getUserCategories, getOrCreateUser, select_for,
        reply_rows;
      destruct from; repeat inserts_step.
  - unfold on_text, createCategoryKeyboard, getUserCategories, getOrCreateUser.
    repeat inserts_step.
  - unfold on_callback. destruct (startsWith (str "cat_") data).
    + unfold on_category, getUserCategories, getOrCreateUser.
      repeat inserts_step.
    + unfold on_remove, getOrCreateUser. repeat inserts_step.
Qed.

Lemma advance_expense_prefix clock c i :
  expense (store c) `prefix_of` expense (store (advance clock c i)).
Proof.
  unfold advance. destruct (threads c !! i) as [p|]; [|done].
  destruct p as [| |a k|R op k]; simpl; try done.
  pose proof (exec_expense_prefix clock true op (store c)) as H.
  by destruct (exec clock true op (store c)).
Qed.

(** X4: the ledger is append-only.  Handling one update, whatever the
    requests answer, leaves every row of the ledger in place and appends
    at most one row, and none unless the update is a selection of a
    category; and however handlers interleave, the ledger they started
    from remains a prefix of the ledger. *)
Theorem ledger_only_grows d clock :
  (∀ upd faults st,
     ∃ new, expense (final (run clock (handle d upd) faults st)) = expense st ++ new
            ∧ (length new ≤ 1)%nat
            ∧ (is_selection upd = false → new = []))
  ∧ (∀ order c, expense (store c) `prefix_of` expense (store (schedule clock order c))).
Proof.
  split.
  - intros upd faults st.
    destruct (run_expense_prefix clock (handle d upd) faults st) as [new Hnew].
    pose proof (run_inserts_at_most clock _ _ (handle_inserts d upd) faults st) as Hn.
    exists new. rewrite Hnew, length_app in *. split; [done|].
    destruct (is_selection upd).
    + split; [lia|done].
    + split; [lia|]. intros _. destruct new; [done|simpl in Hn; lia].
  - intros order. induction order as [|i order IH]; intros c; [done|].
    rewrite schedule_cons. etrans; [apply advance_expense_prefix|apply IH].
Qed.

(** ** Users and their ids *)

Lemma upsert_user_keeps_ids u st :
  user_ids_ok st → user_ids_ok (db_upsert_user u st).1.
Proof.
  intros [Hlt Hinj]. unfold db_upsert_user.
  destruct (users st !! u) as [row|] eqn:E; [done|].
  cbn [fst]. split; cbn [users users_seq].
  - intros v row. rewrite lookup_insert. case_decide.
    + intros [= <-]. cbn [u_id]. lia.
    + intros Hv. apply Hlt in Hv. lia.
  - intros v w rv rw. rewrite !lookup_insert.
    repeat case_decide; subst; try done.
    + intros [= <-] Hw. cbn [u_id]. apply Hlt in Hw. lia.
    + intros Hv [= <-]. cbn [u_id]. apply Hlt in Hv. lia.
    + apply Hinj.
Qed.

Lemma update_custom_row u cats st x rx :
  users (db_update_custom u cats st) !! x = Some rx →
  ∃ old, users st !! x = Some old ∧ u_id old = u_id rx.
Proof.
  cbn [users db_update_custom]. rewrite lookup_alter. case_decide; [|by eauto].
  subst. destruct (users st !! x) as [old|]; [|done]. intros [= <-]. by eauto.
Qed.

Lemma update_custom_keeps_ids u cats st :
  user_ids_ok st → user_ids_ok (db_update_custom u cats st).
Proof.
  intros [Hlt Hinj]. split.
  - intros v row (old & Hold & <-)%update_custom_row. by apply (Hlt v).
  - intros v w rv rw (ov & Hv & <-)%update_custom_row
      (ow & Hw & <-)%update_custom_row.
    by apply Hinj.
Qed.

Lemma exec_keeps_ids clock ok {R} (op : Op R) st :
  user_ids_ok st → user_ids_ok (exec clock ok op st).1.
Proof.
  intros Hst. destruct op, ok; try done; cbn [exec fst].
  - pose proof (upsert_user_keeps_ids u st Hst). by destruct (db_upsert_user u st).
  - by apply update_custom_keeps_ids.
Qed.

Lemma upsert_user_keeps_user_id v st u n :
  user_id st u = Some n → user_id (db_upsert_user v st).1 u = Some n.
Proof.
  unfold user_id, db_upsert_user.
  destruct (users st !! v) as [row|] eqn:E; [done|].
  cbn [fst users]. rewrite lookup_insert. case_decide; [|done]. subst. by rewrite E.
Qed.

Lemma exec_keeps_user_id clock ok {R} (op : Op R) st u n :
  user_id st u = Some n → user_id (exec clock ok op st).1 u = Some n.
Proof.
  intros Hu. destruct op, ok; try done; cbn [exec fst].
  - pose proof (upsert_user_keeps_user_id u0 st u n Hu).
    by destruct (db_upsert_user u0 st).
  - unfold user_id in *. cbn [users db_update_custom].
    rewrite lookup_alter. case_decide; [|done]. subst.
    by destruct (users st !! u).
Qed.

Lemma run_keeps_ids clock p : ∀ faults st,
  user_ids_ok st → user_ids_ok (final (run clock p faults st)).
Proof.
  induction p as [| |a k IH|R op k IH]; intros faults st Hst; try done.
  - simpl. by apply IH.
  - rewrite run_call. by apply IH, exec_keeps_ids.
Qed.

Lemma run_keeps_user_id clock p : ∀ faults st u n,
  user_id st u = Some n → user_id (final (run clock p faults st)) u = Some n.
Proof.
  induction p as [| |a k IH|R op k IH]; intros faults st u n Hu; try done.
  - simpl. by apply IH.
  - rewrite run_call. by apply IH, exec_keeps_user_id.
Qed.

Lemma advance_keeps_ids clock c i :
  user_ids_ok (store c) → user_ids_ok (store (advance clock c i)).
Proof.
  intros Hc. unfold advance. destruct (threads c !! i) as [p|]; [|done].
  destruct p as [| |a k|R op k]; simpl; try done.
  pose proof (exec_keeps_ids clock true op (store c) Hc) as H.
  by destruct (exec clock true op (store c)).
Qed.

Lemma schedule_keeps_ids clock order : ∀ c,
  user_ids_ok (store c) → user_ids_ok (store (schedule clock order c)).
Proof.
  induction order as [|i order IH]; intros c Hc; [done|].
  rewrite schedule_cons. by apply IH, advance_keeps_ids.
Qed.

(** X5: user rows are never deleted and ids never reused.  On a store
    where generated ids are below the sequence and distinct users have
    distinct ids, handling any update, whatever the requests answer, keeps
    it so and keeps the id of every user it knew; the same holds however
    handlers interleave. *)
Theorem users_keep_their_ids d clock upd faults st :
  user_ids_ok st →
  let r := run clock (handle d upd) faults st in
  user_ids_ok (final r)
  ∧ (∀ u n, user_id st u = Some n → user_id (final r) u = Some n)
  ∧ (∀ order c, store c = st → user_ids_ok (store (schedule clock order c))).
Proof.
  intros Hst. cbv zeta. split_and!.
  - by apply run_keeps_ids.
  - intros u n. apply run_keeps_user_id.
  - intros order c Hc. apply schedule_keeps_ids. by rewrite Hc.
Qed.

Lemma sample_store_ids_ok : user_ids_ok sample_store.
Proof.
  unfold user_ids_ok, sample_store. cbn [users users_seq]. split.
  - intros u row [<- <-]%lookup_singleton_Some. by vm_compute.
  - intros u v ru rv [<- _]%lookup_singleton_Some [<- _]%lookup_singleton_Some. done.
Qed.

(** User 9 writes for the first time and gets the id 2; user 42 keeps 1. *)
Lemma users_keep_their_ids_witness :
  let r := run 0 (handle sample_dates (TextMessage (Some "9"%string) (str "3 tea")))
             [] sample_store in
  user_ids_ok (final r)
  ∧ user_id (final r) "42" = Some 1
  ∧ user_id (final r) "9" = Some 2.
Proof.
  destruct (users_keep_their_ids sample_dates 0
              (TextMessage (Some "9"%string) (str "3 tea")) [] sample_store
              sample_store_ids_ok) as (Hok & Hkeep & _).
  split; [exact Hok|]. split; [apply Hkeep|]; reflexivity.
Defined.

(** ** Reports *)

#[local] Instance newer_first_total : Total newer_first.
Proof. intros a b. unfold newer_first. lia. Qed.

#[local] Instance newer_first_transitive : Transitive newer_first.
Proof. intros a b c. unfold newer_first. lia. Qed.

Lemma upsert_user_known u st n :
  user_id st u = Some n → u_id (db_upsert_user u st).2 = n.
Proof.
  unfold user_id, db_upsert_user. destruct (users st !! u); [|done].
  by intros [= <-].
Qed.


(** What a reporting command does, by the answers of its two requests. *)
Lemma report_run_any clock u since limit none some faults st :
  let uid := u_id (db_upsert_user u st).2 in
  let rows := db_select_expense {| q_user_id := uid; q_gte_created_at := since;
                                   q_recent_limit := limit |} st in
  run clock (report u since limit none some) faults st
  = if hd true faults then
      {| final := (db_upsert_user u st).1;
         sent := [ Reply (if hd true (tl faults)
                          then match rows with
                               | [] => none
                               | _ :: _ => some rows
                               end
                          else none) ];
         threw := false |}
    else {| final := st; sent := []; threw := true |}.
Proof.
  cbv zeta. unfold report, getOrCreateUser. rewrite run_call.
  destruct (hd true faults); [|done]. rewrite exec_upsert_user.
  cbn [fst snd select_for].
  rewrite run_call. cbn [exec]. destruct (hd true (tl faults)); [|done].
  cbn [fst snd].
  unfold db_select_expense. rewrite upsert_user_expense.
  cbn [q_recent_limit]. unfold reply_rows.
  by destruct (match limit with Some n => _ | None => _ end).
Qed.

Lemma report_run clock u since limit none some (ok1 ok2 : bool) rest st :
  let uid := u_id (db_upsert_user u st).2 in
  let rows := db_select_expense {| q_user_id := uid; q_gte_created_at := since;
                                   q_recent_limit := limit |} st in
  run clock (report u since limit none some) (ok1 :: ok2 :: rest) st
  = if ok1 then
      {| final := (db_upsert_user u st).1;
         sent := [ Reply (if ok2 then match rows with
                                      | [] => none
                                      | _ :: _ => some rows
                                      end
                          else none) ];
         threw := false |}
    else {| final := st; sent := []; threw := true |}.
Proof. apply report_run_any. Qed.

Lemma handle_report d c u text :
  handle d (CommandMessage c (Some u) text)
  = match c with
    | CmdStart => cmd_start
    | CmdExpenses => report u None (Some 20%nat) NoExpensesYet RecentExpenses
    | CmdDay => report u (Some (date_start_of_day d)) None NoExpensesToday TodaysExpenses
    | CmdMonth =>
        report u (Some (date_start_of_month d)) None NoExpensesThisMonth MonthlySummary
    | CmdCategories => report u None None NoExpensesRecorded ExpensesByCategory
    | CmdAdd => cmd_add (Some u) text
    | CmdRemove => cmd_remove (Some u)
    end.
Proof. by destruct c. Qed.

(** X6: [/expenses], with its two requests answered, shows the twenty
    newest ledger rows of the user, newest first: as many rows as the user
    has, up to twenty, each one a ledger row of the user, in descending
    order of creation, and no row left out is newer than a row shown; with
    no row to show it says so.  The ledger is left as it is. *)
Theorem recent_expenses_report d clock u text rest st :
  let uid := u_id (db_upsert_user u st).2 in
  let mine := ledger_of st uid None in
  let r := run clock (handle d (CommandMessage CmdExpenses (Some u) text))
             (true :: true :: rest) st in
  (∀ n, user_id st u = Some n → uid = n)
  ∧ ∃ rows,
      sent r = [ Reply (match rows with
                        | [] => NoExpensesYet
                        | _ :: _ => RecentExpenses rows
                        end) ]
      ∧ length rows = Nat.min 20 (length mine)
      ∧ rows ⊆+ mine
      ∧ StronglySorted newer_first rows
      ∧ (∀ e e', e ∈ rows → e' ∈ mine → e' ∉ rows → newer_first e e')
      ∧ expense (final r) = expense st.
Proof.
  cbv zeta. split; [apply upsert_user_known|].
  rewrite handle_report, report_run. cbn [final sent].
  set (mine := ledger_of st (u_id (db_upsert_user u st).2) None).
  assert (db_select_expense
            {| q_user_id := u_id (db_upsert_user u st).2;
               q_gte_created_at := None; q_recent_limit := Some 20%nat |} st
          = take 20 (merge_sort newer_first mine)) as -> by done.
  set (sorted := merge_sort newer_first mine).
  assert (StronglySorted newer_first sorted) as Hsorted
    by (apply StronglySorted_merge_sort; apply _).
  assert (sorted ≡ₚ mine) as Hperm by apply merge_sort_Permutation.
  exists (take 20 sorted). split_and!.
  - done.
  - by rewrite length_take, Hperm.
  - rewrite <- Hperm. apply submseteq_take.
  - rewrite <- (take_drop 20 sorted) in Hsorted.
    by apply StronglySorted_app_1_l in Hsorted.
  - intros e e' He He' Hnot.
    rewrite <- (take_drop 20 sorted) in Hsorted.
    apply (StronglySorted_app_1_elem_of _ _ _ _ _ Hsorted He).
    rewrite <- Hperm, <- (take_drop 20 sorted), elem_of_app in He'.
    by destruct He'.
  - apply upsert_user_expense.
Qed.


(** ** What handlers never send or do *)

Lemma run_respects clock ops acts may_throw p :
  respects ops acts may_throw p →
  ∀ faults st,
    (threw (run clock p faults st) = true → may_throw = true)
    ∧ Forall (λ a, acts a = true) (sent (run clock p faults st)).
Proof.
  induction 1 as [|Ht|a k Ha _ IH|R op k _ _ IH]; intros faults st; simpl.
  - by split.
  - by split.
  - destruct (IH faults st) as [Hthrow Hsent]. split; [done|by constructor].
  - destruct (exec clock (hd true faults) op st) as [st' x]. apply IH.
Qed.

Ltac respects_step :=
  first
    [ progress cbv beta iota
    | match goal with
      | |- ∀ _, _ => intro
      | |- respects _ _ _ (match ?x with _ => _ end) => destruct x
      | |- respects _ _ _ _ => constructor
      | |- _ = _ => reflexivity
      end ].

Ltac unfold_handlers :=
  unfold cmd_start, cmd_expenses, cmd_day, cmd_month, cmd_categories,
    cmd_add, cmd_remove, on_text, on_callback, on_category, on_remove,
    createCategoryKeyboard, getUserCategories, getOrCreateUser, select_for,
    reply_rows.

(** Only the reporting commands show ledger rows. *)
Lemma handle_shows_no_rows d upd :
  is_report upd = false → respects any_op shows_no_rows true (handle d upd).
Proof.
  destruct upd as [c from text|from text|from data]; cbn [handle is_report].
  - destruct c, from; try done; intros _; unfold_handlers; repeat respects_step.
  - intros _. unfold_handlers. repeat respects_step.
  - intros _. unfold_handlers. repeat respects_step.
Qed.


Lemma select_rows_within q st e :
  e ∈ db_select_expense q st → e ∈ expense st ∧ e_user_id e = q_user_id q.
Proof.
  unfold db_select_expense. intros He.
  assert (e ∈ List.filter (query_matches q) (expense st)) as Hin.
  { destruct (q_recent_limit q) as [n|]; [|done].
    apply elem_of_take in He as (i & Hi & _).
    apply list_elem_of_lookup_2 in Hi. by rewrite merge_sort_Permutation in Hi. }
  apply list_elem_of_In, filter_In in Hin as [Hin Hq].
  split; [by apply list_elem_of_In|].
  unfold query_matches in Hq. apply andb_true_iff in Hq as [Hq _].
  by apply N.eqb_eq.
Qed.

(** The id a user gets or has differs from the id of every other user. *)
Lemma upsert_user_id_apart u st v n :
  user_ids_ok st → v ≠ u → user_id st v = Some n →
  u_id (db_upsert_user u st).2 ≠ n.
Proof.
  intros [Hlt Hinj] Hne. unfold user_id, db_upsert_user.
  destruct (users st !! v) as [rv|] eqn:Ev; [|done]. intros [= <-].
  destruct (users st !! u) as [ru|] eqn:Eu; cbn [snd u_id].
  - intros Heq. apply Hne. symmetry. by apply (Hinj u v ru rv).
  - apply Hlt in Ev. lia.
Qed.

(** X8: reports are private.  On a store whose user ids are distinct,
    whatever update is handled and whatever the requests answer, every
    ledger row shown in a message is a row of the ledger that carries the
    id of the sender, and never the id of another user. *)
Theorem reports_are_private d clock upd faults st :
  user_ids_ok st →
  let r := run clock (handle d upd) faults st in
  ∀ a e, a ∈ sent r → e ∈ report_rows a →
    e ∈ expense st
    ∧ e_user_id e = u_id (db_upsert_user (sender upd) st).2
    ∧ ∀ v n, v ≠ sender upd → user_id st v = Some n → e_user_id e ≠ n.
Proof.
  intros Hst. cbv zeta. intros a e Ha He.
  destruct (is_report upd) eqn:Hrep.
  - destruct upd as [c [u|] text| |]; try done; [|by destruct c].
    cbn [sender default] in *.
    assert (∃ since limit none some,
              handle d (CommandMessage c (Some u) text)
              = report u since limit none some
              ∧ ∀ rows, report_rows (Reply none) = []
                        ∧ report_rows (Reply (some rows)) = rows)
      as (since & limit & none & some & Hh & Hrows).
    { destruct c; try done; do 4 eexists; (split; [reflexivity|done]). }
    rewrite Hh, report_run_any in Ha. cbv zeta in Ha.
    set (rows := db_select_expense _ st) in Ha.
    assert (e ∈ rows) as Hin.
    { destruct (hd true faults); [|by apply elem_of_nil in Ha].
      apply list_elem_of_singleton in Ha as ->.
      destruct (hd true (tl faults)), rows as [|e0 rows'] eqn:Er;
        rewrite ?(proj1 (Hrows [])), ?(proj2 (Hrows (e0 :: rows'))) in He;
        by try apply elem_of_nil in He. }
    apply select_rows_within in Hin as [Hin Hid]. cbn [q_user_id] in Hid.
    split; [done|]. split; [done|]. intros v n Hv Hn. rewrite Hid.
    by apply (upsert_user_id_apart u st v n).
  - destruct (run_respects clock _ _ _ _ (handle_shows_no_rows d upd Hrep) faults st)
      as [_ Hall].
    rewrite Forall_forall in Hall. specialize (Hall a Ha).
    unfold shows_no_rows in Hall. destruct (report_rows a); [|done].
    by apply elem_of_nil in He.
Qed.

(** Users 42 and 7 have one ledger row each; the report of user 42 shows
    the lunch and not the tea. *)
Lemma reports_are_private_witness :
  let r := run 0 (handle sample_dates
                    (CommandMessage CmdCategories (Some "42"%string)
                       (str "/categories")))
             [] sample_ledger in
  user_id sample_ledger "42" = Some 1
  ∧ user_id sample_ledger "7" = Some 2
  ∧ map e_user_id (expense sample_ledger) = [1; 2]
  ∧ map (λ a, map e_description (report_rows a)) (sent r) = [[str "lunch"]]
  ∧ ∀ a e, a ∈ sent r → e ∈ report_rows a →
           e ∈ expense sample_ledger ∧ e_user_id e = 1 ∧ e_user_id e ≠ 2.
Proof.
  split; [reflexivity|]. split; [reflexivity|]. split; [reflexivity|].
  split; [reflexivity|].
  intros a e Ha He.
  destruct (reports_are_private sample_dates 0
              (CommandMessage CmdCategories (Some "42"%string) (str "/categories"))
              [] sample_ledger) with (a := a) (e := e) as (Hin & Hid & Hother);
    [|done|done|].
  - apply (upsert_user_keeps_ids "7" sample_store sample_store_ids_ok).
  - split; [exact Hin|]. split; [exact Hid|].
    apply (Hother "7"%string); [discriminate|reflexivity].
Defined.

(** ** When a handler throws *)




(** ** Text messages *)

Lemma parse_not_command text amount description :
  parseExpenseInput text = Some (amount, description) →
  startsWith (str "/") text = false.
Proof.
  intros (ip & fd & ws & rest & (-> & Hne & Hip & _) & _)%parseExpenseInput_sound.
  destruct ip as [|c ip]; [done|]. inversion Hip as [|? ? Hc _]; subst.
  unfold is_digit, in_range in Hc. apply andb_true_iff in Hc as [H1 H2].
  apply N.leb_le in H1, H2.
  change (str "/") with [47]. cbn [startsWith app].
  rewrite (proj2 (N.eqb_neq 47 c)) by lia. done.
Qed.

Lemma upsert_pending_lookup clock u amount description st :
  ∃ stamp,
    pending_expenses (db_upsert_pending clock u amount description st) !! u
    = Some {| p_amount := amount; p_description := description;
              p_created_at := stamp |}.
Proof. eexists. cbn [pending_expenses db_upsert_pending]. apply lookup_insert_eq. Qed.

Lemma on_text_run clock u text amount description st :
  parseExpenseInput text = Some (amount, description) →
  run clock (on_text (Some u) text) [] st
  = {| final := (db_upsert_user u
                   (db_upsert_pending clock u (json_number amount)
                      description st)).1;
       sent := [ ReplyWithKeyboard (SelectCategory amount description)
                   (category_rows 0 (effective_categories st u)) ];
       threw := false |}.
Proof.
  intros Hparse. unfold on_text.
  rewrite (parse_not_command _ _ _ Hparse), Hparse.
  change (default ""%string (Some u)) with u. cbv zeta.
  unfold createCategoryKeyboard, getUserCategories, getOrCreateUser.
  rewrite run_call. cbn [hd tl exec fst snd].
  rewrite run_call. cbn [hd tl]. rewrite exec_upsert_user. cbn [fst snd].
  by rewrite upsert_user_row_custom.
Qed.

(** X10: a text that parses as an expense becomes the sender's pending
    row, replacing whatever row the sender had; the row holds the amount
    as the JSON request carries it, which is [null] for [Infinity].  The
    rows of other users, the ledger and the categories stay as they were,
    and the reply carries the amount, the description and the keyboard of
    the sender's effective categories. *)
Theorem text_becomes_pending d clock u text amount description st :
  parseExpenseInput text = Some (amount, description) →
  let r := run clock (handle d (TextMessage (Some u) text)) [] st in
  (∃ stamp, getPending (final r) u
            = Some {| p_amount := json_number amount; p_description := description;
                      p_created_at := stamp |})
  ∧ (∀ v, v ≠ u → getPending (final r) v = getPending st v)
  ∧ sent r = [ ReplyWithKeyboard (SelectCategory amount description)
                 (category_rows 0 (effective_categories st u)) ]
  ∧ expense (final r) = expense st
  ∧ ∀ v, effective_categories (final r) v = effective_categories st v.
Proof.
  intros Hparse. cbv zeta. cbn [handle]. rewrite (on_text_run _ _ _ _ _ _ Hparse).
  cbn [final sent]. unfold getPending, effective_categories.
  split_and!.
  - rewrite upsert_user_pending. apply upsert_pending_lookup.
  - intros v Hv. rewrite upsert_user_pending.
    cbn [pending_expenses db_upsert_pending]. by rewrite lookup_insert_ne.
  - done.
  - by rewrite upsert_user_expense.
  - intros v. by rewrite upsert_user_custom.
Qed.

(** User 42 replaces the pending lunch by a coffee. *)
Lemma text_becomes_pending_witness :
  let r := run 9 (handle sample_dates (TextMessage (Some "42"%string) (str "12.50 coffee")))
             [] sample_store in
  parseExpenseInput (str "12.50 coffee")
  = Some (number_of_hundredths 1250, str "coffee")
  ∧ (∃ stamp, getPending (final r) "42"
              = Some {| p_amount := Some (number_of_hundredths 1250);
                        p_description := str "coffee";
                        p_created_at := stamp |})
  ∧ getPending (final r) "7" = getPending sample_store "7".
Proof.
  split; [reflexivity|].
  destruct (text_becomes_pending sample_dates 9 "42" (str "12.50 coffee")
              (number_of_hundredths 1250) (str "coffee") sample_store)
    as (Hrow & Hother & _); [reflexivity|].
  split; [exact Hrow|]. apply Hother. discriminate.
Defined.

(** X11: a text that does not parse as an expense changes nothing in the
    store, whoever sends it and whatever the requests would answer: a text
    that starts with a slash is passed over in silence, any other gets
    the format hint. *)
Theorem text_not_understood d clock from text faults st :
  parseExpenseInput text = None →
  let r := run clock (handle d (TextMessage from text)) faults st in
  final r = st
  ∧ sent r = (if startsWith (str "/") text then [] else [Reply NotUnderstood])
  ∧ threw r = false.
Proof.
  intros Hparse. cbv zeta. cbn [handle]. unfold on_text. rewrite Hparse.
  by destruct (startsWith (str "/") text).
Qed.

(** An amount without a description. *)
Lemma text_not_understood_witness :
  let r := run 0 (handle sample_dates (TextMessage (Some "42"%string) (str "50")))
             [] sample_store in
  parseExpenseInput (str "50") = None
  ∧ final r = sample_store
  ∧ sent r = [Reply NotUnderstood].
Proof.
  split; [reflexivity|].
  destruct (text_not_understood sample_dates 0 (Some "42"%string) (str "50") []
              sample_store) as (Hf & Hs & _); [reflexivity|].
  split; [exact Hf|exact Hs].
Defined.

(** ** More on the category keyboard *)

Lemma category_rows_shape n : ∀ i categories,
  (length categories ≤ n)%nat →
  map fst (concat (category_rows i categories)) = categories
  ∧ length (category_rows i categories) = S (Nat.div2 (length categories))
  ∧ ∀ k row, category_rows i categories !! k = Some row →
      length row = if (k <? Nat.div2 (length categories))%nat then 2%nat
                   else if Nat.even (length categories) then 0%nat else 1%nat.
Proof.
  induction n as [|n IH]; intros i categories Hn.
  { destruct categories; [|simpl in Hn; lia].
    split_and!; try done. by intros [|k] row [= <-]. }
  destruct categories as [|a [|b rest]]; cbn [category_rows].
  - split_and!; try done. by intros [|k] row [= <-].
  - split_and!; try done. by intros [|k] row [= <-].
  - destruct (IH (i + 2)%nat rest) as (Hl & Hlen & Hrows); [simpl in Hn; lia|].
    cbn [concat map app fst length]. rewrite Hl, Hlen.
    split_and!; try done.
    intros [|k] row Hk; [by injection Hk as <-|].
    cbn [lookup list_lookup] in Hk. apply Hrows in Hk as ->.
    cbn [Nat.div2 Nat.even].
    by change (S k <? S (Nat.div2 (length rest)))%nat
         with (k <? Nat.div2 (length rest))%nat.
Qed.

(** X12: the category keyboard lists every category of the list it is
    rendered from exactly once and in order, two buttons a row.  For [n]
    categories it has [n / 2 + 1] rows: [n / 2] rows of two buttons and a
    last row that holds the one category left over when [n] is odd and is
    empty when [n] is even. *)
Theorem category_keyboard_lists_all categories :
  let n := length categories in
  map fst (concat (category_rows 0 categories)) = categories
  ∧ length (category_rows 0 categories) = S (Nat.div2 n)
  ∧ ∀ k row, category_rows 0 categories !! k = Some row →
      length row = if (k <? Nat.div2 n)%nat then 2%nat
                   else if Nat.even n then 0%nat else 1%nat.
Proof. by apply (category_rows_shape (length categories)). Qed.

(** The keyboard of the twelve defaults has seven rows, the last one
    empty. *)
Example default_keyboard_rows :
  length (category_rows 0 DEFAULT_CATEGORIES) = 7%nat
  ∧ category_rows 0 DEFAULT_CATEGORIES !! 6%nat = Some [].
Proof. split; reflexivity. Qed.

(** ** A selection within the list *)

Lemma js_index_nat {A} (l : list A) (i : nat) :
  js_index l (Some (Z.of_nat i)) = l !! i.
Proof.
  unfold js_index. rewrite (proj2 (Z.ltb_ge (Z.of_nat i) 0)) by lia.
  by rewrite Nat2Z.id.
Qed.

Lemma on_category_token d clock u (i : nat) st row :
  getPending st u = Some row →
  let category := effective_categories st u !! i in
  run clock (on_category d (Some u) (str "cat_" ++ show i)) [] st
  = {| final := commit_requests clock d u
                  {| n_user_id := u_id (db_upsert_user u st).2;
                     n_amount := p_amount row;
                     n_description := p_description row;
                     n_category := category |} true true true
                  (db_upsert_user u st).1;
       sent := [ EditMessageText
                   (ExpenseSaved (p_amount row) (p_description row) category);
                 AnswerCallbackQuery None ];
       threw := false |}.
Proof.
  intros Hrow. cbv zeta.
  rewrite <- (run_no_faults clock _ [true; true; true; true; true; true])
    by repeat constructor.
  rewrite (on_category_commit d clock u _ true true true true [] st row Hrow).
  destruct (payload_index_cat i) as [_ ->]. by rewrite js_index_nat.
Qed.

Lemma commit_requests_clears clock d u e (ok4 ok6 : bool) st :
  pending_expenses (commit_requests clock d u e ok4 true ok6 st) !! u = None.
Proof.
  rewrite commit_requests_pending. cbv zeta. destruct ok6.
  - apply map_lookup_filter_None. left. apply lookup_delete_eq.
  - apply lookup_delete_eq.
Qed.

(** X13: a selection [cat_<i>] for a position [i] within the sender's
    effective category list, with a pending row present and the requests
    succeeding, appends to the ledger one row with the amount and the
    description of the pending row and, as its category, the text of the
    label at position [i] at that moment; it deletes the pending row and
    confirms with the same three values. *)
Theorem selection_commits_label d clock u (i : nat) label st row :
  getPending st u = Some row →
  effective_categories st u !! i = Some label →
  let r := run clock (handle d (CallbackQuery (Some u) (str "cat_" ++ show i))) [] st in
  expense (final r)
  = expense st ++ [ {| e_user_id := u_id (db_upsert_user u st).2;
                       e_amount := p_amount row;
                       e_description := p_description row;
                       e_category := Some label;
                       e_created_at := clock |} ]
  ∧ getPending (final r) u = None
  ∧ sent r = [ EditMessageText
                 (ExpenseSaved (p_amount row) (p_description row) (Some label));
               AnswerCallbackQuery None ]
  ∧ ∀ v, effective_categories (final r) v = effective_categories st v.
Proof.
  intros Hrow Hlabel. cbv zeta. cbn [handle].
  rewrite on_callback_category by apply payload_index_cat.
  rewrite (on_category_token d clock u i st row Hrow). cbv zeta.
  rewrite Hlabel. cbn [final sent]. unfold getPending. split_and!.
  - rewrite commit_requests_expense. cbn [db_insert_expense expense].
    by rewrite upsert_user_expense.
  - apply commit_requests_clears.
  - done.
  - intros v. unfold effective_categories, commit_requests, custom_categories.
    cbn [users db_delete_pending_before db_delete_pending db_insert_expense].
    apply (f_equal (app DEFAULT_CATEGORIES)), upsert_user_custom.
Qed.

(** User 42 picks the second default category. *)
Lemma selection_commits_label_witness :
  let r := run 8 (handle sample_dates (CallbackQuery (Some "42"%string) (str "cat_1")))
             [] sample_store in
  expense (final r)
  = [ {| e_user_id := 1; e_amount := Some (number_of_hundredths 5000);
         e_description := str "lunch";
         e_category := Some ([0xD83D; 0xDE97] ++ str " Transport");
         e_created_at := 8 |} ]
  ∧ getPending (final r) "42" = None.
Proof.
  destruct (selection_commits_label sample_dates 8 "42" 1
              ([0xD83D; 0xDE97] ++ str " Transport") sample_store sample_pending)
    as (He & Hp & _); [reflexivity|reflexivity|].
  split; [exact He|exact Hp].
Defined.

(** Every category has its button on the keyboard. *)
Lemma category_rows_has_button n : ∀ i categories j label,
  (length categories ≤ n)%nat →
  categories !! j = Some label →
  ∃ row, row ∈ category_rows i categories
         ∧ (label, str "cat_" ++ show (i + j)) ∈ row.
Proof.
  induction n as [|n IH]; intros i categories j label Hn Hj.
  { destruct categories; [done|simpl in Hn; lia]. }
  destruct categories as [|a [|b rest]]; cbn [category_rows]; [done|..].
  - destruct j as [|j]; [|done]. injection Hj as ->.
    eexists. split; [by left|]. rewrite Nat.add_0_r. by left.
  - destruct j as [|[|j]].
    + injection Hj as ->. eexists. split; [by left|].
      rewrite Nat.add_0_r. by left.
    + injection Hj as ->. eexists. split; [by left|]. right. by left.
    + destruct (IH (i + 2)%nat rest j label) as (row & Hrow & Hb);
        [simpl in Hn; lia|done|].
      exists row. split; [by right|].
      by replace (i + S (S j))%nat with (i + 2 + j)%nat by lia.
Qed.

Lemma upsert_user_after_pending clock u amount description st :
  (db_upsert_user u (db_upsert_pending clock u amount description st)).2
  = (db_upsert_user u st).2.
Proof.
  unfold db_upsert_user. cbn [users users_seq db_upsert_pending].
  by destruct (users st !! u).
Qed.

(** X14: from text to ledger.  When a text parses to an amount and a
    description, the reply offers a button for each effective category;
    pressing the button of a label appends to the ledger exactly one row
    with that amount (as the JSON requests carried it, [null] for
    [Infinity]), description and label and clears the pending row;
    and any further press of a category button is answered with the
    session-expired notice and writes nothing. *)
Theorem text_then_selection d1 d2 d3 clock1 clock2 clock3 u text amount
    description (i : nat) label data st :
  parseExpenseInput text = Some (amount, description) →
  effective_categories st u !! i = Some label →
  startsWith (str "cat_") data = true →
  let token := str "cat_" ++ show i in
  let r1 := run clock1 (handle d1 (TextMessage (Some u) text)) [] st in
  let r2 := run clock2 (handle d2 (CallbackQuery (Some u) token)) [] (final r1) in
  let r3 := run clock3 (handle d3 (CallbackQuery (Some u) data)) [] (final r2) in
  (∃ rows row, sent r1 = [ReplyWithKeyboard (SelectCategory amount description) rows]
               ∧ row ∈ rows ∧ (label, token) ∈ row)
  ∧ expense (final r2)
    = expense st ++ [ {| e_user_id := u_id (db_upsert_user u st).2;
                         e_amount := json_number amount;
                         e_description := description;
                         e_category := Some label;
                         e_created_at := clock2 |} ]
  ∧ getPending (final r2) u = None
  ∧ sent r3 = [AnswerCallbackQuery (Some SessionExpired)]
  ∧ expense (final r3) = expense (final r2).
Proof.
  intros Hparse Hlabel Hdata. cbv zeta. cbn [handle].
  rewrite (on_text_run _ _ _ _ _ _ Hparse). cbn [final sent].
  set (st1 := (db_upsert_user u
                 (db_upsert_pending clock1 u (json_number amount) description st)).1).
  destruct (upsert_pending_lookup clock1 u (json_number amount) description st)
    as [stamp Hstamp].
  assert (getPending st1 u
          = Some {| p_amount := json_number amount; p_description := description;
                    p_created_at := stamp |}) as Hrow
    by (unfold getPending, st1; by rewrite upsert_user_pending).
  assert (effective_categories st1 u = effective_categories st u) as Hcats
    by (unfold effective_categories, st1; by rewrite upsert_user_custom).
  rewrite on_callback_category by apply payload_index_cat.
  rewrite (on_category_token d2 clock2 u i st1 _ Hrow). cbv zeta.
  rewrite Hcats, Hlabel. cbn [final sent p_amount p_description].
  match goal with |- context [run clock3 _ [] ?s] => set (st2 := s) end.
  assert (getPending st2 u = None) as Hgone by apply commit_requests_clears.
  rewrite on_callback_category by done.
  destruct (on_category_expired d3 clock3 (Some u) data [] st2 Hgone)
    as (Hs3 & _ & He3 & _).
  split_and!; try done.
  - destruct (category_rows_has_button (length (effective_categories st u)) 0
                (effective_categories st u) i label) as (row & Hin & Hb);
      [done..|].
    by exists (category_rows 0 (effective_categories st u)), row.
  - unfold st2. rewrite commit_requests_expense. cbn [db_insert_expense expense].
    unfold st1. rewrite upsert_user_again, !upsert_user_expense.
    by rewrite upsert_user_after_pending.
Qed.

(** User 9, new to the bot, logs a lunch as food and presses again. *)
Lemma text_then_selection_witness :
  let r1 := run 1 (handle sample_dates (TextMessage (Some "9"%string) (str "50 lunch")))
              [] sample_store in
  let r2 := run 2 (handle sample_dates (CallbackQuery (Some "9"%string) (str "cat_0")))
              [] (final r1) in
  let r3 := run 3 (handle sample_dates (CallbackQuery (Some "9"%string) (str "cat_4")))
              [] (final r2) in
  expense (final r2)
  = [ {| e_user_id := 2; e_amount := Some (number_of_hundredths 5000);
         e_description := str "lunch";
         e_category := Some ([0xD83C; 0xDF54] ++ str " Food"); e_created_at := 2 |} ]
  ∧ sent r3 = [AnswerCallbackQuery (Some SessionExpired)].
Proof.
  destruct (text_then_selection sample_dates sample_dates sample_dates 1 2 3 "9"
              (str "50 lunch") (number_of_hundredths 5000) (str "lunch") 0
              ([0xD83C; 0xDF54] ++ str " Food") (str "cat_4") sample_store)
    as (_ & He & _ & Hs & _); [reflexivity..|].
  split; [exact He|exact Hs].
Defined.

(** ** Other users' pending rows *)

Lemma exec_spares clock ok u threshold {R} (op : Op R) st v row :
  spares u threshold R op = true →
  v ≠ u → (threshold ≤ p_created_at row)%Z →
  pending_expenses st !! v = Some row →
  pending_expenses (exec clock ok op st).1 !! v = Some row.
Proof.
  intros Hop Hv Hfresh Hrow. destruct op, ok; try done; cbn [exec fst].
  - rewrite <- (upsert_user_pending u0 st) in Hrow.
    by destruct (db_upsert_user u0 st).
  - apply bool_decide_eq_true_1 in Hop as ->.
    cbn [pending_expenses db_upsert_pending]. by rewrite lookup_insert_ne.
  - apply bool_decide_eq_true_1 in Hop as ->.
    cbn [pending_expenses db_delete_pending]. by rewrite lookup_delete_ne.
  - apply bool_decide_eq_true_1 in Hop.
    cbn [pending_expenses db_delete_pending_before].
    apply map_lookup_filter_Some. split; [done|]. simpl. lia.
Qed.

Lemma run_spares clock u threshold acts may_throw p :
  respects (spares u threshold) acts may_throw p →
  ∀ faults st v row,
    v ≠ u → (threshold ≤ p_created_at row)%Z →
    pending_expenses st !! v = Some row →
    pending_expenses (final (run clock p faults st)) !! v = Some row.
Proof.
  induction 1 as [| |a k _ _ IH|R op k Hop _ IH];
    intros faults st v row Hv Hfresh Hrow; try done.
  - simpl. by apply IH.
  - rewrite run_call. apply IH; try done. by apply exec_spares with u threshold.
Qed.

Ltac spares_step :=
  first
    [ progress cbv beta iota
    | match goal with
      | |- ∀ _, _ => intro
      | |- respects _ _ _ (match ?x with _ => _ end) => destruct x
      | |- respects _ _ _ _ => constructor
      | |- spares _ _ _ _ = true => progress cbn [spares]
      | |- bool_decide _ = true => apply bool_decide_eq_true_2; first [done | lia]
      | |- _ = _ => reflexivity
      end ].

Lemma handle_spares d upd :
  respects (spares (sender upd) (date_now d - HOUR)) any_action true (handle d upd).
Proof.
  destruct upd as [c from text|from text|from data]; cbn [handle sender].
  - destruct c, from; unfold_handlers; repeat spares_step.
  - unfold_handlers. repeat spares_step.
  - unfold_handlers. repeat spares_step.
Qed.

(** X15: handling an update of one user never removes or changes a
    pending row of another user that is not older than one hour, whatever
    the update is and whatever the requests answer. *)
Theorem others_pending_rows_survive d clock upd faults st v row :
  v ≠ sender upd →
  getPending st v = Some row →
  (date_now d - HOUR ≤ p_created_at row)%Z →
  getPending (final (run clock (handle d upd) faults st)) v = Some row.
Proof.
  intros Hv Hrow Hfresh. unfold getPending in *.
  by apply (run_spares clock _ _ _ _ _ (handle_spares d upd)).
Qed.

(** User 42 selects at time 1500: the row of user 7, entered at time 5,
    is less than an hour old and stays. *)
Lemma others_pending_rows_survive_witness :
  let d := {| date_now := 1500; date_start_of_day := 0; date_start_of_month := 0 |} in
  let r := run 0 (handle d (CallbackQuery (Some "42"%string) (str "cat_0")))
             [] sample_store in
  getPending (final r) "42" = None
  ∧ getPending (final r) "7" = getPending sample_store "7".
Proof.
  split; [reflexivity|].
  apply (others_pending_rows_survive
           {| date_now := 1500; date_start_of_day := 0; date_start_of_month := 0 |}
           0 (CallbackQuery (Some "42"%string) (str "cat_0")) [] sample_store "7"
           {| p_amount := Some (number_of_hundredths 100);
              p_description := str "tea"; p_created_at := 5 |});
    [discriminate|reflexivity|vm_compute; discriminate].
Defined.

(** ** A token rendered before a removal *)

Lemma effective_lookup_custom st u j :
  effective_categories st u !! (12 + j)%nat = custom_categories st u !! j.
Proof.
  unfold effective_categories.
  rewrite (lookup_app_r DEFAULT_CATEGORIES) by (simpl; lia).
  f_equal. change (length DEFAULT_CATEGORIES) with 12%nat. lia.
Qed.

(** X16: tokens are positions, not labels.  After the custom category at
    position [i] is removed, a category button rendered before the removal
    for the custom category at position [j], from [i] on, commits the
    expense under the category that was at position [j + 1], or under no
    category when there was none. *)
Theorem token_after_removal d1 d2 clock1 clock2 u (i j : nat) st row :
  (i < length (custom_categories st u))%nat →
  (i ≤ j)%nat →
  getPending st u = Some row →
  let token := str "cat_" ++ show (12 + j) in
  let r1 := run clock1 (handle d1 (CallbackQuery (Some u) (str "remove_" ++ show i)))
              [] st in
  let r2 := run clock2 (handle d2 (CallbackQuery (Some u) token)) [] (final r1) in
  js_index (effective_categories st u) (payload_index token)
    = custom_categories st u !! j
  ∧ ∃ new, expense (final r2) = expense st ++ [new]
           ∧ e_category new = custom_categories st u !! S j
           ∧ e_amount new = p_amount row
           ∧ e_description new = p_description row.
Proof.
  intros Hi Hj Hrow. cbv zeta. split.
  { destruct (payload_index_cat (12 + j)) as [_ ->].
    by rewrite js_index_nat, effective_lookup_custom. }
  cbn [handle].
  destruct (payload_index_remove i) as (Hcat & Hrem & Hidx).
  rewrite (on_callback_remove d1 (Some u) (str "remove_" ++ show i)) by done.
  rewrite on_remove_run. cbv zeta. rewrite Hidx.
  unfold index_ge_length. rewrite (proj2 (Z.leb_gt _ _)) by lia.
  cbn [final].
  set (st1 := db_update_custom u _ _).
  assert (getPending st1 u = Some row) as Hrow1
    by (unfold getPending, st1; cbn [pending_expenses db_update_custom];
        by rewrite upsert_user_pending).
  assert (custom_categories st1 u = delete i (custom_categories st u)) as Hcustom.
  { unfold st1. rewrite update_custom_lookup by apply upsert_user_is_Some.
    rewrite filter_not_index_delete by lia. by rewrite Nat.sub_0_r. }
  rewrite on_callback_category by apply payload_index_cat.
  rewrite (on_category_token d2 clock2 u (12 + j) st1 row Hrow1). cbv zeta.
  rewrite effective_lookup_custom, Hcustom, list_lookup_delete_ge by lia.
  cbn [final]. rewrite commit_requests_expense.
  cbn [db_insert_expense expense n_user_id n_amount n_description n_category].
  rewrite upsert_user_expense.
  assert (expense st1 = expense st) as ->
    by (unfold st1; cbn [expense db_update_custom]; apply upsert_user_expense).
  by eexists.
Qed.

(** User 42 removes A; the button that showed B now files under C. *)
Lemma token_after_removal_witness :
  let r1 := run 0 (handle sample_dates (CallbackQuery (Some "42"%string) (str "remove_0")))
              [] sample_store in
  let r2 := run 1 (handle sample_dates (CallbackQuery (Some "42"%string) (str "cat_13")))
              [] (final r1) in
  js_index (effective_categories sample_store "42") (payload_index (str "cat_13"))
    = Some (str "B")
  ∧ ∃ new, expense (final r2) = [new] ∧ e_category new = Some (str "C").
Proof.
  destruct (token_after_removal sample_dates sample_dates 0 1 "42" 0 1
              sample_store sample_pending)
    as (Hbefore & new & He & Hc & _); [vm_compute; lia|lia|reflexivity|].
  split; [exact Hbefore|]. exists new. split; [exact He|exact Hc].
Defined.

(** ** Labels stay distinct *)







(** ** The removal keyboard *)

Lemma cmd_remove_run clock u st :
  run clock (cmd_remove (Some u)) [] st
  = {| final := (db_upsert_user u st).1;
       sent := match custom_categories st u with
               | [] => [Reply NoCustomCategories]
               | _ :: _ =>
                   [ ReplyWithKeyboard SelectToRemove
                       (remove_rows 0 (custom_categories st u)) ]
               end;
       threw := false |}.
Proof.
  unfold cmd_remove, getOrCreateUser. rewrite run_call. cbn [hd tl].
  rewrite exec_upsert_user. cbn [fst snd]. rewrite upsert_user_row_custom.
  by destruct (custom_categories st u).
Qed.

Lemma remove_rows_lookup customCategories : ∀ index,
  length (remove_rows index customCategories) = S (length customCategories)
  ∧ remove_rows index customCategories !! length customCategories
    = Some [ (0x274C :: str " Cancel", str "cancel_remove") ]
  ∧ ∀ j label, customCategories !! j = Some label →
      remove_rows index customCategories !! j
      = Some [ (label, str "remove_" ++ show (index + j)) ].
Proof.
  induction customCategories as [|cat rest IH]; intros index.
  - by repeat split.
  - destruct (IH (S index)) as (Hlen & Hcancel & Hrows). cbn [remove_rows length].
    split; [by rewrite Hlen|]. split; [done|].
    intros [|j] label Hj.
    + injection Hj as ->. by rewrite Nat.add_0_r.
    + pose proof (Hrows j label Hj) as H.
      replace (index + S j)%nat with (S index + j)%nat by lia. exact H.
Qed.

(** X18: [/remove], for a user with no custom category, says so; for any
    other it shows one row for each custom category, in order, and a last
    row to cancel.  Pressing the button of a category removes exactly that
    category and names it; pressing the cancel button leaves the store as
    it is. *)
Theorem removal_keyboard d clock0 clock1 u text st :
  let customCategories := custom_categories st u in
  let r0 := run clock0 (handle d (CommandMessage CmdRemove (Some u) text)) [] st in
  let press := λ data, run clock1 (handle d (CallbackQuery (Some u) data)) [] (final r0) in
  (customCategories = [] → sent r0 = [Reply NoCustomCategories])
  ∧ (customCategories ≠ [] →
     ∃ rows,
       sent r0 = [ReplyWithKeyboard SelectToRemove rows]
       ∧ length rows = S (length customCategories)
       ∧ (∀ j label, customCategories !! j = Some label →
          ∃ data, rows !! j = Some [(label, data)]
                  ∧ sent (press data)
                    = [ EditMessageText (CategoryRemoved (Some label));
                        AnswerCallbackQuery None ]
                  ∧ custom_categories (final (press data)) u
                    = delete j customCategories)
       ∧ ∃ label data, rows !! length customCategories = Some [(label, data)]
                       ∧ sent (press data)
                         = [EditMessageText Cancelled; AnswerCallbackQuery None]
                       ∧ final (press data) = final r0).
Proof.
  cbv zeta. cbn [handle]. rewrite cmd_remove_run. cbn [final sent].
  split; [by intros ->|]. intros Hne.
  destruct (custom_categories st u) as [|c0 rest] eqn:E; [done|]. rewrite <- E.
  destruct (remove_rows_lookup (custom_categories st u) 0) as (Hlen & Hcancel & Hrows).
  eexists. split; [done|]. split; [done|]. split.
  - intros j label Hj. eexists. split; [by apply Hrows|].
    destruct (payload_index_remove (0 + j)) as (Hcat & Hrem & Hidx).
    rewrite on_callback_remove, on_remove_run by done. cbv zeta. rewrite Hidx.
    change (0 + j)%nat with j.
    rewrite !upsert_user_custom.
    assert (j < length (custom_categories st u))%nat as Hlt
      by by eapply lookup_lt_Some.
    unfold index_ge_length. rewrite (proj2 (Z.leb_gt _ _)) by lia.
    cbn [final sent]. rewrite js_index_nat, Hj. split; [done|].
    rewrite update_custom_lookup by apply upsert_user_is_Some.
    rewrite filter_not_index_delete by lia. by rewrite Nat.sub_0_r.
  - do 2 eexists. split; [exact Hcancel|]. by split.
Qed.

(** ** Failed writes of the custom categories *)

(** X19: when the write of the custom categories fails, [/add] and the
    [remove_] button report the failure and every user's custom categories
    stay as they were. *)
Theorem failed_write_keeps_categories d clock u st :
  (∀ text,
     add_args text ≠ [] → add_args text ∉ effective_categories st u →
     let r := run clock (handle d (CommandMessage CmdAdd (Some u) text))
                [true; true; false] st in
     sent r = [Reply AddFailed]
     ∧ ∀ v, custom_categories (final r) v = custom_categories st v)
  ∧ (∀ i : nat,
     (i < length (custom_categories st u))%nat →
     let r := run clock (handle d (CallbackQuery (Some u) (str "remove_" ++ show i)))
                [true; false] st in
     sent r = [EditMessageText RemoveFailed; AnswerCallbackQuery None]
     ∧ ∀ v, custom_categories (final r) v = custom_categories st v).
Proof.
  split.
  - intros text Hne Hnotin. cbv zeta. cbn [handle].
    unfold cmd_add, getUserCategories, getOrCreateUser.
    destruct (add_args text) as [|c label] eqn:E; [done|]. cbv zeta.
    rewrite run_call. cbn [hd tl]. rewrite exec_upsert_user. cbn [fst snd].
    rewrite run_call. cbn [hd tl]. rewrite exec_upsert_user, upsert_user_again.
    cbn [fst snd]. rewrite upsert_user_row_custom.
    unfold effective_categories in Hnotin.
    rewrite bool_decide_eq_false_2 by done.
    rewrite run_call. cbn [hd tl exec fst snd run final sent].
    split; [done|]. intros v. apply upsert_user_custom.
  - intros i Hi. cbv zeta. cbn [handle].
    destruct (payload_index_remove i) as (Hcat & Hrem & Hidx).
    rewrite on_callback_remove by done.
    unfold on_remove, getOrCreateUser.
    change (default ""%string (Some u)) with u. cbv zeta.
    rewrite run_call. cbn [hd tl]. rewrite exec_upsert_user. cbn [fst snd].
    rewrite upsert_user_row_custom, Hidx.
    unfold index_ge_length. rewrite (proj2 (Z.leb_gt _ _)) by lia.
    rewrite run_call. cbn [hd tl exec fst snd run final sent].
    split; [done|]. intros v. apply upsert_user_custom.
Qed.

(** ** The label of [/add] *)

Lemma split_ws_from_free b s :
  Forall (all_of is_word_unit) (split_ws_from b s).
Proof.
  revert b. induction s as [|c s IH]; intros b; cbn [split_ws_from].
  - by repeat constructor.
  - destruct (is_white_space c) eqn:E.
    + destruct b; [apply IH|]. constructor; [constructor|apply IH].
    + specialize (IH false). unfold cons_head.
      destruct (split_ws_from false s) as [|h t].
      * repeat constructor. unfold is_word_unit. by rewrite E.
      * inversion IH; subst. constructor; [|done].
        constructor; [|done]. unfold is_word_unit. by rewrite E.
Qed.

(** The shape of a split: after a separator, every part but the last is
    not empty; so is every part after the first of a whole split. *)
Lemma split_ws_from_shape s :
  (∃ init last, split_ws_from true s = init ++ [last]
                ∧ Forall (λ p, p ≠ []) init)
  ∧ (drop 1 (split_ws_from false s) = []
     ∨ ∃ init last, drop 1 (split_ws_from false s) = init ++ [last]
                    ∧ Forall (λ p, p ≠ []) init)
  ∧ split_ws_from false s ≠ [].
Proof.
  induction s as [|c s (Htrue & Hfalse & Hne)]; cbn [split_ws_from].
  - split; [|by split; [left|]]. exists [], []. by split.
  - destruct (is_white_space c).
    + split; [done|]. split; [right; exact Htrue|done].
    + destruct (split_ws_from false s) as [|first rest]; [done|].
      cbn [cons_head] in *. change (drop 1 (?x :: ?l)) with l in *.
      split; [|by split].
      destruct Hfalse as [->|(init & last & -> & Hinit)].
      * exists [], (c :: first). by split.
      * exists ((c :: first) :: init), last. split; [done|]. by constructor.
Qed.

Lemma join_space_cons p q rest :
  join_space (p :: q :: rest) = p ++ 32 :: join_space (q :: rest).
Proof. reflexivity. Qed.

Lemma join_space_snoc_empty init :
  join_space (init ++ [[]])
  = match init with [] => [] | _ :: _ => join_space init ++ [32] end.
Proof.
  induction init as [|p init IH]; [done|].
  destruct init as [|q init]; [done|].
  change (join_space ((p :: q :: init) ++ [[]]))
    with (p ++ 32 :: join_space ((q :: init) ++ [[]])).
  rewrite IH. change (join_space (p :: q :: init))
    with (p ++ 32 :: join_space (q :: init)).
  by rewrite <- app_assoc.
Qed.

(** Words joined by spaces begin and end with a unit of a word. *)
Lemma join_space_words ws :
  Forall is_word ws → ws ≠ [] →
  stops is_white_space (join_space ws)
  ∧ ∃ s c, join_space ws = s ++ [c] ∧ is_white_space c = false.
Proof.
  induction 1 as [|w ws [Hw0 Hw] Hws IH]; intros Hne; [done|].
  assert (∃ s c, w = s ++ [c] ∧ is_white_space c = false) as (s & c & -> & Hc).
  { destruct (rev w) as [|c r] eqn:E.
    - apply (f_equal (@rev N)) in E. rewrite rev_involutive in E. done.
    - apply (f_equal (@rev N)) in E. rewrite rev_involutive in E. simpl in E.
      exists (rev r), c. split; [done|]. subst w.
      apply Forall_app in Hw as [_ Hc]. inversion Hc as [|? ? H _]; subst.
      unfold is_word_unit in H. by apply negb_true_iff in H. }
  assert (stops is_white_space (s ++ [c])) as Hhead.
  { destruct s as [|c0 s]; [done|]. inversion Hw as [|? ? H _]; subst.
    unfold is_word_unit in H. by apply negb_true_iff in H. }
  destruct ws as [|w' ws]; [split; [done|by exists s, c]|].
  rewrite join_space_cons. split.
  - by destruct s.
  - destruct IH as (_ & s' & c' & -> & Hc'); [done|].
    exists ((s ++ [c]) ++ 32 :: s'), c'. split; [|done].
    by rewrite <- !app_assoc.
Qed.

Lemma trim_id s :
  stops is_white_space s → stops is_white_space (rev s) → trim s = s.
Proof.
  intros Hs Hr. unfold trim, trimEnd.
  by rewrite (trimStart_id s), (trimStart_id (rev s)), rev_involutive.
Qed.

Lemma trim_join_space_words ws :
  Forall is_word ws →
  trim (join_space ws) = join_space ws
  ∧ (ws ≠ [] → trim (join_space ws ++ [32]) = join_space ws).
Proof.
  intros Hws. destruct ws as [|w ws]; [by split|].
  destruct (join_space_words (w :: ws) Hws) as (Hstart & s & c & E & Hc); [done|].
  assert (stops is_white_space (rev (join_space (w :: ws)))) as Hend
    by (rewrite E, rev_app_distr; exact Hc).
  split; [by apply trim_id|]. intros _.
  unfold trim, trimEnd.
  assert (stops is_white_space (join_space (w :: ws) ++ [32])) as Hstart'.
  { destruct (join_space (w :: ws)) as [|c0 r]; [|exact Hstart].
    by destruct s. }
  rewrite (trimStart_id _ Hstart'), rev_app_distr.
  change (rev [32] ++ ?r) with (32 :: r). cbn [trimStart].
  change (is_white_space 32) with true. cbv iota.
  by rewrite (trimStart_id _ Hend), rev_involutive.
Qed.

(** X20: the label [/add] works with is the words after the command,
    joined by single spaces: each word is a run of units that are not
    white space, so the label holds no white space but single spaces
    between words, and it is empty exactly when no word follows the
    command. *)
Theorem add_args_joins_words text :
  add_args text = join_space (words_after_command text)
  ∧ Forall is_word (words_after_command text)
  ∧ (add_args text = [] ↔ words_after_command text = []).
Proof.
  unfold add_args, words_after_command, split_ws.
  pose proof (split_ws_from_free false text) as Hfree.
  destruct (split_ws_from_shape text) as (_ & Hshape & _).
  assert (Forall (all_of is_word_unit) (drop 1 (split_ws_from false text)))
    as Hfree' by by apply Forall_drop.
  set (parts := drop 1 (split_ws_from false text)) in *.
  assert (∃ init, Forall is_word init
            ∧ filter (λ part, part ≠ []) parts = init
            ∧ trim (join_space parts) = join_space init)
    as (ws & Hws & -> & ->).
  { destruct Hshape as [->|(init & last & -> & Hinit)].
    - exists []. by repeat split.
    - apply Forall_app in Hfree' as [Hfi Hfl].
      inversion Hfl as [|? ? Hlast _]; subst.
      assert (Forall is_word init) as Hw.
      { rewrite Forall_forall in *. intros p Hp. split; [by apply Hinit|by apply Hfi]. }
      assert (filter (λ part : jsstring, part ≠ []) init = init) as Hkeep.
      { clear -Hinit. induction Hinit as [|p init Hp _ IH]; [done|].
        rewrite filter_cons_True by done. by rewrite IH. }
      destruct last as [|c last].
      + exists init. split; [done|]. rewrite filter_app, Hkeep.
        split; [by rewrite app_nil_r|].
        rewrite join_space_snoc_empty. destruct init as [|p init']; [done|].
        by apply (trim_join_space_words (p :: init')).
      + exists (init ++ [c :: last]). split.
        * apply Forall_app. split; [done|]. by constructor; [split|].
        * rewrite filter_app, Hkeep. split; [done|].
          apply trim_join_space_words, Forall_app. split; [done|].
          by constructor; [split|]. }
  split; [done|]. split; [done|]. split.
  - intros E. destruct ws as [|w ws]; [done|].
    destruct (join_space_words (w :: ws) Hws) as (_ & s & c & E' & _); [done|].
    rewrite E in E'. by destruct s.
  - by intros ->.
Qed.

(** ** Requests whose answer is not checked *)

(** X21: the delete of the pending row is not checked.  When, in a
    selection within the list, the append succeeds and the delete of the
    pending row fails, the expense is written and confirmed and the
    pending row, if it is not older than one hour, stays; the same
    selection made again then writes the expense a second time. *)
Theorem failed_delete_leaves_pending d1 d2 clock1 clock2 u (i : nat) label
    (ok6 : bool) st row :
  getPending st u = Some row →
  (date_now d1 - HOUR ≤ p_created_at row)%Z →
  effective_categories st u !! i = Some label →
  let token := str "cat_" ++ show i in
  let r1 := run clock1 (handle d1 (CallbackQuery (Some u) token))
              [true; true; true; true; false; ok6] st in
  let r2 := run clock2 (handle d2 (CallbackQuery (Some u) token)) [] (final r1) in
  let written := λ clock,
    {| e_user_id := u_id (db_upsert_user u st).2; e_amount := p_amount row;
       e_description := p_description row; e_category := Some label;
       e_created_at := clock |} in
  sent r1 = [ EditMessageText
                (ExpenseSaved (p_amount row) (p_description row) (Some label));
              AnswerCallbackQuery None ]
  ∧ expense (final r1) = expense st ++ [written clock1]
  ∧ getPending (final r1) u = Some row
  ∧ expense (final r2) = expense st ++ [written clock1; written clock2].
Proof.
  intros Hrow Hfresh Hlabel. cbv zeta. cbn [handle].
  destruct (payload_index_cat i) as [Hcat Hidx].
  rewrite !(on_callback_category _ _ (str "cat_" ++ show i)) by done.
  rewrite (on_category_commit d1 clock1 u _ true true false ok6 [] st row Hrow).
  rewrite Hidx, js_index_nat. fold (effective_categories st u). rewrite Hlabel.
  cbn [final sent].
  match goal with |- context [run clock2 _ [] ?s] => set (st1 := s) end.
  assert (expense st1 = expense st ++
            [ {| e_user_id := u_id (db_upsert_user u st).2;
                 e_amount := p_amount row; e_description := p_description row;
                 e_category := Some label; e_created_at := clock1 |} ]) as He1.
  { unfold st1. rewrite commit_requests_expense. cbn [db_insert_expense expense].
    by rewrite upsert_user_expense. }
  assert (getPending st1 u = Some row) as Hrow1.
  { unfold getPending, st1. rewrite commit_requests_pending, upsert_user_pending.
    cbv zeta. destruct ok6; [|done].
    apply map_lookup_filter_Some. split; [done|]. simpl. lia. }
  assert (db_upsert_user u st1 = (st1, (db_upsert_user u st).2)) as Hup.
  { unfold st1, commit_requests, db_upsert_user at 1.
    assert (∀ s, users (if ok6 then db_delete_pending_before (date_now d1 - HOUR) s
                        else s) = users s) as -> by by destruct ok6.
    cbn [users db_insert_expense]. by rewrite upsert_user_lookup. }
  assert (effective_categories st1 u = effective_categories st u) as Hcats.
  { unfold effective_categories, custom_categories, st1, commit_requests.
    assert (∀ s, users (if ok6 then db_delete_pending_before (date_now d1 - HOUR) s
                        else s) = users s) as -> by by destruct ok6.
    cbn [users db_insert_expense]. f_equal. apply upsert_user_custom. }
  split; [done|]. split; [done|]. split; [done|].
  rewrite (on_category_token d2 clock2 u i st1 row Hrow1). cbv zeta.
  cbn [final]. rewrite commit_requests_expense. cbn [db_insert_expense expense].
  rewrite Hup. cbn [fst snd expense]. rewrite He1, Hcats, Hlabel.
  by rewrite <- app_assoc.
Qed.

(** User 42 selects at time 1500 and the delete fails. *)
Lemma failed_delete_leaves_pending_witness :
  let d := {| date_now := 1500; date_start_of_day := 0; date_start_of_month := 0 |} in
  let r1 := run 1 (handle d (CallbackQuery (Some "42"%string) (str "cat_0")))
              [true; true; true; true; false; true] sample_store in
  let r2 := run 2 (handle d (CallbackQuery (Some "42"%string) (str "cat_0")))
              [] (final r1) in
  getPending (final r1) "42" = Some sample_pending
  ∧ length (expense (final r2)) = 2%nat.
Proof.
  destruct (failed_delete_leaves_pending
              {| date_now := 1500; date_start_of_day := 0; date_start_of_month := 0 |}
              {| date_now := 1500; date_start_of_day := 0; date_start_of_month := 0 |}
              1 2 "42" 0 ([0xD83C; 0xDF54] ++ str " Food") true sample_store
              sample_pending)
    as (_ & _ & Hp & He); [reflexivity|vm_compute; discriminate|reflexivity|].
  split; [exact Hp|]. apply (f_equal length) in He. exact He.
Defined.

(** X22: the write of the pending row is not checked.  When a text parses
    as an expense and the write of its pending row fails, the sender still
    gets the prompt with the category keyboard, and the pending rows are
    as they were before. *)
Theorem failed_pending_write_still_prompts d clock u text amount description st :
  parseExpenseInput text = Some (amount, description) →
  let r := run clock (handle d (TextMessage (Some u) text)) [false] st in
  sent r = [ ReplyWithKeyboard (SelectCategory amount description)
               (category_rows 0 (effective_categories st u)) ]
  ∧ pending_expenses (final r) = pending_expenses st
  ∧ expense (final r) = expense st.
Proof.
  intros Hparse. cbv zeta. cbn [handle]. unfold on_text.
  rewrite (parse_not_command _ _ _ Hparse), Hparse.
  change (default ""%string (Some u)) with u. cbv zeta.
  unfold createCategoryKeyboard, getUserCategories, getOrCreateUser.
  rewrite run_call. cbn [hd tl exec fst snd].
  rewrite run_call. cbn [hd tl]. rewrite exec_upsert_user. cbn [fst snd].
  rewrite upsert_user_row_custom. cbn [run final sent].
  by rewrite upsert_user_pending, upsert_user_expense.
Qed.

(** User 9 has no pending row and the write fails; the keyboard of the
    twelve defaults has seven rows, the last one empty. *)
Lemma failed_pending_write_still_prompts_witness :
  let r := run 0 (handle sample_dates (TextMessage (Some "9"%string) (str "3 tea")))
             [false] sample_store in
  (∃ rows, sent r = [ReplyWithKeyboard
                       (SelectCategory (number_of_hundredths 300) (str "tea")) rows]
           ∧ length rows = 7%nat)
  ∧ getPending (final r) "9" = None.
Proof.
  destruct (failed_pending_write_still_prompts sample_dates 0 "9" (str "3 tea")
              (number_of_hundredths 300) (str "tea") sample_store)
    as (Hs & Hp & _); [reflexivity|].
  split; [by eexists|]. unfold getPending. by rewrite Hp.
Defined.

(** X23: [/add] reads the user row twice, once for the list it writes
    back and once for the list it checks against.  When the first read
    fails and the rest succeeds, the custom categories written are the
    new label alone; when the second read fails and the rest succeeds,
    the label is checked against the defaults only and is appended even
    if it is already a custom category. *)
Theorem add_with_a_failed_read d clock u text st :
  add_args text ≠ [] →
  (add_args text ∉ effective_categories st u →
   custom_categories
     (final (run clock (handle d (CommandMessage CmdAdd (Some u) text))
               [false; true; true] st)) u
   = [add_args text])
  ∧ (add_args text ∉ DEFAULT_CATEGORIES →
     custom_categories
       (final (run clock (handle d (CommandMessage CmdAdd (Some u) text))
                 [true; false; true] st)) u
     = custom_categories st u ++ [add_args text]).
Proof.
  intros Hne. cbn [handle]. unfold cmd_add, getUserCategories, getOrCreateUser.
  destruct (add_args text) as [|c label] eqn:E; [done|]. cbv zeta. split.
  - intros Hnotin. rewrite run_call. cbn [hd tl exec fst snd].
    rewrite run_call. cbn [hd tl]. rewrite exec_upsert_user. cbn [fst snd].
    rewrite upsert_user_row_custom. unfold effective_categories in Hnotin.
    rewrite bool_decide_eq_false_2 by done.
    rewrite run_call. cbn [hd tl exec fst snd run final custom_of_user app].
    apply update_custom_lookup, upsert_user_is_Some.
  - intros Hnotin. rewrite run_call. cbn [hd tl]. rewrite exec_upsert_user.
    cbn [fst snd]. rewrite upsert_user_row_custom.
    rewrite run_call. cbn [hd tl exec fst snd].
    change (custom_of_user None) with (@nil jsstring).
    rewrite app_nil_r, bool_decide_eq_false_2 by done.
    rewrite run_call. cbn [hd tl exec fst snd run final].
    apply update_custom_lookup, upsert_user_is_Some.
Qed.

(** User 42 adds D while the first read fails, and adds A again while the
    second read fails. *)
Lemma add_with_a_failed_read_witness :
  let add := λ text faults,
    custom_categories
      (final (run 0 (handle sample_dates (CommandMessage CmdAdd (Some "42"%string) text))
                faults sample_store)) "42" in
  add (str "/add D") [false; true; true] = [str "D"]
  ∧ add (str "/add A") [true; false; true] = [str "A"; str "B"; str "C"; str "A"].
Proof.
  split.
  - destruct (add_with_a_failed_read sample_dates 0 "42" (str "/add D") sample_store)
      as [H _]; [vm_compute; discriminate|].
    apply H. apply (bool_decide_unpack _). by vm_compute.
  - destruct (add_with_a_failed_read sample_dates 0 "42" (str "/add A") sample_store)
      as [_ H]; [vm_compute; discriminate|].
    apply H. apply (bool_decide_unpack _). by vm_compute.
Defined.

(** ** From a selection to the reports *)


